(** * GlobalLeaderboards SDK: offline queue, facade and WebSocket client

    A shallow embedding of the TypeScript sources
    [src/offline-queue.ts] (class [OfflineQueue]), the facade
    [GlobalLeaderboards] (methods [submit] and [processOfflineQueue]) and
    [src/websocket.ts] (class [LeaderboardWebSocket], the revision with
    permanent errors and network awareness).

    Conventions of the embedding:
    - a JavaScript string is the list of its UTF-16 code units
      ([jsstring]), so that [length] is [String.prototype.length] and the
      character ranges of a regular expression are ranges of code units;
      [js] embeds a literal; numbers that the code only counts with are
      [nat] or [Z]; a score is a rational [Q]; the numbers of the
      reconnection delay are IEEE 754 doubles ([Double.Number]), each
      operation rounded as the machine rounds it, and an option that may
      be [undefined] is an [option] of them;
    - an optional property is an [option]; JavaScript truthiness of an
      optional string is [truthy] (present and non-empty);
    - a [Map] is an insertion-ordered association list ([JsMap]); [set] on
      a key that is present replaces the value in place;
    - every observable effect (a persisted snapshot, an emitted event, a
      REST call, a socket created, a frame sent, a callback invoked) is
      appended to a log carried by the state;
    - the clock ([Date.now()]), the id generator ([ulid()]), the random
      source ([Math.random()]) and the outcome of REST calls are inputs. *)

From Stdlib Require Import String Ascii Bool Arith ZArith QArith Qround Qpower Qabs.
From Stdlib Require Import Lia Lqa List.
From Stdlib Require Import Permutation DecimalString DecimalNat.
Import ListNotations.

Local Close Scope Q_scope.
Local Open Scope nat_scope.
Local Open Scope list_scope.

(** ** JavaScript helpers *)

Definition jsstring : Type := list N.

(** A literal of the source, as code units. *)
Definition js (s : string) : jsstring :=
  map N_of_ascii (list_ascii_of_string s).

Definition jseqb (a b : jsstring) : bool :=
  if list_eq_dec N.eq_dec a b then true else false.

(** [s] is truthy when it is present and not the empty string. *)
Definition truthy (s : option jsstring) : bool :=
  match s with
  | Some (_ :: _) => true
  | _ => false
  end.

(** [a || b] on an optional string and a string. *)
Definition or_else (a : option jsstring) (b : jsstring) : jsstring :=
  match a with
  | Some (c :: s) => c :: s
  | _ => b
  end.

(** [a || b] on two optional strings. *)
Definition or_opt (a b : option jsstring) : option jsstring :=
  if truthy a then a else b.

(** Template literal of a non-negative integer: its decimal digits. *)
Definition dec (n : nat) : jsstring :=
  js (NilEmpty.string_of_uint (Nat.to_uint n)).

(** [String.prototype.startsWith]. *)
Fixpoint startsWith (p s : jsstring) : bool :=
  match p, s with
  | [], _ => true
  | a :: p', b :: s' => N.eqb a b && startsWith p' s'
  | _ :: _, [] => false
  end.

(** [Array.prototype.slice(i, j)] for [0 <= i <= j]. *)
Definition slice {A : Type} (i j : nat) (l : list A) : list A :=
  firstn (j - i) (skipn i l).

(** Errors thrown by the SDK: a plain [Error] or a [GlobalLeaderboardsError]
    with its code and optional HTTP status. *)
Inductive JsError : Type :=
| PlainError (message : jsstring)
| GLError (message code : jsstring) (statusCode : option Z).

Inductive Result (A : Type) : Type :=
| Ok (a : A)
| Throw (e : JsError).
Arguments Ok {A} a.
Arguments Throw {A} e.

(** ** JavaScript numbers *)

(** A Number is NaN, an infinity or a finite double, given by its value;
    the two zeros are not told apart.  Arithmetic rounds the exact result
    to the nearest double, ties to even. *)
Module Double.

Inductive Number : Type :=
| NaN
| Infinity (negative : bool)
| Finite (q : Q).

Definition pow2 (e : Z) : Q := ((2 # 1) ^ e)%Q.

(** For [x > 0], the integer [l] with [2^l <= x < 2^(l+1)]. *)
Definition ilog2 (x : Q) : Z :=
  let l := (Z.log2 (Qnum x) - Z.log2 (Z.pos (Qden x)))%Z in
  if Qle_bool (pow2 l) x then l else (l - 1)%Z.

(** The nearest integer, ties to even. *)
Definition rne (x : Q) : Z :=
  let f := Qfloor x in
  match (x - inject_Z f ?= 1 # 2)%Q with
  | Lt => f
  | Gt => (f + 1)%Z
  | Eq => if Z.even f then f else (f + 1)%Z
  end.

(** The exponent of the last place of the doubles around [x > 0]: 53
    significant bits, and [2^-1074] below the normal range. *)
Definition expo (x : Q) : Z := Z.max (ilog2 x - 52) (-1074).

(** A positive rational rounded to a multiple of its last place. *)
Definition round_pos (x : Q) : Q :=
  let e := expo x in
  (inject_Z (rne (x / pow2 e)) * pow2 e)%Q.

Definition round (x : Q) : Q :=
  match (x ?= 0)%Q with
  | Eq => 0%Q
  | Gt => round_pos x
  | Lt => (- round_pos (- x))%Q
  end.

(** The double for an exact result: rounded, and an infinity when the
    rounded value is out of range. *)
Definition fl (x : Q) : Number :=
  let y := round x in
  if Qle_bool (pow2 1024) (Qabs y) then Infinity (Qle_bool y 0)
  else Finite (Qred y).

Definition mul (a b : Number) : Number :=
  match a, b with
  | NaN, _ | _, NaN => NaN
  | Finite x, Finite y => fl (x * y)
  | Infinity n, Infinity m => Infinity (xorb n m)
  | Infinity n, Finite y | Finite y, Infinity n =>
      match (y ?= 0)%Q with
      | Eq => NaN
      | Gt => Infinity n
      | Lt => Infinity (negb n)
      end
  end.

Definition add (a b : Number) : Number :=
  match a, b with
  | NaN, _ | _, NaN => NaN
  | Finite x, Finite y => fl (x + y)
  | Infinity n, Infinity m => if Bool.eqb n m then Infinity n else NaN
  | Infinity n, Finite _ | Finite _, Infinity n => Infinity n
  end.

Definition opp (a : Number) : Number :=
  match a with
  | NaN => NaN
  | Infinity n => Infinity (negb n)
  | Finite x => Finite (- x)
  end.

Definition sub (a b : Number) : Number := add a (opp b).

(** [a >= b]; false when one of them is NaN. *)
Definition geb (a b : Number) : bool :=
  match a, b with
  | NaN, _ | _, NaN => false
  | Infinity n, Infinity m => negb n || m
  | Infinity n, Finite _ => negb n
  | Finite _, Infinity m => m
  | Finite x, Finite y => Qle_bool y x
  end.

(** A counter of the code as a Number. *)
Definition of_nat (n : nat) : Number := Finite (inject_Z (Z.of_nat n)).

(** [ToNumber] of an optional number: [undefined] is NaN. *)
Definition to_number (v : option Number) : Number :=
  match v with
  | Some n => n
  | None => NaN
  end.

(** [Math.pow(2, n)] for an integer [n >= 0]. *)
Definition Math_pow2 (n : nat) : Number := fl (pow2 (Z.of_nat n)).

(** [Math.max(a, b)] *)
Definition Math_max (a b : Number) : Number :=
  match a, b with
  | NaN, _ | _, NaN => NaN
  | _, _ => if geb a b then a else b
  end.

(** [Math.round]: the nearest integer, halves upwards. *)
Definition Math_round (a : Number) : Number :=
  match a with
  | Finite x => Finite (inject_Z (Qfloor (x + (1 # 2))))
  | _ => a
  end.

End Double.

(** Insertion-ordered [Map<string, V>]. *)
Section JsMap.
Context {V : Type}.

Definition JsMap := list (jsstring * V).

Fixpoint mhas (k : jsstring) (m : JsMap) : bool :=
  match m with
  | [] => false
  | (k', _) :: m' => if jseqb k k' then true else mhas k m'
  end.

Fixpoint mget (k : jsstring) (m : JsMap) : option V :=
  match m with
  | [] => None
  | (k', v) :: m' => if jseqb k k' then Some v else mget k m'
  end.

(** [Map.prototype.set]: replace in place, or append a new entry. *)
Fixpoint mset (k : jsstring) (v : V) (m : JsMap) : JsMap :=
  match m with
  | [] => [(k, v)]
  | (k', v') :: m' =>
      if jseqb k k' then (k', v) :: m' else (k', v') :: mset k v m'
  end.
End JsMap.
Arguments JsMap V : clear implicits.

(** [Set.prototype.add] and [delete] on an insertion-ordered set. *)
Definition sadd (x : jsstring) (s : list jsstring) : list jsstring :=
  if existsb (jseqb x) s then s else s ++ [x].

Definition sdelete (x : jsstring) (s : list jsstring) : list jsstring :=
  filter (fun y => negb (jseqb x y)) s.

(** ** Data model *)

Module Wire.
(** [SubmitScoreRequest], one score in the body of a REST call.  The
    drain pass fills the fields from queued parameters under non-null
    assertions, so each of them can be missing at run time. *)
Record SubmitScoreRequest : Type := {
  leaderboard_id : option jsstring;
  user_id : option jsstring;
  user_name : option jsstring;
  score : option Q;
  metadata : option jsstring
}.
End Wire.

(** [QueuedOperation['method']] *)
Module Method.
Inductive t : Type := submit | submitBulk.

(** [===] on two methods. *)
Definition eqb (a b : t) : bool :=
  match a, b with
  | submit, submit | submitBulk, submitBulk => true
  | _, _ => false
  end.
End Method.

(** [QueuedOperation['params']]; every property is optional. *)
Record Params : Type := {
  userId : option jsstring;
  score : option Q;
  leaderboardId : option jsstring;
  userName : option jsstring;
  metadata : option jsstring;
  scores : option (list Wire.SubmitScoreRequest)
}.

Record QueuedOperation : Type := {
  queueId : jsstring;
  method : Method.t;
  params : Params;
  timestamp : Z;
  retryCount : nat
}.

Module QueuedSubmitResponse.
Record t : Type := {
  queued : bool;
  queueId : jsstring;
  queuePosition : nat;
  operation : jsstring;
  rank : Z
}.
End QueuedSubmitResponse.

Inductive QueueEvent : Type :=
| queue_added (op : QueuedOperation)
| queue_failed (op : QueuedOperation) (permanent : bool)
| queue_progress (processed total : nat).

(** What the queue does to the outside world. *)
Inductive Effect : Type :=
| Persist (snapshot : list QueuedOperation)
| Emit (e : QueueEvent)
| StorageClear.

(** ** [OfflineQueue] *)

Module OfflineQueue.

Record t : Type := {
  queue : list QueuedOperation;
  processing : bool;
  effects : list Effect
}.

Definition MAX_QUEUE_SIZE : nat := 1000.
Definition QUEUE_TTL_MS : Z := 24 * 60 * 60 * 1000.
Definition MAX_BATCH_SIZE : nat := 100.

Definition set_queue (q : list QueuedOperation) (s : t) : t :=
  {| queue := q; processing := processing s; effects := effects s |}.

Definition log (e : Effect) (s : t) : t :=
  {| queue := queue s; processing := processing s;
     effects := effects s ++ [e] |}.

(** [persistQueue]: hand the current array to the storage adapter; a
    failure of the adapter is logged and otherwise ignored. *)
Definition persistQueue (s : t) : t := log (Persist (queue s)) s.

(** [emit]: the event reaches every handler registered for it; a handler
    that throws is caught. *)
Definition emit (e : QueueEvent) (s : t) : t := log (Emit e) s.

Definition size (s : t) : nat := length (queue s).
Definition hasItems (s : t) : bool := 0 <? length (queue s).
Definition isProcessing (s : t) : bool := processing s.
Definition getQueue (s : t) : list QueuedOperation := queue s.

Definition setProcessing (b : bool) (s : t) : t :=
  {| queue := queue s; processing := b; effects := effects s |}.

(** [enqueue(operation)] run to completion: the part before
    [await this.persistQueue()] and the part after it, with nothing running
    in between.  That is the call on an instance on which no other
    continuation is waiting, such as the load that the constructor starts;
    [Lifecycle.enqueue_start] and [Lifecycle.resume] are the two parts
    taken apart, and [LifecycleSpec.enqueue_sequential] shows that they
    compose to this function.  [ulid] and [now] are the values returned by
    [ulid()] and [Date.now()]. *)
Definition enqueue (ulid : jsstring) (now : Z) (m : Method.t) (p : Params)
    (s : t) : Result QueuedSubmitResponse.t * t :=
  let queuedOp :=
    {| queueId := ulid; method := m; params := p;
       timestamp := now; retryCount := 0 |} in
  if MAX_QUEUE_SIZE <=? length (queue s) then
    (Throw (PlainError (js "Queue is full (max 1000 items)")), s)
  else
    let s1 := set_queue (queue s ++ [queuedOp]) s in
    let s2 := persistQueue s1 in
    let s3 := emit (queue_added queuedOp) s2 in
    (Ok {| QueuedSubmitResponse.queued := true;
           QueuedSubmitResponse.queueId := ulid;
           QueuedSubmitResponse.queuePosition := length (queue s3);
           QueuedSubmitResponse.operation := js "insert";
           QueuedSubmitResponse.rank := (-1)%Z |}, s3).

(** [cleanExpiredItems]: drop what is at least [QUEUE_TTL_MS] old and
    persist when something was dropped. *)
Definition cleanExpiredItems (now : Z) (s : t) : t :=
  let originalSize := length (queue s) in
  let s1 :=
    set_queue
      (filter (fun op => (now - timestamp op <? QUEUE_TTL_MS)%Z) (queue s))
      s in
  if length (queue s1) <? originalSize then persistQueue s1 else s1.

(** First loop of [batchOperations], one operation. *)
Definition group_op (groups : JsMap (list QueuedOperation))
    (op : QueuedOperation) : JsMap (list QueuedOperation) :=
  if Method.eqb (method op) Method.submit && truthy (leaderboardId (params op))
  then
    let key := or_else (leaderboardId (params op)) [] in
    let groups1 := if mhas key groups then groups else mset key [] groups in
    match mget key groups1 with
    | Some ops => mset key (ops ++ [op]) groups1
    | None => groups1
    end
  else if Method.eqb (method op) Method.submitBulk then
    mset (js "bulk_" ++ queueId op) [op] groups
  else groups.

(** The inner [for (let i = 0; i < ops.length; i += MAX_BATCH_SIZE)]. *)
Fixpoint split_loop (fuel : nat) (key : jsstring)
    (ops : list QueuedOperation) (i : nat)
    (limited : JsMap (list QueuedOperation))
    : JsMap (list QueuedOperation) :=
  match fuel with
  | 0 => limited
  | S fuel' =>
      if i <? length ops then
        split_loop fuel' key ops (i + MAX_BATCH_SIZE)
          (mset (key ++ js "_" ++ dec i)
             (slice i (i + MAX_BATCH_SIZE) ops) limited)
      else limited
  end.

(** Second loop of [batchOperations], one group. *)
Definition limit_group (limited : JsMap (list QueuedOperation))
    (g : jsstring * list QueuedOperation)
    : JsMap (list QueuedOperation) :=
  let (key, ops) := g in
  if MAX_BATCH_SIZE <? length ops then
    split_loop (length ops) key ops 0 limited
  else mset key ops limited.

Definition batchOperations (now : Z) (s : t)
    : JsMap (list QueuedOperation) * t :=
  let s1 := cleanExpiredItems now s in
  let groups := fold_left group_op (queue s1) [] in
  (fold_left limit_group groups [], s1).

Definition removeProcessed (queueIds : list jsstring) (s : t) : t :=
  persistQueue
    (set_queue
       (filter (fun op => negb (existsb (jseqb (queueId op)) queueIds))
          (queue s))
       s).

Definition clear (s : t) : t := log StorageClear (set_queue [] s).

(** [op.retryCount = (op.retryCount || 0) + 1] on the object that [find]
    returned, which is the first one with that id. *)
Fixpoint bump_first (id : jsstring) (q : list QueuedOperation)
    : list QueuedOperation :=
  match q with
  | [] => []
  | o :: q' =>
      if jseqb (queueId o) id then
        {| queueId := queueId o; method := method o; params := params o;
           timestamp := timestamp o; retryCount := retryCount o + 1 |} :: q'
      else o :: bump_first id q'
  end.

Definition markFailed (id : jsstring) (permanent : bool) (s : t) : t :=
  match find (fun o => jseqb (queueId o) id) (queue s) with
  | Some op =>
      if permanent then
        let s1 :=
          set_queue
            (filter (fun o => negb (jseqb (queueId o) id)) (queue s)) s in
        persistQueue (emit (queue_failed op true) s1)
      else persistQueue (set_queue (bump_first id (queue s)) s)
  | None => s
  end.

End OfflineQueue.

(** ** The facade [GlobalLeaderboards] *)

Module GlobalLeaderboards.

(** A REST call that left the client: its path and the scores sent. *)
Record HttpCall : Type := {
  path : jsstring;
  body : list Wire.SubmitScoreRequest
}.

Record t : Type := {
  defaultLeaderboardId : option jsstring;
  isOnline : bool;
  offlineQueue : OfflineQueue.t;
  calls : list HttpCall
}.

Definition set_offlineQueue (q : OfflineQueue.t) (g : t) : t :=
  {| defaultLeaderboardId := defaultLeaderboardId g; isOnline := isOnline g;
     offlineQueue := q; calls := calls g |}.

Definition set_isOnline (b : bool) (g : t) : t :=
  {| defaultLeaderboardId := defaultLeaderboardId g; isOnline := b;
     offlineQueue := offlineQueue g; calls := calls g |}.

(** [this.request('POST', path, body)] is issued. *)
Definition call (p : jsstring) (b : list Wire.SubmitScoreRequest) (g : t)
    : t :=
  {| defaultLeaderboardId := defaultLeaderboardId g; isOnline := isOnline g;
     offlineQueue := offlineQueue g;
     calls := calls g ++ [{| path := p; body := b |}] |}.

(** The third argument of [submit]. *)
Record SubmitOptions : Type := {
  opt_leaderboardId : option jsstring;
  opt_userName : option jsstring;
  opt_metadata : option jsstring
}.

Inductive LeaderboardIdOrOptions : Type :=
| ArgUndefined
| ArgString (leaderboardId : jsstring)
| ArgOptions (options : SubmitOptions).

(** One code unit of the class
    [[a-zA-Z0-9\u00C0-\u017F()._\- ]]. *)
Definition userNameChar (c : N) : bool :=
  ((97 <=? c) && (c <=? 122) || (65 <=? c) && (c <=? 90)
   || (48 <=? c) && (c <=? 57) || (192 <=? c) && (c <=? 383)
   || (c =? 40) || (c =? 41) || (c =? 46) || (c =? 95) || (c =? 45)
   || (c =? 32))%N.

(** [userNamePattern.test(userName)]: one or more characters of the
    class, from the start to the end of the string. *)
Definition userNamePattern_test (userName : jsstring) : bool :=
  match userName with
  | [] => false
  | _ :: _ => forallb userNameChar userName
  end.

Definition INVALID_SCORE : JsError :=
  GLError (js "Score must be greater than or equal to 0")
    (js "INVALID_SCORE") None.

Definition MISSING_LEADERBOARD_ID : JsError :=
  GLError
    (js "Leaderboard ID is required (specify in options or set defaultLeaderboardId in constructor)")
    (js "MISSING_LEADERBOARD_ID") None.

Definition INVALID_USERNAME : JsError :=
  GLError
    (js "Username contains invalid characters. Only alphanumeric, accented letters, parentheses, dots, underscores, hyphens, and spaces are allowed")
    (js "INVALID_USERNAME") None.

Definition INVALID_USERNAME_LENGTH : JsError :=
  GLError (js "Username must be between 1 and 50 characters")
    (js "INVALID_USERNAME_LENGTH") None.

(** How a call of [submit] ends: it throws, it returns the queue's
    acknowledgement, or it returns whatever the direct REST call does. *)
Inductive Submitted : Type :=
| Rejected (e : JsError)
| Queued (r : Result QueuedSubmitResponse.t)
| Direct (request : Wire.SubmitScoreRequest).

Definition normalize (a : LeaderboardIdOrOptions) : SubmitOptions :=
  match a with
  | ArgString l =>
      {| opt_leaderboardId := Some l; opt_userName := None;
         opt_metadata := None |}
  | ArgOptions o => o
  | ArgUndefined =>
      {| opt_leaderboardId := None; opt_userName := None;
         opt_metadata := None |}
  end.

(** [submit(userId, score, leaderboardIdOrOptions)].  A finite score is a
    rational; [ulid] and [now] are consumed when the call is queued.  A
    queued call runs [enqueue] to completion; [Client.submit_start] is the
    call up to the [await] inside [enqueue]. *)
Definition submit (ulid : jsstring) (now : Z) (userId : jsstring)
    (score : Q) (leaderboardIdOrOptions : LeaderboardIdOrOptions) (g : t)
    : Submitted * t :=
  if Qlt_le_dec score 0 then (Rejected INVALID_SCORE, g)
  else
    let options := normalize leaderboardIdOrOptions in
    let leaderboardId :=
      or_opt (opt_leaderboardId options) (defaultLeaderboardId g) in
    if negb (truthy leaderboardId) then (Rejected MISSING_LEADERBOARD_ID, g)
    else
      let userName := or_else (opt_userName options) userId in
      if negb (userNamePattern_test userName) then
        (Rejected INVALID_USERNAME, g)
      else if (length userName <? 1) || (50 <? length userName) then
        (Rejected INVALID_USERNAME_LENGTH, g)
      else if negb (isOnline g) || OfflineQueue.hasItems (offlineQueue g)
      then
        let (r, q) :=
          OfflineQueue.enqueue ulid now Method.submit
            {| userId := Some userId; score := Some score;
               leaderboardId := leaderboardId; userName := Some userName;
               metadata := opt_metadata options; scores := None |}
            (offlineQueue g) in
        (Queued r, set_offlineQueue q g)
      else
        let request :=
          {| Wire.leaderboard_id := leaderboardId;
             Wire.user_id := Some userId;
             Wire.user_name := Some userName;
             Wire.score := Some score;
             Wire.metadata := opt_metadata options |} in
        (Direct request, call (js "/v1/scores") [request] g).

(** What [this.request] finally does for the drain pass, after its own
    retries: it resolves, or it throws. *)
Inductive Outcome : Type :=
| Resolved
| Failed (e : JsError).

(** The test of the [catch] clause:
    [error instanceof GlobalLeaderboardsError] with status 404, 401 or
    403. *)
Definition isPermanent (e : JsError) : bool :=
  match e with
  | GLError _ _ (Some c) => ((c =? 404) || (c =? 401) || (c =? 403))%Z
  | _ => false
  end.

(** [operations.map(op => ({...}))] of the drain pass. *)
Definition to_request (op : QueuedOperation) : Wire.SubmitScoreRequest :=
  {| Wire.leaderboard_id := leaderboardId (params op);
     Wire.user_id := userId (params op);
     Wire.user_name := or_opt (userName (params op)) (userId (params op));
     Wire.score := score (params op);
     Wire.metadata := metadata (params op) |}.

Definition BULK_PATH : jsstring := js "/v1/scores/bulk".

Definition progress (totalProcessed : nat) (g : t) : t :=
  set_offlineQueue
    (OfflineQueue.emit
       (queue_progress totalProcessed
          (OfflineQueue.size (offlineQueue g) + totalProcessed))
       (offlineQueue g))
    g.

(** The [catch] clause of the loop body; [false] is [break]. *)
Definition on_failure (e : JsError) (operations : list QueuedOperation)
    (totalProcessed : nat) (g : t) : t * nat * bool :=
  if isPermanent e then
    (set_offlineQueue
       (fold_left
          (fun q op => OfflineQueue.markFailed (queueId op) true q)
          operations (offlineQueue g))
       g,
     totalProcessed, true)
  else (g, totalProcessed, false).

(** The body of [for (const [key, operations] of batches)].  [respond key]
    is the outcome of the REST call issued for the batch stored under
    [key]; a [Map] holds a key once, so a pass issues at most one call per
    key.  The counter [totalFailed] of the source is never read and is
    left out. *)
Definition process_batch (respond : jsstring -> Outcome)
    (b : jsstring * list QueuedOperation) (totalProcessed : nat) (g : t)
    : t * nat * bool :=
  let (key, operations) := b in
  if startsWith (js "bulk_") key then
    match operations with
    | [] =>
        (* [operations[0].params] throws a TypeError *)
        on_failure (PlainError (js "TypeError")) operations totalProcessed g
    | op :: _ =>
        match scores (params op) with
        | Some sc =>
            let g1 := call BULK_PATH sc g in
            match respond key with
            | Resolved =>
                let g2 :=
                  set_offlineQueue
                    (OfflineQueue.removeProcessed [queueId op]
                       (offlineQueue g1)) g1 in
                (progress (totalProcessed + 1) g2, totalProcessed + 1, true)
            | Failed e => on_failure e operations totalProcessed g1
            end
        | None => (progress totalProcessed g, totalProcessed, true)
        end
    end
  else
    let g1 := call BULK_PATH (map to_request operations) g in
    match respond key with
    | Resolved =>
        let g2 :=
          set_offlineQueue
            (OfflineQueue.removeProcessed (map queueId operations)
               (offlineQueue g1)) g1 in
        let total := totalProcessed + length operations in
        (progress total g2, total, true)
    | Failed e => on_failure e operations totalProcessed g1
    end.

Fixpoint drain (respond : jsstring -> Outcome)
    (batches : JsMap (list QueuedOperation)) (totalProcessed : nat) (g : t)
    : t :=
  match batches with
  | [] => g
  | b :: rest =>
      match process_batch respond b totalProcessed g with
      | (g', total, true) => drain respond rest total g'
      | (g', _, false) => g'
      end
  end.

Definition processOfflineQueue (respond : jsstring -> Outcome) (now : Z)
    (g : t) : t :=
  if negb (isOnline g) || OfflineQueue.isProcessing (offlineQueue g) then g
  else
    let q1 := OfflineQueue.setProcessing true (offlineQueue g) in
    let (batches, q2) := OfflineQueue.batchOperations now q1 in
    let g1 := drain respond batches 0 (set_offlineQueue q2 g) in
    set_offlineQueue
      (OfflineQueue.setProcessing false (offlineQueue g1)) g1.

End GlobalLeaderboards.

(** ** [LeaderboardWebSocket] *)

Module LeaderboardWebSocket.

Inductive ReadyState : Type := CONNECTING | OPEN | CLOSING | CLOSED.

(** A [WebSocket] object: its state and the two optional parameters of
    the URL it was created with. *)
Record Socket : Type := {
  readyState : ReadyState;
  url_leaderboard_id : option jsstring;
  url_user_id : option jsstring
}.

(** The [error] property of an inbound error message, when it is an
    object with a [message]. *)
Record ErrorBody : Type := {
  error_message : jsstring;
  error_code : option jsstring
}.

(** A parsed inbound message, by its [type]. *)
Inductive WebSocketMessage : Type :=
| leaderboard_update
| user_rank_update
| error (e : option ErrorBody)
| ping
| pong
| connection_info
| update
| score_submission
| other (type : jsstring).

(** The [data] of a message event: text that [JSON.parse] accepts or
    rejects. *)
Inductive Inbound : Type :=
| Unparseable
| Parsed (m : WebSocketMessage).

(** Frames the client sends. *)
Inductive Frame : Type :=
| f_subscribe (leaderboard_id : jsstring) (user_id : option jsstring)
| f_unsubscribe (leaderboard_id : jsstring)
| f_ping
| f_pong.

Inductive Timer : Type := ReconnectTimeout | PingTick.

Inductive Output : Type :=
| NewSocket (sock : nat) (leaderboard_id user_id : option jsstring)
| SocketClose (sock : nat) (code : option Z)
| Sent (sock : nat) (f : Frame)
| OnConnect
| OnDisconnect (code : Z) (reason : jsstring)
| OnError (e : JsError)
| OnReconnecting (attempt : nat) (max : option Double.Number)
    (delayMs : Double.Number)
| SetTimeout (id : nat) (delay : Double.Number)
| OnMessage (m : WebSocketMessage)
| OnLeaderboardUpdate
| OnUserRankUpdate.

(** Which callbacks the application has registered. *)
Record WebSocketHandlers : Type := {
  onConnect : bool;
  onDisconnect : bool;
  onError : bool;
  onLeaderboardUpdate : bool;
  onUserRankUpdate : bool;
  onMessage : bool;
  onReconnecting : bool
}.

(** [this.options] as the constructor leaves it; [None] is a property
    whose value is [undefined]. *)
Record Options : Type := {
  maxReconnectAttempts : option Double.Number;
  reconnectDelay : option Double.Number;
  wsUrlValid : bool  (* whether [new WebSocket(url)] accepts the URL *)
}.

(** The [options] argument of the constructor: a property is absent
    ([None]), or present with a value that may be [undefined]
    ([Some None]). *)
Record GivenOptions : Type := {
  given_maxReconnectAttempts : option (option Double.Number);
  given_reconnectDelay : option (option Double.Number)
}.

(** [{ maxReconnectAttempts: 5, reconnectDelay: 1000, ...options }]: a
    property that is present replaces the default, also when its value is
    [undefined]. *)
Definition spread (given : GivenOptions) (urlValid : bool) : Options :=
  {| maxReconnectAttempts :=
       match given_maxReconnectAttempts given with
       | Some v => v
       | None => Some (Double.Finite (inject_Z 5))
       end;
     reconnectDelay :=
       match given_reconnectDelay given with
       | Some v => v
       | None => Some (Double.Finite (inject_Z 1000))
       end;
     wsUrlValid := urlValid |}.

(** The options that [connectWebSocket] of the facade hands to the
    constructor: both properties are present, with what the application
    gave or [undefined]. *)
Definition connectWebSocket_options
    (maxReconnectAttempts reconnectDelay : option Double.Number)
    : GivenOptions :=
  {| given_maxReconnectAttempts := Some maxReconnectAttempts;
     given_reconnectDelay := Some reconnectDelay |}.

Record t : Type := {
  sockets : list Socket;
  timers : list (nat * Timer);
  nextTimer : nat;
  out : list Output;
  options : Options;
  ws : option nat;
  reconnectAttempts : nat;
  reconnectTimer : option nat;
  pingInterval : option nat;
  subscribedLeaderboards : list jsstring;
  handlers : WebSocketHandlers;
  isConnecting : bool;
  shouldReconnect : bool;
  permanentError : option JsError;
  isOnline : bool
}.

Definition set_sockets (v : list Socket) (s : t) : t :=
  {| sockets := v; timers := timers s; nextTimer := nextTimer s; out := out
     s; options := options s; ws := ws s; reconnectAttempts :=
     reconnectAttempts s; reconnectTimer := reconnectTimer s; pingInterval
     := pingInterval s; subscribedLeaderboards := subscribedLeaderboards s;
     handlers := handlers s; isConnecting := isConnecting s;
     shouldReconnect := shouldReconnect s; permanentError := permanentError
     s; isOnline := isOnline s |}.

Definition set_timers (v : list (nat * Timer)) (s : t) : t :=
  {| sockets := sockets s; timers := v; nextTimer := nextTimer s; out :=
     out s; options := options s; ws := ws s; reconnectAttempts :=
     reconnectAttempts s; reconnectTimer := reconnectTimer s; pingInterval
     := pingInterval s; subscribedLeaderboards := subscribedLeaderboards s;
     handlers := handlers s; isConnecting := isConnecting s;
     shouldReconnect := shouldReconnect s; permanentError := permanentError
     s; isOnline := isOnline s |}.

Definition set_nextTimer (v : nat) (s : t) : t :=
  {| sockets := sockets s; timers := timers s; nextTimer := v; out := out
     s; options := options s; ws := ws s; reconnectAttempts :=
     reconnectAttempts s; reconnectTimer := reconnectTimer s; pingInterval
     := pingInterval s; subscribedLeaderboards := subscribedLeaderboards s;
     handlers := handlers s; isConnecting := isConnecting s;
     shouldReconnect := shouldReconnect s; permanentError := permanentError
     s; isOnline := isOnline s |}.

Definition set_out (v : list Output) (s : t) : t :=
  {| sockets := sockets s; timers := timers s; nextTimer := nextTimer s;
     out := v; options := options s; ws := ws s; reconnectAttempts :=
     reconnectAttempts s; reconnectTimer := reconnectTimer s; pingInterval
     := pingInterval s; subscribedLeaderboards := subscribedLeaderboards s;
     handlers := handlers s; isConnecting := isConnecting s;
     shouldReconnect := shouldReconnect s; permanentError := permanentError
     s; isOnline := isOnline s |}.

Definition set_ws (v : option nat) (s : t) : t :=
  {| sockets := sockets s; timers := timers s; nextTimer := nextTimer s;
     out := out s; options := options s; ws := v; reconnectAttempts :=
     reconnectAttempts s; reconnectTimer := reconnectTimer s; pingInterval
     := pingInterval s; subscribedLeaderboards := subscribedLeaderboards s;
     handlers := handlers s; isConnecting := isConnecting s;
     shouldReconnect := shouldReconnect s; permanentError := permanentError
     s; isOnline := isOnline s |}.

Definition set_reconnectAttempts (v : nat) (s : t) : t :=
  {| sockets := sockets s; timers := timers s; nextTimer := nextTimer s;
     out := out s; options := options s; ws := ws s; reconnectAttempts :=
     v; reconnectTimer := reconnectTimer s; pingInterval := pingInterval s;
     subscribedLeaderboards := subscribedLeaderboards s; handlers :=
     handlers s; isConnecting := isConnecting s; shouldReconnect :=
     shouldReconnect s; permanentError := permanentError s; isOnline :=
     isOnline s |}.

Definition set_reconnectTimer (v : option nat) (s : t) : t :=
  {| sockets := sockets s; timers := timers s; nextTimer := nextTimer s;
     out := out s; options := options s; ws := ws s; reconnectAttempts :=
     reconnectAttempts s; reconnectTimer := v; pingInterval := pingInterval
     s; subscribedLeaderboards := subscribedLeaderboards s; handlers :=
     handlers s; isConnecting := isConnecting s; shouldReconnect :=
     shouldReconnect s; permanentError := permanentError s; isOnline :=
     isOnline s |}.

Definition set_pingInterval (v : option nat) (s : t) : t :=
  {| sockets := sockets s; timers := timers s; nextTimer := nextTimer s;
     out := out s; options := options s; ws := ws s; reconnectAttempts :=
     reconnectAttempts s; reconnectTimer := reconnectTimer s; pingInterval
     := v; subscribedLeaderboards := subscribedLeaderboards s; handlers :=
     handlers s; isConnecting := isConnecting s; shouldReconnect :=
     shouldReconnect s; permanentError := permanentError s; isOnline :=
     isOnline s |}.

Definition set_subscribedLeaderboards (v : list jsstring) (s : t) : t :=
  {| sockets := sockets s; timers := timers s; nextTimer := nextTimer s;
     out := out s; options := options s; ws := ws s; reconnectAttempts :=
     reconnectAttempts s; reconnectTimer := reconnectTimer s; pingInterval
     := pingInterval s; subscribedLeaderboards := v; handlers := handlers
     s; isConnecting := isConnecting s; shouldReconnect := shouldReconnect
     s; permanentError := permanentError s; isOnline := isOnline s |}.

Definition set_handlers (v : WebSocketHandlers) (s : t) : t :=
  {| sockets := sockets s; timers := timers s; nextTimer := nextTimer s;
     out := out s; options := options s; ws := ws s; reconnectAttempts :=
     reconnectAttempts s; reconnectTimer := reconnectTimer s; pingInterval
     := pingInterval s; subscribedLeaderboards := subscribedLeaderboards s;
     handlers := v; isConnecting := isConnecting s; shouldReconnect :=
     shouldReconnect s; permanentError := permanentError s; isOnline :=
     isOnline s |}.

Definition set_isConnecting (v : bool) (s : t) : t :=
  {| sockets := sockets s; timers := timers s; nextTimer := nextTimer s;
     out := out s; options := options s; ws := ws s; reconnectAttempts :=
     reconnectAttempts s; reconnectTimer := reconnectTimer s; pingInterval
     := pingInterval s; subscribedLeaderboards := subscribedLeaderboards s;
     handlers := handlers s; isConnecting := v; shouldReconnect :=
     shouldReconnect s; permanentError := permanentError s; isOnline :=
     isOnline s |}.

Definition set_shouldReconnect (v : bool) (s : t) : t :=
  {| sockets := sockets s; timers := timers s; nextTimer := nextTimer s;
     out := out s; options := options s; ws := ws s; reconnectAttempts :=
     reconnectAttempts s; reconnectTimer := reconnectTimer s; pingInterval
     := pingInterval s; subscribedLeaderboards := subscribedLeaderboards s;
     handlers := handlers s; isConnecting := isConnecting s;
     shouldReconnect := v; permanentError := permanentError s; isOnline :=
     isOnline s |}.

Definition set_permanentError (v : option JsError) (s : t) : t :=
  {| sockets := sockets s; timers := timers s; nextTimer := nextTimer s;
     out := out s; options := options s; ws := ws s; reconnectAttempts :=
     reconnectAttempts s; reconnectTimer := reconnectTimer s; pingInterval
     := pingInterval s; subscribedLeaderboards := subscribedLeaderboards s;
     handlers := handlers s; isConnecting := isConnecting s;
     shouldReconnect := shouldReconnect s; permanentError := v; isOnline :=
     isOnline s |}.

Definition set_isOnline (v : bool) (s : t) : t :=
  {| sockets := sockets s; timers := timers s; nextTimer := nextTimer s;
     out := out s; options := options s; ws := ws s; reconnectAttempts :=
     reconnectAttempts s; reconnectTimer := reconnectTimer s; pingInterval
     := pingInterval s; subscribedLeaderboards := subscribedLeaderboards s;
     handlers := handlers s; isConnecting := isConnecting s;
     shouldReconnect := shouldReconnect s; permanentError := permanentError
     s; isOnline := v |}.

Definition emit (o : Output) (s : t) : t := set_out (out s ++ [o]) s.

(** [this.handlers.h?.(...)] *)
Definition notify (registered : bool) (o : Output) (s : t) : t :=
  if registered then emit o s else s.

Definition readyStateOf (i : nat) (s : t) : option ReadyState :=
  option_map readyState (nth_error (sockets s) i).

(** The socket at index [i] moves to state [r]. *)
Fixpoint update_readyState (i : nat) (r : ReadyState) (l : list Socket)
    : list Socket :=
  match l, i with
  | [], _ => []
  | k :: l', 0 =>
      {| readyState := r; url_leaderboard_id := url_leaderboard_id k;
         url_user_id := url_user_id k |} :: l'
  | k :: l', S i' => k :: update_readyState i' r l'
  end.

Definition set_readyState (i : nat) (r : ReadyState) (s : t) : t :=
  set_sockets (update_readyState i r (sockets s)) s.

(** [this.ws && this.ws.readyState === WebSocket.OPEN] *)
Definition isConnected (s : t) : bool :=
  match ws s with
  | Some i =>
      match readyStateOf i s with
      | Some OPEN => true
      | _ => false
      end
  | None => false
  end.

Definition clearTimer (id : nat) (s : t) : t :=
  set_timers (filter (fun p => negb (fst p =? id)) (timers s)) s.

Definition setTimer (k : Timer) (s : t) : nat * t :=
  (nextTimer s,
   set_nextTimer (S (nextTimer s))
     (set_timers (timers s ++ [(nextTimer s, k)]) s)).

(** [WebSocket.prototype.close]: a socket that is connecting or open
    starts closing; the close event comes later. *)
Definition socket_close (i : nat) (code : option Z) (s : t) : t :=
  let s1 := emit (SocketClose i code) s in
  match readyStateOf i s1 with
  | Some CONNECTING | Some OPEN => set_readyState i CLOSING s1
  | _ => s1
  end.

Definition handleError (e : JsError) (s : t) : t :=
  notify (onError (handlers s)) (OnError e) s.

Definition WS_NOT_CONNECTED : JsError :=
  GLError (js "WebSocket is not connected") (js "WS_NOT_CONNECTED") None.

Definition send (f : Frame) (s : t) : Result unit * t :=
  match ws s with
  | Some i => if isConnected s then (Ok tt, emit (Sent i f) s)
              else (Throw WS_NOT_CONNECTED, s)
  | None => (Throw WS_NOT_CONNECTED, s)
  end.

(** [connect(leaderboardId?, userId?)] *)
Definition connect (leaderboardId userId : option jsstring) (s : t) : t :=
  if isConnected s || isConnecting s then s
  else
    let s1 :=
      set_permanentError None
        (set_shouldReconnect true (set_isConnecting true s)) in
    let s2 :=
      if truthy leaderboardId then
        set_subscribedLeaderboards
          (sadd (or_else leaderboardId []) (subscribedLeaderboards s1)) s1
      else s1 in
    if wsUrlValid (options s2) then
      let i := length (sockets s2) in
      let lb := if truthy leaderboardId then leaderboardId else None in
      let u := if truthy userId then userId else None in
      emit (NewSocket i lb u)
        (set_ws (Some i)
           (set_sockets
              (sockets s2 ++
               [{| readyState := CONNECTING; url_leaderboard_id := lb;
                   url_user_id := u |}])
              s2))
    else
      handleError (PlainError (js "SyntaxError"))
        (set_isConnecting false s2).

Definition stopPingInterval (s : t) : t :=
  match pingInterval s with
  | Some id => set_pingInterval None (clearTimer id s)
  | None => s
  end.

Definition startPingInterval (s : t) : t :=
  let (id, s1) := setTimer PingTick (stopPingInterval s) in
  set_pingInterval (Some id) s1.

Definition cleanup (s : t) : t :=
  let s1 :=
    match reconnectTimer s with
    | Some id => set_reconnectTimer None (clearTimer id s)
    | None => s
    end in
  let s2 := stopPingInterval s1 in
  let s3 :=
    match ws s2 with
    | Some i => set_ws None (socket_close i None s2)
    | None => s2
    end in
  set_isConnecting false s3.

Definition disconnect (s : t) : t := cleanup (set_shouldReconnect false s).

Definition subscribe (leaderboardId : jsstring) (userId : option jsstring)
    (s : t) : Result unit * t :=
  if negb (isConnected s) then (Throw WS_NOT_CONNECTED, s)
  else
    match send (f_subscribe leaderboardId userId) s with
    | (Ok _, s1) =>
        (Ok tt,
         set_subscribedLeaderboards
           (sadd leaderboardId (subscribedLeaderboards s1)) s1)
    | (Throw e, s1) => (Throw e, s1)
    end.

Definition unsubscribe (leaderboardId : jsstring) (s : t) : Result unit * t :=
  if negb (isConnected s) then (Ok tt, s)
  else
    match send (f_unsubscribe leaderboardId) s with
    | (Ok _, s1) =>
        (Ok tt,
         set_subscribedLeaderboards
           (sdelete leaderboardId (subscribedLeaderboards s1)) s1)
    | (Throw e, s1) => (Throw e, s1)
    end.

Definition on (h : WebSocketHandlers) (s : t) : t :=
  let h0 := handlers s in
  set_handlers
    {| onConnect := onConnect h0 || onConnect h;
       onDisconnect := onDisconnect h0 || onDisconnect h;
       onError := onError h0 || onError h;
       onLeaderboardUpdate := onLeaderboardUpdate h0 || onLeaderboardUpdate h;
       onUserRankUpdate := onUserRankUpdate h0 || onUserRankUpdate h;
       onMessage := onMessage h0 || onMessage h;
       onReconnecting := onReconnecting h0 || onReconnecting h |}
    s.

(** The delay of the attempt that is being scheduled; [random] is the
    value of [Math.random()], a double in [0, 1). *)
Definition reconnect_delay (reconnectDelay : option Double.Number)
    (attempts : nat) (random : Q) : Double.Number :=
  let baseDelay :=
    Double.mul (Double.to_number reconnectDelay)
      (Double.Math_pow2 (attempts - 1)) in
  let jitter := Double.mul baseDelay (Double.Finite (1 # 4)) in
  let randomJitter :=
    Double.mul
      (Double.mul
         (Double.sub (Double.Finite random) (Double.Finite (1 # 2)))
         (Double.Finite (inject_Z 2)))
      jitter in
  Double.Math_max (Double.Finite 0) (Double.add baseDelay randomJitter).

Definition WS_MAX_RECONNECT : JsError :=
  GLError (js "Max reconnection attempts reached") (js "WS_MAX_RECONNECT")
    None.

(** [scheduleReconnect]; the delay handed to [setTimeout] is logged with
    the handle of the timer. *)
Definition scheduleReconnect (random : Q) (s : t) : t :=
  if negb (isOnline s) then s
  else if Double.geb (Double.of_nat (reconnectAttempts s))
            (Double.to_number (maxReconnectAttempts (options s))) then
    handleError WS_MAX_RECONNECT s
  else
    let s1 := set_reconnectAttempts (reconnectAttempts s + 1) s in
    let delay :=
      reconnect_delay (reconnectDelay (options s1)) (reconnectAttempts s1)
        random in
    let s2 :=
      notify (onReconnecting (handlers s1))
        (OnReconnecting (reconnectAttempts s1)
           (maxReconnectAttempts (options s1)) (Double.Math_round delay)) s1 in
    let (id, s3) := setTimer ReconnectTimeout s2 in
    set_reconnectTimer (Some id) (emit (SetTimeout id delay) s3).

(** The callback given to [setTimeout] by [scheduleReconnect]. *)
Definition reconnect_callback (random : Q) (s : t) : t :=
  if isOnline s then connect None None s else scheduleReconnect random s.

(** The callback given to [setInterval] by [startPingInterval]. *)
Definition ping_callback (s : t) : t :=
  if isConnected s then snd (send f_ping s) else s.

Definition permanentErrors : list jsstring :=
  [js "LEADERBOARD_NOT_FOUND"; js "INVALID_API_KEY";
   js "INSUFFICIENT_PERMISSIONS"; js "INVALID_LEADERBOARD_ID"].

Definition handleMessage (m : WebSocketMessage) (s : t) : Result unit * t :=
  let s0 := notify (onMessage (handlers s)) (OnMessage m) s in
  match m with
  | leaderboard_update =>
      (Ok tt, notify (onLeaderboardUpdate (handlers s0)) OnLeaderboardUpdate s0)
  | user_rank_update =>
      (Ok tt, notify (onUserRankUpdate (handlers s0)) OnUserRankUpdate s0)
  | error (Some b) =>
      let code := or_else (error_code b) (js "UNKNOWN_ERROR") in
      let e := GLError (error_message b) code None in
      let s1 :=
        if existsb (jseqb code) permanentErrors then
          let s' := set_permanentError (Some e) (set_shouldReconnect false s0) in
          match ws s' with
          | Some i => if isConnected s' then socket_close i (Some 4000%Z) s'
                      else s'
          | None => s'
          end
        else s0 in
      (Ok tt, handleError e s1)
  | error None =>
      (Ok tt,
       handleError
         (GLError (js "Invalid error message format")
            (js "INVALID_MESSAGE_FORMAT") None) s0)
  | ping => send f_pong s0
  | pong | connection_info | update | score_submission | other _ =>
      (Ok tt, s0)
  end.

(** The [forEach] of [onopen] over the subscription set. *)
Fixpoint resubscribe (connectedLeaderboardId : option jsstring)
    (l : list jsstring) (s : t) : Result unit * t :=
  match l with
  | [] => (Ok tt, s)
  | leaderboardId :: l' =>
      let differs :=
        match connectedLeaderboardId with
        | Some c => negb (jseqb leaderboardId c)
        | None => true
        end in
      if differs then
        match subscribe leaderboardId None s with
        | (Ok _, s1) => resubscribe connectedLeaderboardId l' s1
        | (Throw e, s1) => (Throw e, s1)
        end
      else resubscribe connectedLeaderboardId l' s
  end.

Definition onopen (s : t) : Result unit * t :=
  let s1 := set_reconnectAttempts 0 (set_isConnecting false s) in
  let s2 := startPingInterval s1 in
  let s3 := notify (onConnect (handlers s2)) OnConnect s2 in
  let connectedLeaderboardId :=
    match ws s3 with
    | Some i =>
        match nth_error (sockets s3) i with
        | Some k => url_leaderboard_id k
        | None => None
        end
    | None => None
    end in
  resubscribe connectedLeaderboardId (subscribedLeaderboards s3) s3.

Definition onmessage (d : Inbound) (s : t) : t :=
  let failed :=
    handleError (PlainError (js "Failed to parse WebSocket message")) in
  match d with
  | Unparseable => failed s
  | Parsed m =>
      match handleMessage m s with
      | (Ok _, s1) => s1
      | (Throw _, s1) => failed s1
      end
  end.

Definition onerror (s : t) : t :=
  handleError (PlainError (js "WebSocket error")) s.

Definition onclose (code : Z) (reason : jsstring) (random : Q) (s : t) : t :=
  let s1 := stopPingInterval (set_isConnecting false s) in
  let s2 := notify (onDisconnect (handlers s1)) (OnDisconnect code reason) s1 in
  if shouldReconnect s2 then scheduleReconnect random s2 else s2.

Definition handleOnline (s : t) : t :=
  let s1 := set_isOnline true s in
  match permanentError s1 with
  | Some _ => s1
  | None =>
      if negb (isConnected s1) && negb (isConnecting s1) && shouldReconnect s1
      then connect None None s1
      else s1
  end.

Definition handleOffline (s : t) : t :=
  let s1 := set_isOnline false s in
  match reconnectTimer s1 with
  | Some id => set_reconnectTimer None (clearTimer id s1)
  | None => s1
  end.

Definition WS_OFFLINE : JsError :=
  GLError (js "Cannot reconnect while offline") (js "WS_OFFLINE") None.

Definition reconnect (s : t) : Result unit * t :=
  if isConnected s || isConnecting s then (Ok tt, s)
  else
    match permanentError s with
    | Some e => (Throw e, s)
    | None =>
        let s1 := set_shouldReconnect true (set_reconnectAttempts 0 s) in
        if negb (isOnline s1) then (Throw WS_OFFLINE, s1)
        else (Ok tt, connect None None s1)
    end.

(** A client as its constructor leaves it, with [o] for [this.options]
    after the spread and [online] for [navigator.onLine]. *)
Definition new (o : Options) (online : bool) : t :=
  {| sockets := []; timers := []; nextTimer := 1; out := []; options := o;
     ws := None; reconnectAttempts := 0; reconnectTimer := None;
     pingInterval := None; subscribedLeaderboards := [];
     handlers :=
       {| onConnect := false; onDisconnect := false; onError := false;
          onLeaderboardUpdate := false; onUserRankUpdate := false;
          onMessage := false; onReconnecting := false |};
     isConnecting := false; shouldReconnect := true;
     permanentError := None; isOnline := online |}.

(** The options of a client constructed without an [options] argument,
    for a URL that is valid. *)
Definition defaults : Options :=
  {| maxReconnectAttempts := Some (Double.Finite (inject_Z 5));
     reconnectDelay := Some (Double.Finite (inject_Z 1000));
     wsUrlValid := true |}.

(** [new LeaderboardWebSocket(wsUrl, apiKey, options)]: the defaults with
    the given properties spread over them. *)
Definition construct (given : GivenOptions) (urlValid online : bool) : t :=
  new (spread given urlValid) online.

(** What can happen to a client: a call of its public interface, an
    event of one of its sockets, a timer that fires, a change of the
    network.  [random] is what [Math.random()] would return. *)
Inductive Action : Type :=
| Connect (leaderboardId userId : option jsstring)
| Disconnect
| Subscribe (leaderboardId : jsstring) (userId : option jsstring)
| Unsubscribe (leaderboardId : jsstring)
| Reconnect
| On (h : WebSocketHandlers)
| SockOpen (sock : nat)
| SockMessage (sock : nat) (d : Inbound)
| SockError (sock : nat)
| SockClose (sock : nat) (code : Z) (reason : jsstring) (random : Q)
| TimerFire (id : nat) (random : Q)
| NetOnline
| NetOffline.

(** One turn of the event loop.  The browser delivers [open] only to a
    socket that is connecting, a message only to one that is open or
    closing, [close] once, and fires only pending timers; a timeout is
    spent when it fires, an interval stays. *)
Definition step (a : Action) (s : t) : t :=
  match a with
  | Connect l u => connect l u s
  | Disconnect => disconnect s
  | Subscribe l u => snd (subscribe l u s)
  | Unsubscribe l => snd (unsubscribe l s)
  | Reconnect => snd (reconnect s)
  | On h => on h s
  | SockOpen i =>
      match readyStateOf i s with
      | Some CONNECTING => snd (onopen (set_readyState i OPEN s))
      | _ => s
      end
  | SockMessage i d =>
      match readyStateOf i s with
      | Some OPEN | Some CLOSING => onmessage d s
      | _ => s
      end
  | SockError i =>
      match readyStateOf i s with
      | Some CONNECTING | Some OPEN | Some CLOSING => onerror s
      | _ => s
      end
  | SockClose i code reason random =>
      match readyStateOf i s with
      | Some CONNECTING | Some OPEN | Some CLOSING =>
          onclose code reason random (set_readyState i CLOSED s)
      | _ => s
      end
  | TimerFire id random =>
      match find (fun p => fst p =? id) (timers s) with
      | Some (_, ReconnectTimeout) =>
          reconnect_callback random (clearTimer id s)
      | Some (_, PingTick) => ping_callback s
      | None => s
      end
  | NetOnline => handleOnline s
  | NetOffline => handleOffline s
  end.

Definition run (l : list Action) (s : t) : t :=
  fold_left (fun s a => step a s) l s.

(** Connection attempts recorded in a log. *)
Definition attempts (l : list Output) : list Output :=
  filter (fun o => match o with NewSocket _ _ _ => true | _ => false end) l.

Definition pendingReconnects (s : t) : list (nat * Timer) :=
  filter
    (fun p => match snd p with ReconnectTimeout => true | PingTick => false end)
    (timers s).

Definition pendingPings (s : t) : list (nat * Timer) :=
  filter
    (fun p => match snd p with PingTick => true | ReconnectTimeout => false end)
    (timers s).

End LeaderboardWebSocket.

(** ** Notions used by the statements *)

(** [a] is a sub-multiset of [b]. *)
Definition subperm {A : Type} (a b : list A) : Prop :=
  exists c, Permutation (a ++ c) b.

(** The values of a map, in the order of its entries. *)
Definition vals {V : Type} (m : JsMap (list V)) : list V := concat (map snd m).

(** What the first loop of [batchOperations] accepts: a [submit] with a
    truthy leaderboard id, or a [submitBulk]. *)
Definition batchable (op : QueuedOperation) : bool :=
  Method.eqb (method op) Method.submit && truthy (leaderboardId (params op))
  || Method.eqb (method op) Method.submitBulk.

(** Not yet expired at time [now]: the test of [cleanExpiredItems]. *)
Definition fresh (now : Z) (op : QueuedOperation) : bool :=
  (now - timestamp op <? OfflineQueue.QUEUE_TTL_MS)%Z.

(** The [queue:failed] events of a log, as pairs of the operation and the
    [permanent] flag of the payload. *)
Fixpoint failed_events (l : list Effect) : list (QueuedOperation * bool) :=
  match l with
  | [] => []
  | Emit (queue_failed op permanent) :: l' => (op, permanent) :: failed_events l'
  | _ :: l' => failed_events l'
  end.

(** The test of the filters of [removeProcessed] and [markFailed]: the id
    of [o] is not among [X]. *)
Definition keep (X : list jsstring) (o : QueuedOperation) : bool :=
  negb (existsb (jseqb (queueId o)) X).

(** Between [s] and [s'] the queue lost only operations whose id is in
    [ids], and only such operations were reported as failed. *)
Definition touches_only (ids : list jsstring) (s s' : OfflineQueue.t) : Prop :=
  (exists X, incl X ids /\
     OfflineQueue.queue s' = filter (keep X) (OfflineQueue.queue s)) /\
  (exists new,
     OfflineQueue.effects s' = OfflineQueue.effects s ++ new /\
     forall o p, In (o, p) (failed_events new) -> In (queueId o) ids).




(** The [for] loop of the [catch] clause: every operation of the batch is
    marked as permanently failed. *)
Definition markFailed_all (ops : list QueuedOperation) (s : OfflineQueue.t)
    : OfflineQueue.t :=
  fold_left (fun q op => OfflineQueue.markFailed (queueId op) true q) ops s.

(** The contiguous sub-batches of [ops] from index [i] on, under the keys
    [key_i], [key_(i+100)], ...: what the specification says a group that
    is too large is split into. *)
Fixpoint chunks_from (fuel : nat) (key : jsstring)
    (ops : list QueuedOperation) (i : nat) : JsMap (list QueuedOperation) :=
  match fuel with
  | 0 => []
  | S fuel' =>
      if i <? length ops then
        (key ++ js "_" ++ dec i,
         slice i (i + OfflineQueue.MAX_BATCH_SIZE) ops)
        :: chunks_from fuel' key ops (i + OfflineQueue.MAX_BATCH_SIZE)
      else []
  end.

(** Concrete queues for the examples. *)
Module Samples.
Import OfflineQueue.

Definition sample_params : Params :=
  {| userId := Some (js "u1"); score := Some (inject_Z 100);
     leaderboardId := Some (js "L"); userName := Some (js "u1");
     metadata := None; scores := None |}.

Definition sample_op (id : jsstring) (l : option jsstring) (ts : Z)
    : QueuedOperation :=
  {| queueId := id; method := Method.submit;
     params :=
       {| userId := Some (js "u1"); score := Some (inject_Z 100);
          leaderboardId := l; userName := Some (js "u1");
          metadata := None; scores := None |};
     timestamp := ts; retryCount := 0 |}.

Definition empty : t := {| queue := []; processing := false; effects := [] |}.
Definition full : t :=
  {| queue := repeat (sample_op (js "id") (Some (js "L")) 0) 1000;
     processing := false; effects := [] |}.

Definition opA : QueuedOperation := sample_op (js "a") (Some (js "L")) 0.
Definition opB : QueuedOperation := sample_op (js "b") (Some (js "L")) 0.
Definition opC : QueuedOperation := sample_op (js "c") (Some (js "M")) 0.

(** A client that is online again with three queued submissions, two for
    leaderboard [L] and one for [M]. *)
Definition client3 : GlobalLeaderboards.t :=
  {| GlobalLeaderboards.defaultLeaderboardId := None;
     GlobalLeaderboards.isOnline := true;
     GlobalLeaderboards.offlineQueue :=
       {| queue := [opA; opB; opC]; processing := false; effects := [] |};
     GlobalLeaderboards.calls := [] |}.



(** A queued [submit] without a leaderboard id, next to a regular one. *)
Definition opNoBoard : QueuedOperation := sample_op (js "n") None 0.

Definition client2 : GlobalLeaderboards.t :=
  {| GlobalLeaderboards.defaultLeaderboardId := None;
     GlobalLeaderboards.isOnline := true;
     GlobalLeaderboards.offlineQueue :=
       {| queue := [opNoBoard; opA]; processing := false; effects := [] |};
     GlobalLeaderboards.calls := [] |}.

(** A client that is online with an empty queue and no default
    leaderboard. *)
Definition client0 : GlobalLeaderboards.t :=
  {| GlobalLeaderboards.defaultLeaderboardId := None;
     GlobalLeaderboards.isOnline := true;
     GlobalLeaderboards.offlineQueue := empty;
     GlobalLeaderboards.calls := [] |}.

(** Fifty-one times the letter [a]. *)
Definition name51 : jsstring := repeat 97%N 51.

(** 101 submissions for leaderboard [L], followed by one for a
    leaderboard whose id is [L_0]. *)
Definition ops101 : list QueuedOperation :=
  map (fun n => sample_op (js "q" ++ dec n) (Some (js "L")) 0) (seq 0 101).

Definition opL0 : QueuedOperation := sample_op (js "z") (Some (js "L_0")) 0.

Definition colliding : t :=
  {| queue := ops101 ++ [opL0]; processing := false; effects := [] |}.

End Samples.

(** The two fields that the invariant of permanent errors relates. *)
Definition flags (s : LeaderboardWebSocket.t) : option JsError * bool :=
  (LeaderboardWebSocket.permanentError s,
   LeaderboardWebSocket.shouldReconnect s).

(** A stored permanent error goes with reconnection switched off. *)
Definition permanent_stops_reconnect (s : LeaderboardWebSocket.t) : Prop :=
  LeaderboardWebSocket.permanentError s <> None ->
  LeaderboardWebSocket.shouldReconnect s = false.

(** Every pending timer is one whose handle the client still holds. *)
Definition tracked (s : LeaderboardWebSocket.t) : Prop :=
  forall id k,
    In (id, k) (LeaderboardWebSocket.timers s) ->
    LeaderboardWebSocket.reconnectTimer s = Some id \/
    LeaderboardWebSocket.pingInterval s = Some id.

(** A timer that fires or a socket that closes: what can still happen to
    a client that the application has left alone. *)
Definition passive (a : LeaderboardWebSocket.Action) : bool :=
  match a with
  | LeaderboardWebSocket.TimerFire _ _
  | LeaderboardWebSocket.SockClose _ _ _ _ => true
  | _ => false
  end.

(** Concrete clients for the examples. *)
Module WsSamples.
Import LeaderboardWebSocket.

(** A client that connected with leaderboard [L], went offline and lost
    its socket: [L] is subscribed and nothing is connected. *)
Definition dropped : t :=
  run [Connect (Some (js "L")) None; SockOpen 0; NetOffline;
       SockClose 0 1006 [] (1 # 2)]
    (new defaults true).

(** The first connection fails and a reconnect is scheduled; the
    application calls [connect()] itself before that timer fires; this
    connection fails too and a second reconnect is scheduled; then the
    application calls [disconnect()]. *)
Definition torn_down : t :=
  run [Connect None None; SockClose 0 1006 [] (1 # 2);
       Connect None None; SockClose 1 1006 [] (1 # 2);
       Disconnect]
    (new defaults true).

(** The double [0.0029999999999999983]. *)
Definition random_near_0 : Q := 3458764513820539 # 1152921504606846976.

(** A client that lost its socket while online, with the observer of
    reconnections registered and [attempts] reconnections behind it. *)
Definition retrying (attempts : nat) : t :=
  set_reconnectAttempts attempts
    (on {| onConnect := false; onDisconnect := false; onError := false;
           onLeaderboardUpdate := false; onUserRankUpdate := false;
           onMessage := false; onReconnecting := true |}
       (new defaults true)).

End WsSamples.

(** * More of the code *)

(** ** The offline queue as its callers drive it *)

Module QueueOps.
Import OfflineQueue.

(** [loadQueue]: the stored array replaces the queue and is cleaned; when
    the adapter fails the queue is empty. *)
Definition loadQueue (stored : option (list QueuedOperation)) (now : Z)
    (s : t) : t :=
  match stored with
  | Some q => cleanExpiredItems now (set_queue q s)
  | None => set_queue [] s
  end.

(** A call of one of the public methods that change the queue. *)
Inductive Call : Type :=
| c_enqueue (ulid : jsstring) (now : Z) (m : Method.t) (p : Params)
| c_removeProcessed (queueIds : list jsstring)
| c_markFailed (queueId : jsstring) (permanent : bool)
| c_batchOperations (now : Z)
| c_clear.

Definition call (c : Call) (s : t) : t :=
  match c with
  | c_enqueue ulid now m p => snd (enqueue ulid now m p s)
  | c_removeProcessed ids => removeProcessed ids s
  | c_markFailed id permanent => markFailed id permanent s
  | c_batchOperations now => snd (batchOperations now s)
  | c_clear => clear s
  end.

Definition calls (l : list Call) (s : t) : t :=
  fold_left (fun s c => call c s) l s.

(** Every [enqueue] of the sequence gets from [ulid()] an id that no
    queued operation has at that moment. *)
Fixpoint ids_fresh (l : list Call) (s : t) : Prop :=
  match l with
  | [] => True
  | c :: l' =>
      match c with
      | c_enqueue ulid _ _ _ => ~ In ulid (map queueId (queue s))
      | _ => True
      end /\ ids_fresh l' (call c s)
  end.

(** What the storage adapter holds after the effects of a log, when it
    accepted each of them. *)
Fixpoint stored_after (init : list QueuedOperation) (l : list Effect)
    : list QueuedOperation :=
  match l with
  | [] => init
  | Persist q :: l' => stored_after q l'
  | StorageClear :: l' => stored_after [] l'
  | Emit _ :: l' => stored_after init l'
  end.

(** The operation with one more retry counted. *)
Definition retried (o : QueuedOperation) : QueuedOperation :=
  {| queueId := queueId o; method := method o; params := params o;
     timestamp := timestamp o; retryCount := retryCount o + 1 |}.

(** [hashApiKey]: [ToInt32], one round of the loop, and the loop. *)
Definition ToInt32 (z : Z) : Z := ((z + 2 ^ 31) mod 2 ^ 32 - 2 ^ 31)%Z.

Definition hash_round (hash : Z) (char : N) : Z :=
  let shifted := ToInt32 (hash * 2 ^ 5) in
  ToInt32 (shifted - hash + Z.of_N char).

Definition hash_loop (apiKey : jsstring) : Z := fold_left hash_round apiKey 0%Z.

(** A digit of [Number.prototype.toString(36)]. *)
Definition digit36 (d : Z) : N :=
  if (d <? 10)%Z then Z.to_N (48 + d) else Z.to_N (97 + (d - 10)).

(** [n.toString(36)] for an integer [n >= 0]; the fuel bounds the number
    of digits. *)
Fixpoint toString36 (fuel : nat) (n : Z) (acc : jsstring) : jsstring :=
  match fuel with
  | 0 => acc
  | S fuel' =>
      if (n <? 36)%Z then digit36 n :: acc
      else toString36 fuel' (n / 36)%Z (digit36 (n mod 36)%Z :: acc)
  end.

Definition hashApiKey (apiKey : jsstring) : jsstring :=
  toString36 7 (Z.abs (hash_loop apiKey)) [].

Definition storageKey (apiKey : jsstring) : jsstring :=
  js "gl_queue_" ++ hashApiKey apiKey.

(** The polynomial that the loop of [hashApiKey] evaluates, without
    wrap-around. *)
Definition poly31 (apiKey : jsstring) : Z :=
  fold_left (fun h c => (31 * h + Z.of_N c)%Z) apiKey 0%Z.

(** The value of a digit of base 36, and of a string of them. *)
Definition value36 (c : N) : Z :=
  if (c <? 58)%N then Z.of_N c - 48 else Z.of_N c - 87.

Definition parse36 (s : jsstring) : Z :=
  fold_left (fun n c => (36 * n + value36 c)%Z) s 0%Z.

Definition isDigit36 (c : N) : bool :=
  ((48 <=? c) && (c <=? 57) || (97 <=? c) && (c <=? 122))%N.

(** The queue of the sample client with three operations. *)
Definition queue3 : t := GlobalLeaderboards.offlineQueue Samples.client3.

End QueueOps.

(** ** More of the facade *)

Module FacadeOps.
Import GlobalLeaderboards.

(** [FlexibleScoreSubmission]: an array [[userId, score]] or
    [[userId, score, leaderboardId]], or an object. *)
Inductive FlexibleScoreSubmission : Type :=
| s_array (userId : jsstring) (score : Q) (leaderboardId : option jsstring)
| s_object (userId : jsstring) (score : Q)
    (leaderboardId userName metadata : option jsstring).

Definition MISSING_LEADERBOARD_ID_BULK : JsError :=
  GLError (js "Leaderboard ID is required for bulk submission")
    (js "MISSING_LEADERBOARD_ID") None.

Definition OFFLINE_BULK_NOT_SUPPORTED : JsError :=
  GLError
    (js "Bulk submissions cannot be queued offline. Please retry when online.")
    (js "OFFLINE_BULK_NOT_SUPPORTED") None.

(** The callback of [submissions.map] in [submitBulk]. *)
Definition convert (defaultId : option jsstring)
    (submission : FlexibleScoreSubmission)
    : Result Wire.SubmitScoreRequest :=
  match submission with
  | s_array userId score leaderboardId =>
      let finalLeaderboardId := or_opt leaderboardId defaultId in
      if negb (truthy finalLeaderboardId) then Throw MISSING_LEADERBOARD_ID_BULK
      else
        Ok {| Wire.leaderboard_id := finalLeaderboardId;
              Wire.user_id := Some userId;
              Wire.user_name := Some userId;
              Wire.score := Some score;
              Wire.metadata := None |}
  | s_object userId score leaderboardId userName metadata =>
      let finalLeaderboardId := or_opt leaderboardId defaultId in
      if negb (truthy finalLeaderboardId) then Throw MISSING_LEADERBOARD_ID_BULK
      else
        Ok {| Wire.leaderboard_id := finalLeaderboardId;
              Wire.user_id := Some userId;
              Wire.user_name := Some (or_else userName userId);
              Wire.score := Some score;
              Wire.metadata := metadata |}
  end.

(** [submissions.map(...)]: the first submission that throws ends it. *)
Fixpoint convert_all (defaultId : option jsstring)
    (submissions : list FlexibleScoreSubmission)
    : Result (list Wire.SubmitScoreRequest) :=
  match submissions with
  | [] => Ok []
  | x :: rest =>
      match convert defaultId x with
      | Throw e => Throw e
      | Ok r =>
          match convert_all defaultId rest with
          | Throw e => Throw e
          | Ok rs => Ok (r :: rs)
          end
      end
  end.

Inductive BulkSubmitted : Type :=
| BulkRejected (e : JsError)
| BulkDirect (scores : list Wire.SubmitScoreRequest).

Definition submitBulk (submissions : list FlexibleScoreSubmission) (g : t)
    : BulkSubmitted * t :=
  match convert_all (defaultLeaderboardId g) submissions with
  | Throw e => (BulkRejected e, g)
  | Ok scores =>
      if negb (isOnline g) || OfflineQueue.hasItems (offlineQueue g) then
        (BulkRejected OFFLINE_BULK_NOT_SUPPORTED, g)
      else (BulkDirect scores, call BULK_PATH scores g)
  end.

(** The listeners of [setupNetworkDetection]. *)
Definition on_online (respond : jsstring -> Outcome) (now : Z) (g : t) : t :=
  processOfflineQueue respond now (set_isOnline true g).

Definition on_offline (g : t) : t := set_isOnline false g.



(** The user id of a submission. *)
Definition userId_of (x : FlexibleScoreSubmission) : jsstring :=
  match x with
  | s_array u _ _ => u
  | s_object u _ _ _ _ => u
  end.

End FacadeOps.

(** ** [request]: the authenticated call with its retries *)

Module Request.

(** The [error] object of the body of a response that is not ok. *)
Record ErrorData : Type := {
  message : option jsstring;
  code : option jsstring
}.

(** What one [fetch], followed by reading the body, comes to. *)
Inductive Fetched : Type :=
| ok_json
    (* the response is ok and its body parses *)
| ok_unparseable (why : jsstring)
    (* the response is ok and [response.json()] rejects with an Error *)
| not_ok (status : Z) (errorData : ErrorData)
    (* the response is not ok and its body has an [error] object *)
| not_ok_unparseable (status : Z) (why : jsstring)
    (* the response is not ok and reading [errorData.error] throws *)
| aborted
    (* [fetch] rejects with an AbortError, as the timeout makes it *)
| failed (why : jsstring)
    (* [fetch] rejects with another Error *)
| failed_other.
    (* [fetch] rejects with a value that is no Error *)

(** What the [catch] clause receives. *)
Inductive Caught : Type :=
| c_gl (message code : jsstring) (statusCode : Z)
| c_abort
| c_error (message : jsstring)
| c_other.

(** The [try] block: [None] when it returns. *)
Definition attempt (f : Fetched) : option Caught :=
  match f with
  | ok_json => None
  | ok_unparseable why => Some (c_error why)
  | not_ok status d =>
      Some (c_gl (or_else (message d) (js "HTTP " ++ dec (Z.to_nat status)))
              (or_else (code d) (js "HTTP_ERROR")) status)
  | not_ok_unparseable _ why => Some (c_error why)
  | aborted => Some c_abort
  | failed why => Some (c_error why)
  | failed_other => Some c_other
  end.

Definition shouldRetry (c : Caught) : bool :=
  match c with
  | c_gl _ code statusCode =>
      (negb (statusCode =? 0) && (500 <=? statusCode)
       || (statusCode =? 429) || (statusCode =? 408))%Z
      || jseqb code (js "TIMEOUT") || jseqb code (js "REQUEST_ERROR")
  | _ => false
  end.

(** The error that [request] throws for what it caught. *)
Definition rethrow (c : Caught) : JsError :=
  match c with
  | c_gl message code statusCode => GLError message code (Some statusCode)
  | c_abort => GLError (js "Request timeout") (js "TIMEOUT") None
  | c_error message => GLError message (js "REQUEST_ERROR") None
  | c_other => GLError (js "Unknown error occurred") (js "UNKNOWN_ERROR") None
  end.

(** [Math.min(1000 * Math.pow(2, retryCount), 10000)] *)
Definition delay_of (retryCount : nat) : Z :=
  Z.min (1000 * 2 ^ Z.of_nat retryCount) 10000.

(** [request(method, path, body, retryCount)]: its result and the delays
    it waited, in order.  [fetch k] is what the fetch of the call with
    [retryCount = k] comes to.  The recursion of the source ends because
    [retryCount] grows up to [maxRetries]; here it is on [fuel]. *)
Fixpoint request_from (fuel : nat) (autoRetry : bool) (maxRetries : nat)
    (fetch : nat -> Fetched) (retryCount : nat) : Result unit * list Z :=
  match attempt (fetch retryCount) with
  | None => (Ok tt, [])
  | Some c =>
      if autoRetry && (retryCount <? maxRetries) && shouldRetry c then
        match fuel with
        | S fuel' =>
            let (r, waited) :=
              request_from fuel' autoRetry maxRetries fetch (S retryCount) in
            (r, delay_of retryCount :: waited)
        | 0 => (Throw (rethrow c), [])
        end
      else (Throw (rethrow c), [])
  end.

Definition request (autoRetry : bool) (maxRetries : nat)
    (fetch : nat -> Fetched) : Result unit * list Z :=
  request_from maxRetries autoRetry maxRetries fetch 0.

(** A server that answers 503 [n] times and then accepts. *)
Definition flaky (n : nat) (k : nat) : Fetched :=
  if k <? n then not_ok 503 {| message := None; code := None |} else ok_json.

(** A server that always answers with the given status. *)
Definition always (status : Z) (_ : nat) : Fetched :=
  not_ok status {| message := Some (js "no"); code := None |}.

End Request.

(** ** Notions for the runs of the WebSocket client *)

Module WsOps.
Import LeaderboardWebSocket.

(** The fields that only the timer, reconnection and network code
    writes. *)
Definition core (s : t)
    : list (nat * Timer) * nat * option nat * option nat * nat * Options
      * bool :=
  (timers s, nextTimer s, pingInterval s, reconnectTimer s,
   reconnectAttempts s, options s, isOnline s).

(** The timers and the handles the client holds. *)
Definition timer_fields (s : t)
    : list (nat * Timer) * nat * option nat * option nat :=
  (timers s, nextTimer s, pingInterval s, reconnectTimer s).

(** The attempt counter and the configuration. *)
Definition budget (s : t) : nat * Options := (reconnectAttempts s, options s).

(** The subscriptions, the current socket handle, the connecting flag and
    the registered handlers. *)
Definition wiring (s : t)
    : list jsstring * option nat * bool * WebSocketHandlers :=
  (subscribedLeaderboards s, ws s, isConnecting s, handlers s).

(** The heartbeat interval whose handle the client holds. *)
Definition heartbeat_of (s : t) : list (nat * Timer) :=
  match pingInterval s with
  | Some id => [(id, PingTick)]
  | None => []
  end.

(** What the timer functions of the host guarantee, and what the client
    keeps about its heartbeat: handles are never reused, the pending
    heartbeat is the one the client holds, and the reconnect handle it
    holds is no heartbeat. *)
Definition timers_wf (s : t) : Prop :=
  NoDup (map fst (timers s)) /\
  (forall p, In p (timers s) -> fst p < nextTimer s) /\
  pendingPings s = heartbeat_of s /\
  (forall id, reconnectTimer s = Some id ->
     id < nextTimer s /\ ~ In (id, PingTick) (timers s)).

(** The attempt counter is at most [m]. *)
Definition bounded (m : nat) (s : t) : Prop := reconnectAttempts s <= m.

(** The attempt numbers and maxima given to [onReconnecting]. *)
Fixpoint announced (l : list Output) : list (nat * option Double.Number) :=
  match l with
  | [] => []
  | OnReconnecting attempt max _ :: l' => (attempt, max) :: announced l'
  | _ :: l' => announced l'
  end.

(** Log entries other than the creation of a socket. *)
Definition no_socket (o : Output) : bool :=
  match o with
  | NewSocket _ _ _ => false
  | _ => true
  end.

(** Log entries other than the announcement of a reconnection. *)
Definition no_announce (o : Output) : bool :=
  match o with
  | OnReconnecting _ _ _ => false
  | _ => true
  end.

Definition quiet (o : Output) : bool := no_socket o && no_announce o.

(** From [s] to [s'] the log got only entries that [P] accepts. *)
Definition grows (P : Output -> bool) (s s' : t) : Prop :=
  exists new, out s' = out s ++ new /\ forallb P new = true.

(** An announcement of a reconnection that is in order for the limit
    [m]: the attempt number is between 1 and [m], and the maximum given
    is [m]. *)
Definition announced_ok (m : nat) (am : nat * option Double.Number) : Prop :=
  1 <= fst am <= m /\ snd am = Some (Double.of_nat m).

(** The configuration is [o], the counter is at most [m] and all
    announcements so far were in order. *)
Definition within (o : Options) (m : nat) (s : t) : Prop :=
  options s = o /\ bounded m s /\
  Forall (announced_ok m) (announced (out s)).

(** Everything but a call of [connect()] and the network coming back. *)
Definition keeps_offline (a : Action) : bool :=
  match a with
  | Connect _ _ | NetOnline => false
  | _ => true
  end.

(** What [notify] appends to the log. *)
Definition surfaced (registered : bool) (o : Output) : list Output :=
  if registered then [o] else [].

(** The [leaderboard_id] parameter of the URL of the current socket. *)
Definition connectedLeaderboardId (s : t) : option jsstring :=
  match ws s with
  | Some i =>
      match nth_error (sockets s) i with
      | Some k => url_leaderboard_id k
      | None => None
      end
  | None => None
  end.

(** The subscriptions that [onopen] sends again: all but the one of the
    URL. *)
Definition to_resubscribe (c : option jsstring) (l : list jsstring)
    : list jsstring :=
  filter (fun x => match c with
                   | Some c0 => negb (jseqb x c0)
                   | None => true
                   end) l.

(** Whether an inbound message is an error with one of the permanent
    codes. *)
Definition is_permanent (d : Inbound) : bool :=
  match d with
  | Parsed (error (Some b)) =>
      existsb (jseqb (or_else (error_code b) (js "UNKNOWN_ERROR")))
        permanentErrors
  | _ => false
  end.

(** A client with two subscriptions whose socket is open. *)
Definition live : t :=
  run [Connect (Some (js "L")) None; SockOpen 0; Subscribe (js "M") None]
    (new defaults true).

(** The same client after its socket dropped and a new one was created by
    the reconnect timer, not yet open. *)
Definition reconnecting : t :=
  run [SockClose 0 1006 [] (1 # 2); TimerFire 2 0] live.

End WsOps.

(** A queue of 101 submissions for leaderboard [L]. *)
Definition queue101 : OfflineQueue.t :=
  {| OfflineQueue.queue := Samples.ops101;
     OfflineQueue.processing := false;
     OfflineQueue.effects := [] |}.

(** * Calls that are suspended at an [await] *)

(** The definitions above run a call of [enqueue], and with it a queued
    [submit], to completion.  Here the two halves of [enqueue] and the
    load that the constructor starts and does not wait for are separate
    steps, with the continuations waiting in a queue of jobs that run in
    the order in which they were queued. *)

(** ** The offline queue from its constructor on *)

Module Lifecycle.
Import OfflineQueue.

(** A continuation that is waiting: the rest of [loadQueue] after
    [await this.storage.get(...)], with what the adapter resolves with
    ([None] when it rejects), or the rest of [enqueue] after
    [await this.persistQueue()]. *)
Inductive Job : Type :=
| loadQueue_resume (stored : option (list QueuedOperation))
| enqueue_resume (queuedOp : QueuedOperation).

Record t : Type := {
  instance : OfflineQueue.t;
  jobs : list Job;
  (* what the promises of [enqueue] were resolved with, in order *)
  resolved : list QueuedSubmitResponse.t
}.

Definition set_instance (s : OfflineQueue.t) (i : t) : t :=
  {| instance := s; jobs := jobs i; resolved := resolved i |}.

Definition set_jobs (l : list Job) (i : t) : t :=
  {| instance := instance i; jobs := l; resolved := resolved i |}.

(** [new OfflineQueue(apiKey)] over a storage that holds [stored]: the
    queue is the empty array of the field initialiser, and [loadQueue()],
    which the constructor calls and does not await, is suspended with the
    stored array read. *)
Definition construct (stored : option (list QueuedOperation)) : t :=
  {| instance := {| queue := []; processing := false; effects := [] |};
     jobs := [loadQueue_resume stored];
     resolved := [] |}.

(** [enqueue] up to its [await]: the capacity check, the push and the
    call of [persistQueue], which hands the array to the adapter. *)
Definition enqueue_start (ulid : jsstring) (now : Z) (m : Method.t)
    (p : Params) (i : t) : Result unit * t :=
  let s := instance i in
  let queuedOp :=
    {| queueId := ulid; method := m; params := p;
       timestamp := now; retryCount := 0 |} in
  if MAX_QUEUE_SIZE <=? length (queue s) then
    (Throw (PlainError (js "Queue is full (max 1000 items)")), i)
  else
    let s1 := set_queue (queue s ++ [queuedOp]) s in
    let s2 := persistQueue s1 in
    (Ok tt,
     {| instance := s2;
        jobs := jobs i ++ [enqueue_resume queuedOp];
        resolved := resolved i |}).

(** A continuation runs: [loadQueue] assigns what was read and cleans
    it; [enqueue] emits [queue:added] and resolves with the length that
    the queue has then.  The event carries the operation as it was
    enqueued; a [markFailed] between the two parts of [enqueue] raises the
    retry count of that same object, which the payload here does not
    show. *)
Definition resume (now : Z) (j : Job) (i : t) : t :=
  match j with
  | loadQueue_resume stored =>
      set_instance (QueueOps.loadQueue stored now (instance i)) i
  | enqueue_resume queuedOp =>
      let s3 := emit (queue_added queuedOp) (instance i) in
      {| instance := s3;
         jobs := jobs i;
         resolved :=
           resolved i ++
           [{| QueuedSubmitResponse.queued := true;
               QueuedSubmitResponse.queueId := queueId queuedOp;
               QueuedSubmitResponse.queuePosition := length (queue s3);
               QueuedSubmitResponse.operation := js "insert";
               QueuedSubmitResponse.rank := (-1)%Z |}] |}
  end.

(** The job that has waited longest runs; [now] is the clock then. *)
Definition tick (now : Z) (i : t) : t :=
  match jobs i with
  | [] => i
  | j :: rest => resume now j (set_jobs rest i)
  end.

(** The start of a call.  Only [enqueue] has code after its [await]; the
    other methods are done when they reach theirs. *)
Definition start (c : QueueOps.Call) (i : t) : t :=
  match c with
  | QueueOps.c_enqueue ulid now m p => snd (enqueue_start ulid now m p i)
  | _ => set_instance (QueueOps.call c (instance i)) i
  end.

Inductive Action : Type :=
| Start (c : QueueOps.Call)
| Tick (now : Z).

Definition step (a : Action) (i : t) : t :=
  match a with
  | Start c => start c i
  | Tick now => tick now i
  end.

Definition run (l : list Action) (i : t) : t :=
  fold_left (fun i a => step a i) l i.

(** Whether the load of the constructor is still waiting. *)
Definition load_pending (i : t) : bool :=
  existsb (fun j => match j with
                    | loadQueue_resume _ => true
                    | enqueue_resume _ => false
                    end) (jobs i).

(** The operation that the examples enqueue. *)
Definition sample : QueuedOperation :=
  {| queueId := js "01A"; method := Method.submit;
     params := Samples.sample_params; timestamp := 7; retryCount := 0 |}.

(** An instance over an empty storage whose load has settled. *)
Definition settled : t := tick 1 (construct (Some [])).

End Lifecycle.

(** ** The facade with what is pending in its queue *)

Module Client.
Import OfflineQueue GlobalLeaderboards.

Record t : Type := {
  facade : GlobalLeaderboards.t;
  jobs : list Lifecycle.Job;
  resolved : list QueuedSubmitResponse.t
}.

Definition queue_of (c : t) : Lifecycle.t :=
  {| Lifecycle.instance := offlineQueue (facade c);
     Lifecycle.jobs := jobs c;
     Lifecycle.resolved := resolved c |}.

Definition with_queue (i : Lifecycle.t) (c : t) : t :=
  {| facade := set_offlineQueue (Lifecycle.instance i) (facade c);
     jobs := Lifecycle.jobs i;
     resolved := Lifecycle.resolved i |}.

(** A step of the facade that does not wait for the queue. *)
Definition lift (f : GlobalLeaderboards.t -> GlobalLeaderboards.t) (c : t)
    : t :=
  {| facade := f (facade c); jobs := jobs c; resolved := resolved c |}.

Definition tick (now : Z) (c : t) : t :=
  with_queue (Lifecycle.tick now (queue_of c)) c.

(** What a call of [submit] has come to when it returns its promise: the
    promise is rejected, it is the pending promise of [enqueue], or it is
    the one of the REST call. *)
Inductive Started : Type :=
| threw (e : JsError)
| queueing
| requested (request : Wire.SubmitScoreRequest).

(** [submit] up to the [await] inside [enqueue]. *)
Definition submit_start (ulid : jsstring) (now : Z) (userId : jsstring)
    (score : Q) (leaderboardIdOrOptions : LeaderboardIdOrOptions) (c : t)
    : Started * t :=
  let g := facade c in
  if Qlt_le_dec score 0 then (threw INVALID_SCORE, c)
  else
    let options := normalize leaderboardIdOrOptions in
    let leaderboardId :=
      or_opt (opt_leaderboardId options) (defaultLeaderboardId g) in
    if negb (truthy leaderboardId) then (threw MISSING_LEADERBOARD_ID, c)
    else
      let userName := or_else (opt_userName options) userId in
      if negb (userNamePattern_test userName) then
        (threw INVALID_USERNAME, c)
      else if (length userName <? 1) || (50 <? length userName) then
        (threw INVALID_USERNAME_LENGTH, c)
      else if negb (isOnline g) || OfflineQueue.hasItems (offlineQueue g)
      then
        match
          Lifecycle.enqueue_start ulid now Method.submit
            {| userId := Some userId; score := Some score;
               leaderboardId := leaderboardId; userName := Some userName;
               metadata := opt_metadata options; scores := None |}
            (queue_of c)
        with
        | (Ok _, i) => (queueing, with_queue i c)
        | (Throw e, i) => (threw e, with_queue i c)
        end
      else
        let request :=
          {| Wire.leaderboard_id := leaderboardId;
             Wire.user_id := Some userId;
             Wire.user_name := Some userName;
             Wire.score := Some score;
             Wire.metadata := opt_metadata options |} in
        (requested request, lift (call (js "/v1/scores") [request]) c).

(** [new GlobalLeaderboards(apiKey, config)] over a storage that holds
    [stored]: the queue is constructed, with its load waiting. *)
Definition construct (defaultId : option jsstring) (online : bool)
    (stored : option (list QueuedOperation)) : t :=
  {| facade :=
       {| defaultLeaderboardId := defaultId;
          isOnline := online;
          offlineQueue := Lifecycle.instance (Lifecycle.construct stored);
          calls := [] |};
     jobs := Lifecycle.jobs (Lifecycle.construct stored);
     resolved := [] |}.

(** A client without a default leaderboard over an empty storage, whose
    load has settled. *)
Definition settled : t := tick 1 (construct None true (Some [])).

End Client.
(** * Properties *)

(** ** Strings, maps and sub-multisets *)

Lemma jseqb_true_iff (a b : jsstring) : jseqb a b = true <-> a = b.
Proof.
  unfold jseqb. destruct (list_eq_dec N.eq_dec a b); split; congruence.
Qed.

Lemma jseqb_refl (a : jsstring) : jseqb a a = true.
Proof. now apply jseqb_true_iff. Qed.

Section Subperm.
Context {A : Type}.
Implicit Types a b c : list A.

Lemma subperm_refl a : subperm a a.
Proof. exists []. now rewrite app_nil_r. Qed.

Lemma subperm_perm a b : Permutation a b -> subperm a b.
Proof. intros H. exists []. now rewrite app_nil_r. Qed.

Lemma subperm_trans a b c : subperm a b -> subperm b c -> subperm a c.
Proof.
  intros [x Hx] [y Hy]. exists (x ++ y).
  rewrite app_assoc. now rewrite Hx.
Qed.

Lemma subperm_app_r a b c : subperm a b -> subperm (a ++ c) (b ++ c).
Proof.
  intros [x Hx]. exists x.
  rewrite <- Hx, <- !app_assoc.
  apply Permutation_app_head, Permutation_app_comm.
Qed.

Lemma subperm_app_l a b c : subperm a b -> subperm (c ++ a) (c ++ b).
Proof.
  intros [x Hx]. exists x. rewrite <- app_assoc.
  now apply Permutation_app_head.
Qed.

Lemma subperm_drop_l_app a b : subperm a (a ++ b).
Proof. exists b. reflexivity. Qed.

Lemma subperm_In a b x : subperm a b -> In x a -> In x b.
Proof.
  intros [c Hc] Hx. eapply Permutation_in; [exact Hc|].
  apply in_or_app; now left.
Qed.

Lemma subperm_map {B : Type} (f : A -> B) a b :
  subperm a b -> subperm (map f a) (map f b).
Proof.
  intros [c Hc]. exists (map f c). rewrite <- map_app.
  now apply Permutation_map.
Qed.

Lemma subperm_NoDup a b : subperm a b -> NoDup b -> NoDup a.
Proof.
  intros [c Hc] Hb. apply Permutation_sym in Hc.
  eapply Permutation_NoDup in Hc; [|exact Hb].
  now apply NoDup_app_remove_r in Hc.
Qed.

Lemma subperm_filter (p : A -> bool) a b :
  subperm a b -> subperm (filter p a) (filter p b).
Proof.
  intros [c Hc]. exists (filter p c). rewrite <- filter_app.
  clear -Hc. induction Hc; simpl.
  - constructor.
  - destruct (p x); [now constructor|assumption].
  - destruct (p x), (p y); try reflexivity. constructor.
  - etransitivity; eassumption.
Qed.
End Subperm.


Section JsMapFacts.
Context {V : Type}.
Implicit Types m : JsMap (list V).

Lemma mhas_mget k m : mhas k m = true <-> exists v, mget k m = Some v.
Proof.
  induction m as [|[k' v'] m IH]; simpl.
  - split; [discriminate|intros [? ?]; discriminate].
  - destruct (jseqb k k'); [split; eauto|exact IH].
Qed.

Lemma mget_mset_same k (v : list V) m : mget k (mset k v m) = Some v.
Proof.
  induction m as [|[k' v'] m IH]; simpl.
  - now rewrite jseqb_refl.
  - destruct (jseqb k k') eqn:E; simpl; rewrite E; [reflexivity|exact IH].
Qed.

(** Setting a key replaces what was stored under it and keeps the
    rest. *)
Lemma vals_mset k (v : list V) m :
  exists rest,
    Permutation (vals (mset k v m)) (v ++ rest) /\
    Permutation (vals m)
      (match mget k m with Some old => old | None => [] end ++ rest).
Proof.
  induction m as [|[k' v'] m IH]; simpl.
  - exists []. unfold vals. simpl. split; reflexivity.
  - destruct (jseqb k k') eqn:E.
    + exists (vals m). unfold vals. simpl. split; reflexivity.
    + destruct IH as [rest [H1 H2]]. exists (v' ++ rest).
      unfold vals in *. simpl. split.
      * rewrite H1. rewrite !app_assoc.
        apply Permutation_app_tail, Permutation_app_comm.
      * rewrite H2. rewrite !app_assoc.
        apply Permutation_app_tail, Permutation_app_comm.
Qed.

Lemma vals_mset_sub k (v : list V) m :
  subperm (vals (mset k v m)) (v ++ vals m).
Proof.
  destruct (vals_mset k v m) as [rest [H1 H2]].
  eapply subperm_trans; [apply subperm_perm; exact H1|].
  apply subperm_app_l.
  exists (match mget k m with Some old => old | None => [] end).
  rewrite H2. apply Permutation_app_comm.
Qed.

Lemma vals_mset_fresh k (v : list V) m :
  mhas k m = false -> vals (mset k v m) = vals m ++ v.
Proof.
  induction m as [|[k' v'] m IH]; simpl; intros H.
  - unfold vals. simpl. now rewrite app_nil_r.
  - destruct (jseqb k k'); [discriminate|].
    unfold vals in *. simpl. rewrite IH by assumption.
    now rewrite app_assoc.
Qed.
End JsMapFacts.

(** ** The offline queue *)

Module OfflineQueueSpec.
Import OfflineQueue Samples.

(** [enqueue] run to completion, that is with nothing running between
    its [await] and its continuation (a call on a queue that is still
    loading is in [LifecycleSpec]).  Below the capacity it appends the
    operation: the size grows by one, the operation sits at the end of [getQueue()] with the
    parameters it was given, the new queue is persisted, [queue:added]
    fires once, and the acknowledgement carries the assigned id and the
    new size.  At or above the capacity it throws and changes nothing:
    the state, and with it the queue and the log of persisted snapshots
    and events, is the one before the call. *)
Theorem enqueue_spec (ulid : jsstring) (now : Z) (m : Method.t) (p : Params)
    (s : t) :
  let r := fst (enqueue ulid now m p s) in
  let s' := snd (enqueue ulid now m p s) in
  let op :=
    {| queueId := ulid; method := m; params := p; timestamp := now;
       retryCount := 0 |} in
  (size s < MAX_QUEUE_SIZE ->
     size s' = size s + 1 /\
     getQueue s' = getQueue s ++ [op] /\
     (exists o, In o (getQueue s') /\ queueId o = ulid /\ params o = p) /\
     effects s' = effects s ++ [Persist (getQueue s'); Emit (queue_added op)] /\
     r = Ok {| QueuedSubmitResponse.queued := true;
               QueuedSubmitResponse.queueId := ulid;
               QueuedSubmitResponse.queuePosition := size s';
               QueuedSubmitResponse.operation := js "insert";
               QueuedSubmitResponse.rank := (-1)%Z |}) /\
  (MAX_QUEUE_SIZE <= size s ->
     s' = s /\ r = Throw (PlainError (js "Queue is full (max 1000 items)"))).
Proof.
  cbv zeta. unfold enqueue, size, getQueue. split; intros H.
  - apply Nat.leb_gt in H. rewrite H. cbn [fst snd].
    unfold emit, persistQueue, log, set_queue. cbn [queue effects].
    repeat split.
    + rewrite length_app. reflexivity.
    + eexists. split; [apply in_or_app; right; left; reflexivity|].
      split; reflexivity.
    + now rewrite <- app_assoc.
  - apply Nat.leb_le in H. rewrite H. split; reflexivity.
Qed.

(** The example of the specification: the first submission queued while
    offline is acknowledged with position 1; a full queue rejects. *)
Lemma enqueue_spec_witness :
  fst (enqueue (js "01A") 7 Method.submit sample_params empty) =
    Ok {| QueuedSubmitResponse.queued := true;
          QueuedSubmitResponse.queueId := js "01A";
          QueuedSubmitResponse.queuePosition := 1;
          QueuedSubmitResponse.operation := js "insert";
          QueuedSubmitResponse.rank := (-1)%Z |} /\
  snd (enqueue (js "01A") 7 Method.submit sample_params full) = full.
Proof.
  split.
  - destruct (enqueue_spec (js "01A") 7 Method.submit sample_params empty)
      as [H _].
    destruct H as (_ & _ & _ & _ & H).
    + unfold size, MAX_QUEUE_SIZE. simpl. lia.
    + exact H.
  - destruct (enqueue_spec (js "01A") 7 Method.submit sample_params full)
      as [_ H].
    destruct H as [H _].
    + unfold size, MAX_QUEUE_SIZE, full. cbn [queue].
      rewrite repeat_length. lia.
    + exact H.
Defined.

(** *** [batchOperations] *)

Lemma queue_cleanExpiredItems now s :
  queue (cleanExpiredItems now s) =
  filter (fresh now) (queue s).
Proof.
  unfold cleanExpiredItems.
  destruct (_ <? _); reflexivity.
Qed.

Lemma group_op_perm m op :
  batchable op = true ->
  method op = Method.submit ->
  Permutation (vals (group_op m op)) (vals m ++ [op]).
Proof.
  unfold batchable, group_op. intros Hb Hm. rewrite Hm in *. simpl in *.
  rewrite orb_false_r in Hb. rewrite Hb.
  set (key := or_else (leaderboardId (params op)) []).
  set (m1 := if mhas key m then m else mset key [] m).
  assert (Hv : vals m1 = vals m).
  { subst m1. destruct (mhas key m) eqn:E; [reflexivity|].
    rewrite vals_mset_fresh by assumption. apply app_nil_r. }
  assert (Hg : exists ops, mget key m1 = Some ops).
  { subst m1. destruct (mhas key m) eqn:E.
    - now apply mhas_mget.
    - eexists. apply mget_mset_same. }
  destruct Hg as [ops Hg]. rewrite Hg.
  destruct (vals_mset key (ops ++ [op]) m1) as [rest [H1 H2]].
  rewrite Hg, Hv in H2. rewrite H1, H2.
  rewrite <- !app_assoc. apply Permutation_app_head, Permutation_app_comm.
Qed.

Lemma group_op_sub m op : subperm (vals (group_op m op)) (vals m ++ [op]).
Proof.
  destruct (batchable op) eqn:Hb.
  - destruct (method op) eqn:Hm.
    + apply subperm_perm, group_op_perm; assumption.
    + unfold group_op. rewrite Hm. simpl.
      eapply subperm_trans; [apply vals_mset_sub|].
      apply subperm_perm, Permutation_app_comm.
  - unfold batchable in Hb. unfold group_op.
    apply orb_false_iff in Hb. destruct Hb as [H1 H2].
    rewrite H1, H2. exists [op]. reflexivity.
Qed.

Lemma groups_sub q : forall m,
  subperm (vals (fold_left group_op q m)) (vals m ++ q).
Proof.
  induction q as [|op q IH]; intros m; simpl.
  - rewrite app_nil_r. apply subperm_refl.
  - eapply subperm_trans; [apply IH|].
    replace (vals m ++ op :: q) with ((vals m ++ [op]) ++ q)
      by now rewrite <- app_assoc.
    apply subperm_app_r, group_op_sub.
Qed.

(** Only operations that the first loop accepts reach a group. *)
Lemma group_op_batchable m op x :
  In x (vals (group_op m op)) -> In x (vals m) \/ (x = op /\ batchable op = true).
Proof.
  intros H. destruct (batchable op) eqn:Hb.
  - apply (subperm_In _ _ _ (group_op_sub m op)) in H.
    apply in_app_or in H. destruct H as [H|[H|[]]]; auto.
  - left. unfold batchable in Hb. unfold group_op in H.
    apply orb_false_iff in Hb. destruct Hb as [H1 H2].
    now rewrite H1, H2 in H.
Qed.

Lemma groups_batchable q : forall m x,
  In x (vals (fold_left group_op q m)) ->
  In x (vals m) \/ batchable x = true.
Proof.
  induction q as [|op q IH]; intros m x H; simpl in H; [now left|].
  apply IH in H. destruct H as [H|H]; [|now right].
  apply group_op_batchable in H. destruct H as [H|[-> H]]; auto.
Qed.

Lemma slice_skipn (ops : list QueuedOperation) i n :
  slice i (i + n) ops ++ skipn (i + n) ops = skipn i ops.
Proof.
  unfold slice. replace (i + n - i) with n by lia.
  rewrite Nat.add_comm, <- skipn_skipn. apply firstn_skipn.
Qed.

Lemma split_loop_sub fuel key ops : forall i l,
  subperm (vals (split_loop fuel key ops i l)) (vals l ++ skipn i ops).
Proof.
  induction fuel as [|fuel IH]; intros i l; simpl.
  - apply subperm_drop_l_app.
  - destruct (i <? length ops); [|apply subperm_drop_l_app].
    eapply subperm_trans; [apply IH|].
    rewrite <- (slice_skipn ops i MAX_BATCH_SIZE), app_assoc.
    apply subperm_app_r.
    eapply subperm_trans; [apply vals_mset_sub|].
    apply subperm_perm, Permutation_app_comm.
Qed.

(** The fuel given to the inner loop is never what ends it. *)
Lemma split_loop_fuel key ops fuel : forall i l extra,
  length ops <= i + fuel ->
  split_loop (fuel + extra) key ops i l = split_loop fuel key ops i l.
Proof.
  induction fuel as [|fuel IH]; intros i l extra H.
  - destruct extra as [|extra]; [reflexivity|]. simpl.
    replace (i <? length ops) with false; [reflexivity|].
    symmetry. apply Nat.ltb_ge. lia.
  - simpl. destruct (i <? length ops); [|reflexivity].
    apply IH. unfold MAX_BATCH_SIZE. lia.
Qed.

Lemma limit_group_sub l g :
  subperm (vals (limit_group l g)) (vals l ++ snd g).
Proof.
  destruct g as [key ops]. unfold limit_group. simpl.
  destruct (MAX_BATCH_SIZE <? length ops).
  - apply (split_loop_sub (length ops) key ops 0 l).
  - eapply subperm_trans; [apply vals_mset_sub|].
    apply subperm_perm, Permutation_app_comm.
Qed.

Lemma limit_sub gs : forall l,
  subperm (vals (fold_left limit_group gs l)) (vals l ++ vals gs).
Proof.
  induction gs as [|g gs IH]; intros l; simpl.
  - unfold vals at 3. simpl. rewrite app_nil_r. apply subperm_refl.
  - eapply subperm_trans; [apply IH|].
    replace (vals (g :: gs)) with (snd g ++ vals gs) by reflexivity.
    rewrite app_assoc. apply subperm_app_r, limit_group_sub.
Qed.

(** The batches hold operations of the cleaned queue, each at most
    once. *)
Lemma batches_sub now s :
  subperm (vals (fst (batchOperations now s)))
    (queue (snd (batchOperations now s))).
Proof.
  unfold batchOperations. cbn [fst snd].
  eapply subperm_trans; [apply limit_sub|]. simpl.
  eapply subperm_trans; [apply groups_sub|]. apply subperm_refl.
Qed.

Lemma batches_batchable now s x :
  In x (vals (fst (batchOperations now s))) -> batchable x = true.
Proof.
  unfold batchOperations. cbn [fst snd]. intros H.
  apply (subperm_In _ _ _ (limit_sub _ _)) in H. simpl in H.
  apply groups_batchable in H. destruct H as [[]|H]. exact H.
Qed.

Lemma in_vals (m : JsMap (list QueuedOperation)) k ops x :
  In (k, ops) m -> In x ops -> In x (vals m).
Proof.
  intros Hm Hx. unfold vals. apply in_concat. exists ops. split; [|exact Hx].
  apply in_map_iff. exists (k, ops). now split.
Qed.

(** *** Removal and failure *)

Lemma failed_events_app l1 l2 :
  failed_events (l1 ++ l2) = failed_events l1 ++ failed_events l2.
Proof.
  induction l1 as [|e l1 IH]; simpl; [reflexivity|].
  destruct e as [?|[]|]; simpl; now rewrite IH.
Qed.

Lemma keep_nil o : keep [] o = true.
Proof. reflexivity. Qed.

Lemma keep_app X Y o : keep (X ++ Y) o = keep X o && keep Y o.
Proof. unfold keep. now rewrite existsb_app, negb_orb. Qed.

Lemma keep_true X o : keep X o = true <-> ~ In (queueId o) X.
Proof.
  unfold keep. rewrite negb_true_iff, <- not_true_iff_false, existsb_exists.
  split; intros H H'; apply H.
  - exists (queueId o). split; [exact H'|apply jseqb_refl].
  - destruct H' as [x [Hx E]]. apply jseqb_true_iff in E. now subst.
Qed.

Lemma filter_true {A : Type} (p : A -> bool) l :
  (forall x, In x l -> p x = true) -> filter p l = l.
Proof.
  induction l as [|a l IH]; simpl; intros H; [reflexivity|].
  rewrite (H a) by now left. f_equal. apply IH. intros x Hx. apply H. now right.
Qed.

Lemma filter_filter {A : Type} (p q : A -> bool) l :
  filter q (filter p l) = filter (fun x => p x && q x) l.
Proof.
  induction l as [|a l IH]; simpl; [reflexivity|].
  destruct (p a); simpl; [destruct (q a)|]; now rewrite IH.
Qed.

Lemma NoDup_map_filter {A B : Type} (f : A -> B) (p : A -> bool) l :
  NoDup (map f l) -> NoDup (map f (filter p l)).
Proof.
  induction l as [|a l IH]; simpl; intros H; [constructor|].
  inversion H as [|? ? Hn Hd]; subst.
  destruct (p a); simpl; [constructor|]; auto.
  intros Hin. apply Hn. apply in_map_iff in Hin.
  destruct Hin as [x [E Hx]]. apply filter_In in Hx.
  apply in_map_iff. exists x. tauto.
Qed.

Lemma NoDup_map_inj {A B : Type} (f : A -> B) l a b :
  NoDup (map f l) -> In a l -> In b l -> f a = f b -> a = b.
Proof.
  induction l as [|x l IH]; simpl; intros H Ha Hb E; [contradiction|].
  inversion H as [|? ? Hn Hd]; subst.
  destruct Ha as [->|Ha], Hb as [->|Hb]; auto.
  - exfalso. apply Hn. rewrite E. now apply in_map.
  - exfalso. apply Hn. rewrite <- E. now apply in_map.
Qed.

Lemma touches_only_refl ids s : touches_only ids s s.
Proof.
  split.
  - exists []. split; [intros ? []|].
    symmetry. apply filter_true. intros. apply keep_nil.
  - exists []. split; [now rewrite app_nil_r|intros ? ? []].
Qed.

Lemma touches_only_mono ids ids' s s' :
  incl ids ids' -> touches_only ids s s' -> touches_only ids' s s'.
Proof.
  intros Hi [[X [HX Hq]] [new [He Hf]]]. split.
  - exists X. split; [|exact Hq]. eapply incl_tran; eassumption.
  - exists new. split; [exact He|]. intros o p H. apply Hi. eapply Hf, H.
Qed.

Lemma touches_only_trans ids s1 s2 s3 :
  touches_only ids s1 s2 -> touches_only ids s2 s3 -> touches_only ids s1 s3.
Proof.
  intros [[X [HX Hq]] [new [He Hf]]] [[Y [HY Hq']] [new' [He' Hf']]]. split.
  - exists (X ++ Y). split; [now apply incl_app|].
    rewrite Hq', Hq, filter_filter. apply filter_ext. intros o.
    symmetry. apply keep_app.
  - exists (new ++ new'). split; [now rewrite He', He, app_assoc|].
    intros o p H. rewrite failed_events_app in H.
    apply in_app_or in H. destruct H; eauto.
Qed.

Lemma touches_only_keeps ids s s' x :
  touches_only ids s s' -> In x (queue s) -> ~ In (queueId x) ids ->
  In x (queue s').
Proof.
  intros [[X [HX Hq]] _] Hx Hn. rewrite Hq. apply filter_In. split; [exact Hx|].
  apply keep_true. intros H. apply Hn, HX, H.
Qed.



Lemma touches_only_removeProcessed ids X s :
  incl X ids -> touches_only ids s (removeProcessed X s).
Proof.
  intros HX. split.
  - exists X. split; [exact HX|reflexivity].
  - eexists [Persist _]. split; [reflexivity|intros ? ? []].
Qed.

Lemma find_queueId id q op :
  find (fun o => jseqb (queueId o) id) q = Some op ->
  In op q /\ queueId op = id.
Proof.
  intros H. apply find_some in H. now rewrite jseqb_true_iff in H.
Qed.

Lemma touches_only_markFailed ids id s :
  In id ids -> touches_only ids s (markFailed id true s).
Proof.
  intros Hid. unfold markFailed.
  destruct (find _ (queue s)) as [op|] eqn:E; [|apply touches_only_refl].
  apply find_queueId in E. destruct E as [_ E]. split.
  - exists [id]. split; [intros ? [<-|[]]; exact Hid|].
    cbn [persistQueue emit log set_queue queue]. apply filter_ext.
    intros o. unfold keep. simpl. now rewrite orb_false_r.
  - eexists [Emit (queue_failed op true); Persist _]. split.
    + cbn [persistQueue emit log set_queue effects queue].
      now rewrite <- app_assoc.
    + simpl. intros o p [H|[]]. inversion H; subst. exact Hid.
Qed.
End OfflineQueueSpec.

(** ** The drain pass of the facade *)

Module DrainSpec.
Import OfflineQueue GlobalLeaderboards OfflineQueueSpec Samples.


Lemma markFailed_all_touches ops : forall s,
  touches_only (map queueId ops) s (markFailed_all ops s).
Proof.
  induction ops as [|op ops IH]; intros s; simpl.
  - apply touches_only_refl.
  - eapply touches_only_trans.
    + apply touches_only_markFailed. now left.
    + eapply touches_only_mono; [|apply IH]. now apply incl_tl, incl_refl.
Qed.


Lemma touches_only_progress ids n g :
  touches_only ids (offlineQueue g) (offlineQueue (progress n g)).
Proof.
  split.
  - exists []. split; [intros ? []|].
    symmetry. apply filter_true. intros. apply keep_nil.
  - eexists [Emit _]. split; [reflexivity|intros ? ? []].
Qed.

Lemma on_failure_touches e ops n g g' n' c :
  on_failure e ops n g = (g', n', c) ->
  touches_only (map queueId ops) (offlineQueue g) (offlineQueue g').
Proof.
  unfold on_failure. destruct (isPermanent e); intros H; inversion H; subst.
  - apply markFailed_all_touches.
  - apply touches_only_refl.
Qed.

Lemma process_batch_touches respond key ops n g g' n' c :
  process_batch respond (key, ops) n g = (g', n', c) ->
  touches_only (map queueId ops) (offlineQueue g) (offlineQueue g').
Proof.
  unfold process_batch.
  destruct (startsWith (js "bulk_") key).
  - destruct ops as [|op ops]; [apply on_failure_touches|].
    destruct (scores (params op)) as [sc|].
    + destruct (respond key) as [|e].
      * intros H. inversion H; subst. clear H.
        eapply touches_only_trans; [|apply touches_only_progress].
        apply touches_only_removeProcessed.
        intros x [<-|[]]. now left.
      * apply on_failure_touches.
    + intros H. inversion H; subst. apply touches_only_progress.
  - destruct (respond key) as [|e].
    + intros H. inversion H; subst. clear H.
      eapply touches_only_trans; [|apply touches_only_progress].
      apply touches_only_removeProcessed, incl_refl.
    + apply on_failure_touches.
Qed.

Lemma vals_cons {V : Type} (k : jsstring) (v : list V) m :
  vals ((k, v) :: m) = v ++ vals m.
Proof. reflexivity. Qed.



Lemma drain_touches respond bs : forall n g,
  touches_only (map queueId (vals bs)) (offlineQueue g)
    (offlineQueue (drain respond bs n g)).
Proof.
  induction bs as [|[key ops] bs IH]; intros n g; cbn [drain].
  - apply touches_only_refl.
  - destruct (process_batch respond (key, ops) n g) as [[g1 n1] c] eqn:E.
    rewrite vals_cons, map_app.
    apply process_batch_touches in E.
    destruct c.
    + eapply touches_only_trans.
      * eapply touches_only_mono; [|exact E]. apply incl_appl, incl_refl.
      * eapply touches_only_mono; [|apply IH]. apply incl_appr, incl_refl.
    + eapply touches_only_mono; [|exact E]. apply incl_appl, incl_refl.
Qed.




Lemma isPermanent_status e :
  isPermanent e = true <->
  exists m c s, e = GLError m c (Some s) /\ (s = 404 \/ s = 401 \/ s = 403)%Z.
Proof.
  destruct e as [m|m c [s|]]; simpl.
  - split; [discriminate|]. intros (? & ? & ? & H & _). discriminate.
  - rewrite !orb_true_iff, !Z.eqb_eq. split.
    + intros H. exists m, c, s. split; [reflexivity|tauto].
    + intros (? & ? & ? & H & H'). inversion H; subst. tauto.
  - split; [discriminate|]. intros (? & ? & ? & H & _). discriminate.
Qed.



Lemma NoDup_app_disjoint {A : Type} (l1 l2 : list A) x :
  NoDup (l1 ++ l2) -> In x l1 -> In x l2 -> False.
Proof.
  induction l1 as [|a l1 IH]; simpl; intros H H1 H2; [contradiction|].
  inversion H as [|? ? Hn Hd]; subst. destruct H1 as [->|H1].
  - apply Hn. apply in_or_app. now right.
  - now apply IH.
Qed.



Lemma not_batchable op :
  method op = Method.submit -> truthy (leaderboardId (params op)) = false ->
  batchable op = false.
Proof. unfold batchable. intros -> ->. reflexivity. Qed.

(** C10.  A queued [submit] whose leaderboard id is absent or empty is
    in no batch that [batchOperations] returns; while it is younger than
    the time to live it stays in the queue, through [batchOperations] and
    through a whole drain pass (queue ids being distinct); once it is
    that old, [batchOperations] purges it. *)
Theorem unbatchable_submit_stays (respond : jsstring -> Outcome) (now : Z)
    (g : GlobalLeaderboards.t) (op : QueuedOperation) :
  In op (queue (offlineQueue g)) ->
  method op = Method.submit ->
  truthy (leaderboardId (params op)) = false ->
  (forall k ops,
     In (k, ops) (fst (batchOperations now (offlineQueue g))) ->
     ~ In op ops) /\
  ((now - timestamp op < QUEUE_TTL_MS)%Z ->
     In op (queue (snd (batchOperations now (offlineQueue g)))) /\
     (NoDup (map queueId (queue (offlineQueue g))) ->
      In op (queue (offlineQueue (processOfflineQueue respond now g))))) /\
  ((QUEUE_TTL_MS <= now - timestamp op)%Z ->
     ~ In op (queue (snd (batchOperations now (offlineQueue g))))).
Proof.
  intros Hin Hm Hl. pose proof (not_batchable op Hm Hl) as Hb.
  assert (Hq : forall s, queue (snd (batchOperations now s)) =
                         filter (fresh now) (queue s)).
  { intros s. unfold batchOperations. cbn [snd].
    apply queue_cleanExpiredItems. }
  split; [|split].
  - intros k ops Hk Hop.
    assert (H : batchable op = true).
    { eapply batches_batchable, in_vals; eassumption. }
    congruence.
  - intros Hfresh.
    assert (Hf : fresh now op = true) by now apply Z.ltb_lt.
    split.
    + rewrite Hq. apply filter_In. now split.
    + intros Hnd. unfold processOfflineQueue.
      destruct (negb (isOnline g) || isProcessing (offlineQueue g));
        [exact Hin|].
      set (q1 := setProcessing true (offlineQueue g)).
      rewrite (surjective_pairing (batchOperations now q1)).
      cbn [offlineQueue set_offlineQueue setProcessing queue].
      pose proof (batches_sub now q1) as Hsub.
      assert (Hin2 : In op (queue (snd (batchOperations now q1)))).
      { rewrite Hq. apply filter_In. now split. }
      assert (Hnd2 : NoDup (map queueId (queue (snd (batchOperations now q1))))).
      { rewrite Hq. now apply NoDup_map_filter. }
      eapply touches_only_keeps; [apply drain_touches|exact Hin2|].
      intros H. apply in_map_iff in H. destruct H as [x [Ex Hx]].
      assert (x = op).
      { eapply NoDup_map_inj; [exact Hnd2| |exact Hin2|exact Ex].
        eapply subperm_In; eassumption. }
      subst x. apply batches_batchable in Hx. congruence.
  - intros Hold. rewrite Hq. intros H. apply filter_In in H.
    destruct H as [_ H]. apply Z.ltb_lt in H. lia.
Qed.

(** A submission without a leaderboard id survives a drain pass at time
    10 and is purged by [batchOperations] a day later. *)
Lemma unbatchable_submit_stays_witness :
  In opNoBoard
    (queue (offlineQueue (processOfflineQueue (fun _ => Resolved) 10 client2))) /\
  ~ In opNoBoard
      (queue (snd (batchOperations 86400000 (offlineQueue client2)))).
Proof.
  split.
  - destruct (unbatchable_submit_stays (fun _ => Resolved) 10 client2
                opNoBoard (or_introl eq_refl) eq_refl eq_refl)
      as (_ & H & _).
    destruct H as [_ H]; [reflexivity|].
    apply H. repeat constructor; simpl; intuition discriminate.
  - destruct (unbatchable_submit_stays (fun _ => Resolved) 86400000 client2
                opNoBoard (or_introl eq_refl) eq_refl eq_refl)
      as (_ & _ & H).
    apply H. vm_compute. discriminate.
Defined.
End DrainSpec.

(** ** Splitting a large group *)

Module BatchSpec.
Import OfflineQueue OfflineQueueSpec Samples.

Lemma js_inj (a b : string) : js a = js b -> a = b.
Proof.
  unfold js. intros H.
  rewrite <- (string_of_list_ascii_of_string a),
          <- (string_of_list_ascii_of_string b).
  f_equal. revert H.
  generalize (list_ascii_of_string a) (list_ascii_of_string b).
  induction l as [|x l IH]; intros [|y l']; simpl; try discriminate; auto.
  intros H. inversion H as [[Hx Hl]]. f_equal; [|now apply IH].
  rewrite <- (ascii_N_embedding x), <- (ascii_N_embedding y). now f_equal.
Qed.

Lemma dec_inj (i j : nat) : dec i = dec j -> i = j.
Proof.
  unfold dec. intros H. apply js_inj in H.
  apply Unsigned.to_uint_inj.
  assert (E : Some (Nat.to_uint i) = Some (Nat.to_uint j)).
  { rewrite <- !NilEmpty.usu. now f_equal. }
  now inversion E.
Qed.

Lemma mset_fresh {V : Type} k (v : V) (m : JsMap V) :
  mhas k m = false -> mset k v m = m ++ [(k, v)].
Proof.
  induction m as [|[k' v'] m IH]; simpl; intros H; [reflexivity|].
  destruct (jseqb k k'); [discriminate|]. now rewrite IH.
Qed.

Lemma mhas_In {V : Type} k (m : JsMap V) :
  mhas k m = true -> exists v, In (k, v) m.
Proof.
  induction m as [|[k' v'] m IH]; simpl; [discriminate|].
  destruct (jseqb k k') eqn:E.
  - apply jseqb_true_iff in E. subst. eauto.
  - intros H. destruct (IH H) as [v Hv]. eauto.
Qed.

Section OneLeaderboard.
Variable key : jsstring.
Variable ops : list QueuedOperation.

(** While every key already set is a [key_j] with [j] below the
    current index, the loop only appends. *)
Lemma split_loop_chunks fuel : forall i limited,
  (forall k v, In (k, v) limited ->
     exists j, j < i /\ k = key ++ js "_" ++ dec j) ->
  split_loop fuel key ops i limited =
  limited ++ chunks_from fuel key ops i.
Proof.
  induction fuel as [|fuel IH]; intros i limited Hl; simpl.
  - now rewrite app_nil_r.
  - destruct (i <? length ops); [|now rewrite app_nil_r].
    rewrite mset_fresh.
    + rewrite IH; [now rewrite <- app_assoc|].
      intros k v H. apply in_app_or in H. destruct H as [H|[H|[]]].
      * destruct (Hl k v H) as [j [Hj E]]. exists j.
        split; [unfold MAX_BATCH_SIZE; lia|exact E].
      * inversion H; subst. exists i.
        split; [unfold MAX_BATCH_SIZE; lia|reflexivity].
    + destruct (mhas _ limited) eqn:E; [|reflexivity].
      apply mhas_In in E. destruct E as [v Hv].
      destruct (Hl _ _ Hv) as [j [Hj E]].
      apply app_inv_head in E.
      apply (app_inv_head (js "_") (dec i) (dec j)) in E.
      apply dec_inj in E. lia.
Qed.

(** With enough fuel the loop ends because the index has passed the
    end, and the sub-batches, one after the other, are the group. *)
Lemma vals_chunks_from fuel : forall i,
  length ops <= i + fuel ->
  vals (chunks_from fuel key ops i) = skipn i ops.
Proof.
  induction fuel as [|fuel IH]; intros i H; simpl.
  - rewrite skipn_all2 by lia. reflexivity.
  - destruct (i <? length ops) eqn:E.
    + rewrite DrainSpec.vals_cons, IH by (unfold MAX_BATCH_SIZE; lia).
      apply slice_skipn.
    + apply Nat.ltb_ge in E. now rewrite skipn_all2.
Qed.

Lemma chunks_from_small fuel : forall i,
  Forall (fun b => length (snd b) <= MAX_BATCH_SIZE)
    (chunks_from fuel key ops i).
Proof.
  induction fuel as [|fuel IH]; intros i; simpl; [constructor|].
  destruct (i <? length ops); constructor; [|apply IH].
  simpl. unfold slice. rewrite length_firstn. lia.
Qed.

Lemma length_chunks_from fuel : forall i,
  length ops <= i + fuel ->
  length (chunks_from fuel key ops i) = (length ops - i + 99) / 100.
Proof.
  induction fuel as [|fuel IH]; intros i H; cbn [chunks_from].
  - replace (length ops - i) with 0 by lia. reflexivity.
  - destruct (i <? length ops) eqn:E.
    + apply Nat.ltb_lt in E. cbn [length].
      rewrite IH by (unfold MAX_BATCH_SIZE; lia).
      unfold MAX_BATCH_SIZE.
      destruct (le_lt_dec (i + 100) (length ops)) as [Hc|Hc].
      * replace (length ops - i + 99)
          with ((length ops - (i + 100) + 99) + 1 * 100) by lia.
        rewrite Nat.div_add by lia. lia.
      * replace (length ops - (i + 100)) with 0 by lia.
        replace ((length ops - i + 99) / 100) with 1; [reflexivity|].
        apply (Nat.div_unique _ 100 1 (length ops - i - 1)); lia.
    + apply Nat.ltb_ge in E. replace (length ops - i) with 0 by lia.
      reflexivity.
Qed.
End OneLeaderboard.

Lemma group_same_leaderboard (L : jsstring) (q : list QueuedOperation) :
  L <> [] ->
  Forall (fun op => method op = Method.submit /\
                    leaderboardId (params op) = Some L) q ->
  forall acc, fold_left group_op q [(L, acc)] = [(L, acc ++ q)].
Proof.
  intros HL Hq. induction Hq as [|op q [Hm Hl] _ IH]; intros acc; simpl.
  - now rewrite app_nil_r.
  - assert (E : group_op [(L, acc)] op = [(L, acc ++ [op])]).
    { unfold group_op. rewrite Hm, Hl. destruct L as [|c L]; [easy|].
      simpl. rewrite !jseqb_refl. simpl. rewrite jseqb_refl. reflexivity. }
    rewrite E, IH, <- app_assoc. reflexivity.
Qed.

(** X25.  When the queue holds nothing but [N > 100] unexpired [submit]
    operations for one leaderboard [L], [batchOperations] returns the
    contiguous sub-batches of the queue under the keys [L_0], [L_100],
    ...: [ceil(N/100)] groups of at most 100 operations whose
    concatenation is the queue. *)
Lemma batchOperations_one_leaderboard (now : Z) (s : OfflineQueue.t)
    (L : jsstring) :
  L <> [] ->
  Forall (fun op => method op = Method.submit /\
                    leaderboardId (params op) = Some L) (queue s) ->
  Forall (fun op => fresh now op = true) (queue s) ->
  MAX_BATCH_SIZE < length (queue s) ->
  let batches := fst (batchOperations now s) in
  batches = chunks_from (length (queue s)) L (queue s) 0 /\
  length batches = (length (queue s) + 99) / 100 /\
  Forall (fun b => length (snd b) <= MAX_BATCH_SIZE) batches /\
  vals batches = queue s.
Proof.
  intros HL Hq Hf Hn.
  assert (Hc : queue (cleanExpiredItems now s) = queue s).
  { rewrite queue_cleanExpiredItems. apply filter_true.
    now apply Forall_forall. }
  assert (E : fst (batchOperations now s) =
              chunks_from (length (queue s)) L (queue s) 0).
  { unfold batchOperations. cbn [fst]. rewrite Hc.
    destruct (queue s) as [|op q] eqn:Eq; [simpl in Hn; lia|].
    assert (G : fold_left group_op (op :: q) [] = [(L, op :: q)]).
    { inversion Hq as [|? ? [Hm Hl] Hq']; subst. simpl.
      assert (G1 : group_op [] op = [(L, [op])]).
      { unfold group_op. rewrite Hm, Hl. destruct L as [|c L]; [easy|].
        simpl. rewrite jseqb_refl. reflexivity. }
      rewrite G1. now apply group_same_leaderboard. }
    rewrite G. cbn [fold_left limit_group].
    apply Nat.ltb_lt in Hn. rewrite Hn.
    rewrite split_loop_chunks; [reflexivity|intros ? ? []]. }
  cbv zeta. rewrite E. split; [reflexivity|]. split; [|split].
  - rewrite length_chunks_from by lia. now rewrite Nat.sub_0_r.
  - apply chunks_from_small.
  - rewrite vals_chunks_from by lia. reflexivity.
Qed.

(** C2 fails on the code when a sub-batch key collides with another
    leaderboard id.  The queue holds 101 submissions for [L] and then one
    for [L_0]; the first hundred are stored under the key [L_0] and then
    overwritten by the group of the other leaderboard.  One group of one
    operation is left for [L], where the claim promises two groups that
    cover all 101. *)
Theorem batchOperations_key_collision :
  let batches := fst (batchOperations 10 colliding) in
  length (filter (fun op => jseqb (or_else (leaderboardId (params op)) [])
                              (js "L")) (queue colliding)) = 101 /\
  batches = [(js "L_0", [opL0]); (js "L_100", skipn 100 ops101)] /\
  length (skipn 100 ops101) = 1 /\
  (forall op, In op (firstn 100 ops101) -> ~ In op (vals batches)).
Proof.
  cbv zeta.
  assert (E : fst (batchOperations 10 colliding) =
              [(js "L_0", [opL0]); (js "L_100", skipn 100 ops101)])
    by (vm_compute; reflexivity).
  rewrite E. repeat split; try (vm_compute; reflexivity).
  intros op Hop Hin.
  assert (Hall : In op ops101).
  { rewrite <- (firstn_skipn 100 ops101). apply in_or_app. now left. }
  assert (Hd : NoDup (map queueId ops101)).
  { unfold ops101. rewrite map_map.
    apply Finite.Injective_map_NoDup; [|apply seq_NoDup].
    intros x y H. unfold sample_op in H. cbn [queueId] in H.
    apply (app_inv_head (js "q") (dec x) (dec y)) in H. now apply dec_inj. }
  rewrite !DrainSpec.vals_cons in Hin.
  apply in_app_or in Hin. destruct Hin as [[Hin|[]]|Hin].
  - subst op. unfold ops101 in Hall. apply in_map_iff in Hall.
    destruct Hall as [x [Hx _]]. apply (f_equal queueId) in Hx.
    unfold sample_op, opL0 in Hx. cbn [queueId] in Hx. discriminate Hx.
  - apply in_app_or in Hin. destruct Hin as [Hin|[]].
    rewrite <- (firstn_skipn 100 ops101), map_app in Hd.
    eapply DrainSpec.NoDup_app_disjoint; [exact Hd| |];
      apply in_map; eassumption.
Qed.
End BatchSpec.

(** ** Validation in [submit] *)

Module SubmitSpec.
Import GlobalLeaderboards Samples.

Lemma userNamePattern_test_spec (userName : jsstring) :
  userNamePattern_test userName = true <->
  userName <> [] /\ Forall (fun c => userNameChar c = true) userName.
Proof.
  unfold userNamePattern_test. destruct userName as [|c l].
  - split; [discriminate|]. intros [H _]. now elim H.
  - rewrite forallb_forall, Forall_forall. split.
    + intros H. split; [discriminate|exact H].
    + intros [_ H]. exact H.
Qed.

(** C9, the claim as stated fails.  With a valid score and a leaderboard
    id, the empty name is rejected as [INVALID_USERNAME], the error of the
    pattern, not as [INVALID_USERNAME_LENGTH]: the pattern is tested
    first and needs one character.  And a call with a name outside the
    pattern but without any leaderboard id is rejected as
    [MISSING_LEADERBOARD_ID]. *)
Lemma submit_validation_counterexample :
  fst (submit (js "01A") 0 [] (inject_Z 10) (ArgString (js "L")) client0) =
    Rejected INVALID_USERNAME /\
  INVALID_USERNAME <> INVALID_USERNAME_LENGTH /\
  fst (submit (js "01A") 0 (js "bad!") (inject_Z 10) ArgUndefined client0) =
    Rejected MISSING_LEADERBOARD_ID /\
  MISSING_LEADERBOARD_ID <> INVALID_USERNAME.
Proof.
  split; [reflexivity|]. split; [discriminate|].
  split; [reflexivity|discriminate].
Qed.

(** C9, amended.  [submit] rejects a negative score as [INVALID_SCORE];
    otherwise a call for which no leaderboard id is resolved as
    [MISSING_LEADERBOARD_ID]; otherwise, with the effective name (the
    [userName] option, or [userId] when that is absent or empty), a
    non-empty name with a character outside the allow-list as
    [INVALID_USERNAME], and a name inside the allow-list that is longer
    than 50 as [INVALID_USERNAME_LENGTH].  Whenever [submit] rejects, the
    client is unchanged: nothing was enqueued, persisted or sent. *)
Theorem submit_validation (ulid : jsstring) (now : Z) (userId : jsstring)
    (score : Q) (a : LeaderboardIdOrOptions) (g : GlobalLeaderboards.t) :
  let options := normalize a in
  let leaderboardId :=
    or_opt (opt_leaderboardId options) (defaultLeaderboardId g) in
  let userName := or_else (opt_userName options) userId in
  let r := fst (submit ulid now userId score a g) in
  let g' := snd (submit ulid now userId score a g) in
  ((score < 0)%Q -> r = Rejected INVALID_SCORE) /\
  ((0 <= score)%Q -> truthy leaderboardId = false ->
     r = Rejected MISSING_LEADERBOARD_ID) /\
  ((0 <= score)%Q -> truthy leaderboardId = true ->
     userName <> [] -> Exists (fun c => userNameChar c = false) userName ->
     r = Rejected INVALID_USERNAME) /\
  ((0 <= score)%Q -> truthy leaderboardId = true ->
     Forall (fun c => userNameChar c = true) userName ->
     50 < length userName ->
     r = Rejected INVALID_USERNAME_LENGTH) /\
  (forall e, r = Rejected e -> g' = g).
Proof.
  cbv zeta. unfold submit.
  destruct (Qlt_le_dec score 0) as [Hs|Hs].
  - repeat split; try reflexivity;
      intros H; exfalso; eapply Qlt_not_le; eassumption.
  - split; [intros H; exfalso; eapply Qlt_not_le; eassumption|].
    destruct (truthy (or_opt _ _)) eqn:Hl; cbn [negb].
    + split; [discriminate|].
      destruct (userNamePattern_test _) eqn:Hp; cbn [negb].
      * apply userNamePattern_test_spec in Hp. destruct Hp as [Hne Hall].
        split.
        { intros _ _ _ Hex. exfalso. apply Exists_exists in Hex.
          destruct Hex as [c [Hc Hc']]. rewrite Forall_forall in Hall.
          rewrite (Hall c Hc) in Hc'. discriminate. }
        destruct (_ || _) eqn:Hlen.
        { split; [reflexivity|]. reflexivity. }
        apply orb_false_iff in Hlen. destruct Hlen as [_ Hlen].
        apply Nat.ltb_ge in Hlen.
        split; [intros; lia|].
        destruct (negb (isOnline g) || _).
        -- destruct (OfflineQueue.enqueue _ _ _ _ _). discriminate.
        -- discriminate.
      * split; [reflexivity|]. split; [|reflexivity].
        intros _ _ Hall Hlen.
        assert (userNamePattern_test (or_else (opt_userName (normalize a)) userId) = true).
        { apply userNamePattern_test_spec. split; [|exact Hall].
          intros E. rewrite E in Hlen. simpl in Hlen. lia. }
        congruence.
    + split; [reflexivity|]. repeat split; try discriminate. 
Qed.

(** A name of 51 letters is rejected for its length, [-1] as a score,
    and a name with an exclamation mark for its characters; none of the
    three calls changes the client. *)
Lemma submit_validation_witness :
  submit (js "01A") 0 name51 (inject_Z 10) (ArgString (js "L")) client0 =
    (Rejected INVALID_USERNAME_LENGTH, client0) /\
  submit (js "01A") 0 (js "u1") (inject_Z (-1)) (ArgString (js "L")) client0 =
    (Rejected INVALID_SCORE, client0) /\
  submit (js "01A") 0 (js "bad!") (inject_Z 10) (ArgString (js "L")) client0 =
    (Rejected INVALID_USERNAME, client0).
Proof.
  split; [|split].
  - destruct (submit_validation (js "01A") 0 name51 (inject_Z 10)
                (ArgString (js "L")) client0) as (_ & _ & _ & H & H').
    assert (E : fst (submit (js "01A") 0 name51 (inject_Z 10)
                       (ArgString (js "L")) client0)
                = Rejected INVALID_USERNAME_LENGTH).
    { apply H; [discriminate|reflexivity| |].
      - vm_compute. repeat constructor.
      - vm_compute. lia. }
    rewrite (surjective_pairing (submit _ _ _ _ _ _)).
    now rewrite (H' INVALID_USERNAME_LENGTH E), E.
  - destruct (submit_validation (js "01A") 0 (js "u1") (inject_Z (-1))
                (ArgString (js "L")) client0) as (H & _ & _ & _ & H').
    assert (E : fst (submit (js "01A") 0 (js "u1") (inject_Z (-1))
                       (ArgString (js "L")) client0)
                = Rejected INVALID_SCORE) by (apply H; reflexivity).
    rewrite (surjective_pairing (submit _ _ _ _ _ _)).
    now rewrite (H' INVALID_SCORE E), E.
  - destruct (submit_validation (js "01A") 0 (js "bad!") (inject_Z 10)
                (ArgString (js "L")) client0) as (_ & _ & H & _ & H').
    assert (E : fst (submit (js "01A") 0 (js "bad!") (inject_Z 10)
                       (ArgString (js "L")) client0)
                = Rejected INVALID_USERNAME).
    { apply H; [discriminate|reflexivity|discriminate|].
      apply Exists_exists. exists 33%N. split; [|reflexivity].
      simpl. tauto. }
    rewrite (surjective_pairing (submit _ _ _ _ _ _)).
    now rewrite (H' INVALID_USERNAME E), E.
Defined.
End SubmitSpec.

(** ** Double-precision arithmetic *)

Module DoubleSpec.
Import Double.
Local Open Scope Q_scope.

Lemma pow2_pos e : 0 < pow2 e.
Proof. unfold pow2. apply Qpower_0_lt. reflexivity. Qed.

Lemma pow2_le n m : (n <= m)%Z -> pow2 n <= pow2 m.
Proof. intros H. unfold pow2. apply Qpower_le_compat_l; [exact H|discriminate]. Qed.

Lemma pow2_plus n m : pow2 (n + m) == pow2 n * pow2 m.
Proof. unfold pow2. apply Qpower_plus. discriminate. Qed.

Lemma pow2_Z n : (0 <= n)%Z -> pow2 n == inject_Z (2 ^ n).
Proof. intros H. unfold pow2. rewrite Zpower_Qpower by exact H. reflexivity. Qed.

Lemma pow2_minus n m : pow2 (n - m) == pow2 n / pow2 m.
Proof. unfold pow2. apply Qpower_minus. discriminate. Qed.

(** ** [ilog2] *)

Lemma ilog2_spec x : 0 < x -> pow2 (ilog2 x) <= x /\ x < pow2 (ilog2 x + 1).
Proof.
  intros Hx. destruct x as [p q]. unfold Qlt in Hx. simpl in Hx.
  rewrite Z.mul_1_r in Hx.
  set (lp := Z.log2 p). set (lq := Z.log2 (Z.pos q)).
  assert (Hp : (2 ^ lp <= p < 2 ^ (lp + 1))%Z).
  { subst lp. pose proof (Z.log2_spec p Hx) as H. unfold Z.succ in H. exact H. }
  assert (Hq : (2 ^ lq <= Z.pos q < 2 ^ (lq + 1))%Z).
  { subst lq. pose proof (Z.log2_spec (Z.pos q) eq_refl) as H.
    unfold Z.succ in H. exact H. }
  assert (Lp : (0 <= lp)%Z) by apply Z.log2_nonneg.
  assert (Lq : (0 <= lq)%Z) by apply Z.log2_nonneg.
  assert (Px : p # q == inject_Z p / inject_Z (Z.pos q)) by apply Qmake_Qdiv.
  assert (Qq : 0 < inject_Z (Z.pos q)) by reflexivity.
  (* x < 2^(lp+1) / 2^lq and 2^lp / 2^(lq+1) <= x *)
  assert (Up : p # q < pow2 (lp - lq + 1)).
  { replace (lp - lq + 1)%Z with ((lp + 1) - lq)%Z by lia.
    rewrite pow2_minus, !pow2_Z by lia. rewrite Px.
    apply Qlt_shift_div_l; [rewrite <- pow2_Z by lia; apply pow2_pos|].
    unfold Qdiv. rewrite <- Qmult_assoc, (Qmult_comm (/ _)), Qmult_assoc.
    apply Qlt_shift_div_r; [exact Qq|].
    rewrite <- !inject_Z_mult, <- Zlt_Qlt. nia. }
  assert (Lo : pow2 (lp - lq - 1) <= p # q).
  { replace (lp - lq - 1)%Z with (lp - (lq + 1))%Z by lia.
    rewrite pow2_minus, !pow2_Z by lia. rewrite Px.
    apply Qle_shift_div_r; [rewrite <- pow2_Z by lia; apply pow2_pos|].
    unfold Qdiv. rewrite <- Qmult_assoc, (Qmult_comm (/ _)), Qmult_assoc.
    apply Qle_shift_div_l; [exact Qq|].
    rewrite <- !inject_Z_mult, <- Zle_Qle. nia. }
  unfold ilog2. cbn [Qnum Qden]. fold lp lq.
  destruct (Qle_bool (pow2 (lp - lq)) (p # q)) eqn:E.
  - apply Qle_bool_iff in E. split; [exact E|exact Up].
  - split; [exact Lo|].
    replace (lp - lq - 1 + 1)%Z with (lp - lq)%Z by lia.
    apply Qnot_le_lt. intros H. apply Qle_bool_iff in H. congruence.
Qed.

Lemma ilog2_mono x y : 0 < x -> x <= y -> (ilog2 x <= ilog2 y)%Z.
Proof.
  intros Hx Hxy.
  assert (Hy : 0 < y) by (eapply Qlt_le_trans; eassumption).
  destruct (ilog2_spec x Hx) as [Lx _]. destruct (ilog2_spec y Hy) as [_ Uy].
  destruct (Z_le_gt_dec (ilog2 x) (ilog2 y)) as [H|H]; [exact H|exfalso].
  assert (pow2 (ilog2 y + 1) <= pow2 (ilog2 x)) by (apply pow2_le; lia).
  lra.
Qed.

(** ** [rne] *)

Lemma rne_floor x : (Qfloor x <= rne x <= Qfloor x + 1)%Z.
Proof.
  unfold rne. destruct (x - inject_Z (Qfloor x) ?= 1 # 2);
    [destruct (Z.even _)| |]; lia.
Qed.

Lemma rne_Z z : rne (inject_Z z) = z.
Proof.
  unfold rne. rewrite Qfloor_Z.
  assert (E : (inject_Z z - inject_Z z ?= 1 # 2) = Lt).
  { apply Qlt_alt. setoid_replace (inject_Z z - inject_Z z) with 0 by ring.
    reflexivity. }
  now rewrite E.
Qed.

Lemma rne_mono x y : x <= y -> (rne x <= rne y)%Z.
Proof.
  intros H. pose proof (Qfloor_resp_le x y H) as Hf.
  pose proof (rne_floor x) as Rx. pose proof (rne_floor y) as Ry.
  destruct (Z.eq_dec (Qfloor x) (Qfloor y)) as [E|E]; [|lia].
  clear Rx Ry. unfold rne. rewrite <- E. set (f := Qfloor x).
  destruct (Qcompare_spec (x - inject_Z f) (1 # 2)) as [Cx|Cx|Cx];
    destruct (Qcompare_spec (y - inject_Z f) (1 # 2)) as [Cy|Cy|Cy];
    try (destruct (Z.even f); lia); try lia; exfalso.
  - rewrite <- Cx in Cy. lra.
  - rewrite <- Cy in Cx. lra.
  - lra.
Qed.

Lemma rne_nonneg x : 0 <= x -> (0 <= rne x)%Z.
Proof.
  intros H. pose proof (rne_floor x). pose proof (Qfloor_resp_le 0 x H) as F.
  change (Qfloor 0) with 0%Z in F. lia.
Qed.

(** ** [round] *)

Lemma round_pos_nonneg x : 0 < x -> 0 <= round_pos x.
Proof.
  intros H. unfold round_pos. cbv zeta.
  apply Qmult_le_0_compat; [|apply Qlt_le_weak, pow2_pos].
  change 0 with (inject_Z 0). rewrite <- Zle_Qle. apply rne_nonneg.
  apply Qle_shift_div_l; [apply pow2_pos|]. lra.
Qed.

(** A power of two at or above [x], with an exponent not below the one
    [x] is rounded at, is at or above the rounded value. *)
Lemma round_pos_le_pow2 x b :
  0 < x -> (expo x <= b)%Z -> x <= pow2 b -> round_pos x <= pow2 b.
Proof.
  intros Hx Hb Hle. unfold round_pos. cbv zeta.
  assert (P : 0 < pow2 (expo x)) by apply pow2_pos.
  assert (E : pow2 b == inject_Z (2 ^ (b - expo x)) * pow2 (expo x)).
  { rewrite <- pow2_Z by lia. rewrite <- pow2_plus.
    replace (b - expo x + expo x)%Z with b by lia. reflexivity. }
  rewrite E. apply Qmult_le_compat_r; [|lra].
  rewrite <- Zle_Qle. rewrite <- (rne_Z (2 ^ (b - expo x))).
  apply rne_mono. apply Qle_shift_div_r; [exact P|]. now rewrite <- E.
Qed.

Lemma round_pos_ge_pow2 x b :
  0 < x -> (expo x <= b)%Z -> pow2 b <= x -> pow2 b <= round_pos x.
Proof.
  intros Hx Hb Hle. unfold round_pos. cbv zeta.
  assert (P : 0 < pow2 (expo x)) by apply pow2_pos.
  assert (E : pow2 b == inject_Z (2 ^ (b - expo x)) * pow2 (expo x)).
  { rewrite <- pow2_Z by lia. rewrite <- pow2_plus.
    replace (b - expo x + expo x)%Z with b by lia. reflexivity. }
  rewrite E. apply Qmult_le_compat_r; [|lra].
  rewrite <- Zle_Qle. rewrite <- (rne_Z (2 ^ (b - expo x))) at 1.
  apply rne_mono. apply Qle_shift_div_l; [exact P|]. now rewrite <- E.
Qed.

Lemma round_pos_mono x y : 0 < x -> x <= y -> round_pos x <= round_pos y.
Proof.
  intros Hx Hxy.
  assert (Hy : 0 < y) by (eapply Qlt_le_trans; eassumption).
  pose proof (ilog2_mono x y Hx Hxy) as Hi.
  destruct (Z.eq_dec (expo x) (expo y)) as [E|E].
  - unfold round_pos. cbv zeta. rewrite E.
    assert (P : 0 < pow2 (expo y)) by apply pow2_pos.
    apply Qmult_le_compat_r; [|lra].
    rewrite <- Zle_Qle. apply rne_mono.
    unfold Qdiv. apply Qmult_le_compat_r; [exact Hxy|].
    apply Qlt_le_weak, Qinv_lt_0_compat, P.
  - assert (Ey : expo y = (ilog2 y - 52)%Z) by (unfold expo in *; lia).
    assert (Ix : (ilog2 x + 1 <= ilog2 y)%Z) by (unfold expo in *; lia).
    destruct (ilog2_spec x Hx) as [_ Ux]. destruct (ilog2_spec y Hy) as [Ly _].
    apply Qle_trans with (pow2 (ilog2 y)).
    + apply round_pos_le_pow2; [exact Hx|unfold expo in *; lia|].
      apply Qle_trans with (pow2 (ilog2 x + 1)); [lra|now apply pow2_le].
    + apply round_pos_ge_pow2; [exact Hy|lia|exact Ly].
Qed.

Lemma round_mono x y : x <= y -> round x <= round y.
Proof.
  intros H. unfold round.
  destruct (Qcompare_spec x 0) as [Cx|Cx|Cx];
    destruct (Qcompare_spec y 0) as [Cy|Cy|Cy];
    try (exfalso; lra).
  - lra.
  - now apply round_pos_nonneg.
  - assert (0 <= round_pos (- x)) by (apply round_pos_nonneg; lra). lra.
  - assert (round_pos (- y) <= round_pos (- x))
      by (apply round_pos_mono; lra). lra.
  - assert (0 <= round_pos (- x)) by (apply round_pos_nonneg; lra).
    assert (0 <= round_pos y) by now apply round_pos_nonneg. lra.
  - now apply round_pos_mono.
Qed.

(** The rounded value of [x] lies between any two doubles that [x] lies
    between; when these are finite, so is the result. *)
Lemma fl_between lo hi x :
  round lo == lo -> round hi == hi ->
  - pow2 1024 < lo -> hi < pow2 1024 ->
  lo <= x <= hi ->
  exists y, fl x = Finite y /\ lo <= y <= hi.
Proof.
  intros Rlo Rhi Blo Bhi [Hlo Hhi].
  assert (L : lo <= round x) by (rewrite <- Rlo; now apply round_mono).
  assert (H : round x <= hi) by (rewrite <- Rhi; now apply round_mono).
  unfold fl. cbv zeta.
  destruct (Qle_bool (pow2 1024) (Qabs (round x))) eqn:E.
  - apply Qle_bool_iff in E. exfalso.
    assert (Qabs (round x) < pow2 1024); [|lra].
    apply Qabs_Qlt_condition. split; lra.
  - exists (Qred (round x)). split; [reflexivity|]. rewrite Qred_correct.
    split; assumption.
Qed.

End DoubleSpec.

(** ** The WebSocket client *)

Module WebSocketSpec.
Import LeaderboardWebSocket WsSamples.

Lemma In_sdelete x l : ~ In x (sdelete x l).
Proof.
  unfold sdelete. intros H. apply filter_In in H. destruct H as [_ H].
  now rewrite jseqb_refl in H.
Qed.

(** C4, the claim as stated fails.  After its socket is gone the client
    is not connected and still has [L] in its subscription set;
    [unsubscribe(L)] returns and [L] is still there. *)
Lemma unsubscribe_counterexample :
  isConnected dropped = false /\
  In (js "L") (subscribedLeaderboards dropped) /\
  In (js "L") (subscribedLeaderboards (snd (unsubscribe (js "L") dropped))).
Proof.
  split; [vm_compute; reflexivity|]. split; vm_compute; now left.
Qed.

(** C4, amended.  When the connection is not open, or there is no
    transport, [unsubscribe(topic)] does nothing: no frame is sent and
    the subscription set, with the topic in it, is as before.  When the
    connection is open it sends the unsubscribe frame on the current
    socket and removes the topic from the set. *)
Theorem unsubscribe_spec (topic : jsstring) (s : t) :
  (isConnected s = false -> unsubscribe topic s = (Ok tt, s)) /\
  (isConnected s = true ->
     exists i,
       ws s = Some i /\
       fst (unsubscribe topic s) = Ok tt /\
       out (snd (unsubscribe topic s)) = out s ++ [Sent i (f_unsubscribe topic)] /\
       subscribedLeaderboards (snd (unsubscribe topic s)) =
         sdelete topic (subscribedLeaderboards s) /\
       ~ In topic (subscribedLeaderboards (snd (unsubscribe topic s)))).
Proof.
  unfold unsubscribe, send. split; intros H; rewrite H; cbn [negb].
  - reflexivity.
  - destruct (ws s) as [i|] eqn:E.
    + exists i. cbn. repeat split. apply In_sdelete.
    + unfold isConnected in H. rewrite E in H. discriminate.
Qed.

Lemma unsubscribe_spec_witness :
  unsubscribe (js "L") dropped = (Ok tt, dropped) /\
  ~ In (js "L")
      (subscribedLeaderboards
         (snd (unsubscribe (js "L")
                 (run [Connect (Some (js "L")) None; SockOpen 0]
                    (new defaults true))))).
Proof.
  split.
  - destruct (unsubscribe_spec (js "L") dropped) as [H _].
    apply H. reflexivity.
  - destruct (unsubscribe_spec (js "L")
                (run [Connect (Some (js "L")) None; SockOpen 0]
                   (new defaults true))) as [_ H].
    destruct H as (i & _ & _ & _ & _ & H); [reflexivity|exact H].
Defined.

Lemma nth_update_readyState i r : forall l k,
  nth_error l i = Some k ->
  option_map readyState (nth_error (update_readyState i r l) i) = Some r.
Proof.
  induction i as [|i IH]; intros [|x l] k H; try discriminate; simpl in *.
  - reflexivity.
  - eapply IH, H.
Qed.

Lemma isConnected_notify b o s : isConnected (notify b o s) = isConnected s.
Proof. destruct b; reflexivity. Qed.

(** Closing the current socket leaves the client not connected. *)
Lemma isConnected_socket_close i c s :
  ws s = Some i -> isConnected (socket_close i c s) = false.
Proof.
  intros Hw. unfold socket_close.
  set (s1 := emit (SocketClose i c) s).
  assert (W1 : ws s1 = Some i) by exact Hw.
  assert (R : forall k, nth_error (sockets s1) i = Some k ->
              isConnected (set_readyState i CLOSING s1) = false).
  { intros k N. unfold isConnected, readyStateOf.
    change (ws (set_readyState i CLOSING s1)) with (ws s1).
    change (sockets (set_readyState i CLOSING s1))
      with (update_readyState i CLOSING (sockets s1)).
    now rewrite W1, (nth_update_readyState i CLOSING _ k N). }
  unfold readyStateOf.
  destruct (nth_error (sockets s1) i) as [k|] eqn:N; cbn [option_map].
  - destruct (readyState k) eqn:K; try (eapply R; reflexivity);
      unfold isConnected, readyStateOf; rewrite W1, N; cbn; now rewrite K.
  - unfold isConnected, readyStateOf. now rewrite W1, N.
Qed.

(** C6, the claim as stated fails.  A client that is offline, neither
    connected nor connecting and without a permanent error does not issue
    a connection from [reconnect()]: it throws [WS_OFFLINE]. *)
Lemma reconnect_counterexample :
  isConnected (new defaults false) = false /\
  isConnecting (new defaults false) = false /\
  permanentError (new defaults false) = None /\
  fst (reconnect (new defaults false)) = Throw WS_OFFLINE /\
  attempts (out (snd (reconnect (new defaults false)))) = [].
Proof. repeat split. Qed.

(** C6, amended.  For a client that is neither connected nor connecting:
    with a permanent error stored, [reconnect()] throws that error and
    leaves the client as it is, so no connection is attempted; without
    one it resets the attempt counter to 0 and enables reconnection, and
    then, when the network is online, issues a fresh [connect()], which
    creates a new socket; when the network is offline it throws
    [WS_OFFLINE] and creates none.  A permanent error is what an inbound
    error message with one of the four permanent codes stores, in any
    state, and the message leaves the client not connected. *)
Theorem reconnect_spec (s : t) :
  isConnected s = false -> isConnecting s = false ->
  (forall e, permanentError s = Some e -> reconnect s = (Throw e, s)) /\
  (permanentError s = None ->
     let s0 := set_shouldReconnect true (set_reconnectAttempts 0 s) in
     (isOnline s = true ->
        reconnect s = (Ok tt, connect None None s0) /\
        reconnectAttempts (snd (reconnect s)) = 0 /\
        (wsUrlValid (options s) = true ->
           out (snd (reconnect s)) =
             out s ++ [NewSocket (length (sockets s)) None None] /\
           ws (snd (reconnect s)) = Some (length (sockets s)))) /\
     (isOnline s = false ->
        reconnect s = (Throw WS_OFFLINE, s0))) /\
  (forall s0 b,
     In (or_else (error_code b) (js "UNKNOWN_ERROR")) permanentErrors ->
     permanentError (snd (handleMessage (error (Some b)) s0)) =
       Some (GLError (error_message b)
               (or_else (error_code b) (js "UNKNOWN_ERROR")) None) /\
     isConnected (snd (handleMessage (error (Some b)) s0)) = false).
Proof.
  intros Hc Hi. unfold reconnect. rewrite Hc, Hi. cbn [orb].
  split; [|split].
  - intros e He. now rewrite He.
  - intros Hp. rewrite Hp. cbv zeta. split; intros Ho.
    + cbn [isOnline set_shouldReconnect set_reconnectAttempts negb].
      rewrite Ho. cbn [negb fst snd].
      split; [reflexivity|].
      unfold connect.
      replace (isConnected (set_shouldReconnect true (set_reconnectAttempts 0 s)))
        with (isConnected s) by reflexivity.
      rewrite Hc. cbn [isConnecting set_shouldReconnect set_reconnectAttempts orb].
      rewrite Hi. cbn [truthy].
      cbn [options set_permanentError set_shouldReconnect set_isConnecting
           set_reconnectAttempts].
      destruct (wsUrlValid (options s)); split; try discriminate.
      * reflexivity.
      * intros _. split; reflexivity.
      * unfold handleError, notify. destruct (onError _); reflexivity.
    + cbn [isOnline set_shouldReconnect set_reconnectAttempts negb].
      now rewrite Ho.
  - intros s0 b Hb. unfold handleMessage.
    assert (E : existsb (jseqb (or_else (error_code b) (js "UNKNOWN_ERROR")))
                  permanentErrors = true).
    { apply existsb_exists. eexists. split; [exact Hb|apply jseqb_refl]. }
    rewrite E. cbn [snd]. split.
    + unfold handleError, notify, socket_close, emit.
      repeat match goal with
             | |- context [match ?x with _ => _ end] => destruct x
             | |- context [if ?x then _ else _] => destruct x
             end; reflexivity.
    + unfold handleError. rewrite isConnected_notify.
      match goal with
      | |- isConnected (match ws ?x with _ => _ end) = false =>
          set (s1 := x); destruct (ws s1) as [i|] eqn:W;
          [destruct (isConnected s1) eqn:C;
           [now apply isConnected_socket_close|exact C]
          |unfold isConnected; now rewrite W]
      end.
Qed.

Lemma reconnect_spec_witness :
  let s :=
    run [Connect (Some (js "L")) None; SockOpen 0;
         SockMessage 0
           (Parsed (error (Some {| error_message := js "gone";
                                   error_code := Some (js "LEADERBOARD_NOT_FOUND") |})));
         SockClose 0 4000 [] (1 # 2)]
      (new defaults true) in
  reconnect s =
    (Throw (GLError (js "gone") (js "LEADERBOARD_NOT_FOUND") None), s) /\
  attempts (out (snd (reconnect dropped))) = attempts (out dropped) /\
  reconnectAttempts
    (snd (reconnect (run [Connect None None; SockClose 0 1006 [] (1 # 2)]
                       (new defaults true)))) = 0.
Proof.
  cbv zeta. split; [|split].
  - match goal with |- reconnect ?s = _ =>
      assert (Hc : isConnected s = false) by (vm_compute; reflexivity);
      assert (Hi : isConnecting s = false) by (vm_compute; reflexivity);
      destruct (reconnect_spec s Hc Hi) as (H & _ & _)
    end.
    apply H. vm_compute. reflexivity.
  - assert (Hc : isConnected dropped = false) by (vm_compute; reflexivity).
    assert (Hi : isConnecting dropped = false) by (vm_compute; reflexivity).
    assert (Hp : permanentError dropped = None) by (vm_compute; reflexivity).
    assert (Ho : isOnline dropped = false) by (vm_compute; reflexivity).
    destruct (reconnect_spec dropped Hc Hi) as (_ & H & _).
    destruct (H Hp) as [_ H']. rewrite (H' Ho). vm_compute. reflexivity.
  - match goal with |- reconnectAttempts (snd (reconnect ?s)) = _ =>
      assert (Hc : isConnected s = false) by (vm_compute; reflexivity);
      assert (Hi : isConnecting s = false) by (vm_compute; reflexivity);
      assert (Hp : permanentError s = None) by (vm_compute; reflexivity);
      assert (Ho : isOnline s = true) by (vm_compute; reflexivity);
      destruct (reconnect_spec s Hc Hi) as (_ & H & _)
    end.
    destruct (H Hp) as [H' _]. destruct (H' Ho) as (_ & H'' & _).
    exact H''.
Defined.

(** *** The delay of a scheduled reconnection *)

(** The jitter around a base delay [B] whose quarter [J] and whose
    bounds are doubles. *)
Lemma jitter_chain (B J r : Q) :
  (J == B * (1 # 4))%Q -> (0 < B)%Q ->
  Qeq_bool (Double.round (- J)) (- J) = true ->
  Qeq_bool (Double.round J) J = true ->
  Qeq_bool (Double.round (B * (3 # 4))) (B * (3 # 4)) = true ->
  Qeq_bool (Double.round (B * (5 # 4))) (B * (5 # 4)) = true ->
  Qle_bool (Double.pow2 1024) (B * (5 # 4)) = false ->
  (0 <= r)%Q -> (r < 1)%Q ->
  exists d,
    Double.Math_max (Double.Finite 0)
      (Double.add (Double.Finite B)
         (Double.mul
            (Double.mul
               (Double.sub (Double.Finite r) (Double.Finite (1 # 2)))
               (Double.Finite (inject_Z 2)))
            (Double.Finite J))) = Double.Finite d /\
    (B * (3 # 4) <= d)%Q /\ (d <= B * (5 # 4))%Q.
Proof.
  intros HJ HB R1 R2 R3 R4 Hbig Hr Hr1.
  apply Qeq_bool_iff in R1, R2, R3, R4.
  assert (Big : (B * (5 # 4) < Double.pow2 1024)%Q).
  { apply Qnot_le_lt. intros H. apply Qle_bool_iff in H. congruence. }
  assert (P1024 : (2 < Double.pow2 1024)%Q) by (vm_compute; reflexivity).
  assert (C1 : (Double.round (- (1 # 2)) == - (1 # 2))%Q)
    by (vm_compute; reflexivity).
  assert (C2 : (Double.round (1 # 2) == 1 # 2)%Q) by (vm_compute; reflexivity).
  assert (C3 : (Double.round (- (1)) == - (1))%Q) by (vm_compute; reflexivity).
  assert (C4 : (Double.round 1 == 1)%Q) by (vm_compute; reflexivity).
  unfold Double.sub, Double.opp, Double.add at 2.
  destruct (DoubleSpec.fl_between (- (1 # 2)) (1 # 2) (r + - (1 # 2)) C1 C2)
    as (y1 & E1 & L1 & U1); [lra|lra|split; lra|].
  rewrite E1. unfold Double.mul at 2.
  destruct (DoubleSpec.fl_between (- (1)) 1 (y1 * inject_Z 2) C3 C4)
    as (y2 & E2 & L2 & U2);
    [lra|lra|change (inject_Z 2) with 2%Q; split; lra|].
  rewrite E2. unfold Double.mul.
  assert (J0 : (0 < J)%Q) by (rewrite HJ; lra).
  assert (M1 : (- J <= y2 * J)%Q) by nra.
  assert (M2 : (y2 * J <= J)%Q) by nra.
  assert (JB : (J < Double.pow2 1024)%Q) by (rewrite HJ; lra).
  destruct (DoubleSpec.fl_between (- J) J (y2 * J) R1 R2)
    as (y3 & E3 & L3 & U3); [lra|lra|split; assumption|].
  rewrite E3. unfold Double.add.
  destruct (DoubleSpec.fl_between (B * (3 # 4)) (B * (5 # 4)) (B + y3) R3 R4)
    as (y4 & E4 & L4 & U4); [lra|lra|split; lra|].
  rewrite E4. exists y4. split; [|split; assumption].
  unfold Double.Math_max, Double.geb.
  replace (Qle_bool y4 0) with false; [reflexivity|].
  symmetry. destruct (Qle_bool y4 0) eqn:E; [|reflexivity].
  apply Qle_bool_iff in E. lra.
Qed.

(** With the default base delay, the delay of attempts 1 to 5 is a
    finite double within a quarter of the exponential backoff. *)
Lemma reconnect_delay_bounds (a : nat) (r : Q) :
  1 <= a <= 5 -> (0 <= r)%Q -> (r < 1)%Q ->
  let backoff := (inject_Z (2 ^ Z.of_nat (a - 1)) * inject_Z 1000)%Q in
  exists d,
    reconnect_delay (Some (Double.Finite (inject_Z 1000))) a r
      = Double.Finite d /\
    (backoff * (3 # 4) <= d)%Q /\ (d <= backoff * (5 # 4))%Q /\ (0 <= d)%Q.
Proof.
  intros Ha Hr Hr1. cbv zeta. unfold reconnect_delay. cbv zeta.
  assert (C : a = 1 \/ a = 2 \/ a = 3 \/ a = 4 \/ a = 5) by lia.
  destruct C as [->|[->|[->|[->| ->]]]];
    match goal with
    | |- context [Double.mul (Double.to_number ?d) (Double.Math_pow2 ?k)] =>
        let B := eval vm_compute in
          (match Double.mul (Double.to_number d) (Double.Math_pow2 k) with
           | Double.Finite q => q
           | _ => 0%Q
           end) in
        let J := eval vm_compute in
          (match Double.mul (Double.Finite B) (Double.Finite (1 # 4)) with
           | Double.Finite q => q
           | _ => 0%Q
           end) in
        replace (Double.mul (Double.to_number d) (Double.Math_pow2 k))
          with (Double.Finite B) by (vm_compute; reflexivity);
        replace (Double.mul (Double.Finite B) (Double.Finite (1 # 4)))
          with (Double.Finite J) by (vm_compute; reflexivity);
        destruct (jitter_chain B J r) as (d' & E & L & U);
        [vm_compute; reflexivity|vm_compute; reflexivity
        |vm_compute; reflexivity|vm_compute; reflexivity
        |vm_compute; reflexivity|vm_compute; reflexivity
        |vm_compute; reflexivity|assumption|assumption|];
        exists d'; split; [exact E|];
        assert (HB : (inject_Z (2 ^ Z.of_nat k) * inject_Z 1000 == B)%Q)
          by (vm_compute; reflexivity);
        rewrite HB; repeat split; lra
    end.
Qed.

(** C8.  When the scheduler sets up attempt [a] of 1..5 with a base
    delay of 1000 ms, for every value of the random source in [0,1) the
    delay, computed in double precision as the code computes it, is a
    finite number between [2^(a-1) * 1000 * 0.75] and
    [2^(a-1) * 1000 * 1.25] and not negative; the [onReconnecting]
    observer, when registered, is notified with the attempt, the maximum
    and the rounded delay, and this delay is the one handed to
    [setTimeout] for the retry, whose handle is remembered. *)
Theorem scheduleReconnect_delay (s : t) (a : nat) (random : Q) :
  1 <= a <= 5 ->
  isOnline s = true ->
  reconnectAttempts s + 1 = a ->
  Double.geb (Double.of_nat (reconnectAttempts s))
    (Double.to_number (maxReconnectAttempts (options s))) = false ->
  reconnectDelay (options s) = Some (Double.Finite (inject_Z 1000)) ->
  (0 <= random)%Q -> (random < 1)%Q ->
  let backoff := (inject_Z (2 ^ Z.of_nat (a - 1)) * inject_Z 1000)%Q in
  let s' := scheduleReconnect random s in
  exists delay : Q,
    reconnect_delay (reconnectDelay (options s)) a random
      = Double.Finite delay /\
    (backoff * (3 # 4) <= delay)%Q /\
    (delay <= backoff * (5 # 4))%Q /\
    (0 <= delay)%Q /\
    reconnectAttempts s' = a /\
    out s' =
      out s ++
      (if onReconnecting (handlers s)
       then [OnReconnecting a (maxReconnectAttempts (options s))
               (Double.Math_round (Double.Finite delay))]
       else []) ++
      [SetTimeout (nextTimer s) (Double.Finite delay)] /\
    timers s' = timers s ++ [(nextTimer s, ReconnectTimeout)] /\
    reconnectTimer s' = Some (nextTimer s).
Proof.
  intros Ha Ho Hn Hmax Hd Hr Hr1. cbv zeta.
  destruct (reconnect_delay_bounds a random Ha Hr Hr1)
    as (d & E & Hlo & Hhi & Hpos).
  exists d. rewrite Hd.
  split; [exact E|]. split; [exact Hlo|]. split; [exact Hhi|].
  split; [exact Hpos|].
  unfold scheduleReconnect. rewrite Ho, Hmax. cbn [negb].
  cbn [reconnectAttempts set_reconnectAttempts options handlers].
  rewrite Hn, Hd, E. unfold notify, setTimer, emit.
  destruct (onReconnecting (handlers s)); cbn;
    rewrite <- ?app_assoc; repeat split; reflexivity.
Qed.

(** The first attempt with the double [0.0029999999999999983] as the
    random value: the delay is 751.5 ms and the observer is given 752. *)
Lemma scheduleReconnect_delay_witness :
  out (scheduleReconnect random_near_0 (retrying 0)) =
    [OnReconnecting 1 (Some (Double.Finite (inject_Z 5)))
       (Double.Finite (inject_Z 752));
     SetTimeout 1 (Double.Finite (1503 # 2))].
Proof.
  destruct (scheduleReconnect_delay (retrying 0) 1 random_near_0)
    as (d & E & _ & _ & _ & _ & Hout & _);
    [lia|reflexivity|reflexivity|reflexivity|reflexivity|discriminate
    |reflexivity|].
  assert (E' : reconnect_delay (reconnectDelay (options (retrying 0))) 1
                 random_near_0 = Double.Finite (1503 # 2))
    by (vm_compute; reflexivity).
  rewrite E' in E. inversion E; subst d.
  rewrite Hout. vm_compute. reflexivity.
Defined.

(** *** Teardown *)

Lemma attempts_app l1 l2 : attempts (l1 ++ l2) = attempts l1 ++ attempts l2.
Proof. apply filter_app. Qed.

Lemma timers_socket_close i c s : timers (socket_close i c s) = timers s.
Proof.
  unfold socket_close. destruct (readyStateOf i _) as [[]|]; reflexivity.
Qed.

Lemma filter_none {A : Type} (f : A -> bool) l :
  (forall x, In x l -> f x = false) -> filter f l = [].
Proof.
  induction l as [|x l IH]; simpl; intros H; [reflexivity|].
  rewrite (H x) by now left. apply IH. intros y Hy. apply H. now right.
Qed.

Lemma timers_cleanup s :
  timers (cleanup s) =
  filter
    (fun p => match pingInterval s with
              | Some id => negb (fst p =? id)
              | None => true
              end)
    (filter
       (fun p => match reconnectTimer s with
                 | Some id => negb (fst p =? id)
                 | None => true
                 end)
       (timers s)).
Proof.
  assert (T : forall l : list (nat * Timer), filter (fun _ => true) l = l).
  { induction l as [|x l IH]; simpl; congruence. }
  unfold cleanup. cbn [timers set_isConnecting].
  match goal with
  | |- timers (match ?w with Some i => _ | None => ?s2 end) = _ =>
      assert (E : timers (match w with
                          | Some i => set_ws None (socket_close i None s2)
                          | None => s2
                          end) = timers s2)
        by (destruct w; [apply timers_socket_close|reflexivity]);
      rewrite E; clear E
  end.
  unfold stopPingInterval, clearTimer.
  destruct (reconnectTimer s) as [r|]; cbn;
    destruct (pingInterval s) as [p|]; cbn; rewrite ?T; reflexivity.
Qed.

Lemma cleanup_clears_tracked s :
  tracked s -> timers (cleanup s) = [].
Proof.
  intros Ht. rewrite timers_cleanup, OfflineQueueSpec.filter_filter.
  apply filter_none. intros [id k] Hx. cbn [fst].
  destruct (Ht id k Hx) as [H|H]; rewrite H, Nat.eqb_refl; cbn.
  - reflexivity.
  - apply andb_false_r.
Qed.

Lemma onclose_quiet c r x s :
  timers s = [] -> shouldReconnect s = false ->
  timers (onclose c r x s) = [] /\ shouldReconnect (onclose c r x s) = false /\
  attempts (out (onclose c r x s)) = attempts (out s).
Proof.
  intros Ht Hs. unfold onclose.
  set (s1 := stopPingInterval (set_isConnecting false s)).
  assert (H1 : timers s1 = [] /\ shouldReconnect s1 = false /\ out s1 = out s).
  { subst s1. unfold stopPingInterval, clearTimer.
    cbn [pingInterval set_isConnecting].
    destruct (pingInterval s); cbn; rewrite ?Ht; auto. }
  destruct H1 as (T1 & S1 & O1).
  set (s2 := notify (onDisconnect (handlers s1)) (OnDisconnect c r) s1).
  assert (H2 : timers s2 = [] /\ shouldReconnect s2 = false /\
               attempts (out s2) = attempts (out s)).
  { subst s2. unfold notify, emit. destruct (onDisconnect (handlers s1)); cbn.
    - rewrite T1, S1, O1, attempts_app. cbn. rewrite app_nil_r. auto.
    - rewrite O1. auto. }
  destruct H2 as (T2 & S2 & O2). rewrite S2. auto.
Qed.

(** Once no timer is pending and reconnection is off, timers and close
    events start no connection. *)
Lemma passive_step_quiet a s :
  passive a = true -> timers s = [] -> shouldReconnect s = false ->
  timers (step a s) = [] /\ shouldReconnect (step a s) = false /\
  attempts (out (step a s)) = attempts (out s).
Proof.
  intros Ha Ht Hs. destruct a; try discriminate; cbn [step].
  - destruct (readyStateOf sock s) as [[]|]; auto;
      apply (onclose_quiet code reason random (set_readyState sock CLOSED s));
      assumption.
  - rewrite Ht. cbn. auto.
Qed.

Lemma passive_run_quiet l : forall s,
  Forall (fun a => passive a = true) l ->
  timers s = [] -> shouldReconnect s = false ->
  attempts (out (run l s)) = attempts (out s).
Proof.
  induction l as [|a l IH]; intros s Hl Ht Hs; [reflexivity|].
  inversion Hl as [|? ? Ha Hl']; subst.
  destruct (passive_step_quiet a s Ha Ht Hs) as (Ht' & Hs' & Ho).
  cbn [run fold_left]. fold (run l (step a s)).
  rewrite IH; assumption.
Qed.

(** X24.  When every pending timer is one the client holds the handle
    of, [disconnect()] leaves no timer pending, and whatever timers fire
    and sockets close afterwards, no connection is attempted. *)
Lemma disconnect_tracked (s : t) (l : list Action) :
  tracked s -> Forall (fun a => passive a = true) l ->
  timers (disconnect s) = [] /\
  attempts (out (run l (disconnect s))) = attempts (out (disconnect s)).
Proof.
  intros Ht Hl.
  assert (T : timers (disconnect s) = []).
  { unfold disconnect. apply cleanup_clears_tracked.
    intros id k H. exact (Ht id k H). }
  split; [exact T|]. apply passive_run_quiet; [exact Hl|exact T|].
  unfold disconnect, cleanup, stopPingInterval, socket_close, emit.
  repeat match goal with
         | |- context [match ?x with _ => _ end] => destruct x; cbn
         end; reflexivity.
Qed.

(** C7 fails on the code.  [scheduleReconnect] overwrites the handle of
    a reconnect timer that is still pending when a second one is
    scheduled, and [cleanup] clears only the handle it holds.  After the
    trace of [torn_down], which ends with [disconnect()], the first timer
    is still pending although the client holds no handle and reconnection
    is off; when it fires, [connect()] creates a third socket. *)
Theorem disconnect_stale_timer :
  pendingReconnects torn_down = [(1, ReconnectTimeout)] /\
  reconnectTimer torn_down = None /\
  pendingPings torn_down = [] /\
  shouldReconnect torn_down = false /\
  attempts (out torn_down) = [NewSocket 0 None None; NewSocket 1 None None] /\
  attempts (out (step (TimerFire 1 0) torn_down)) =
    [NewSocket 0 None None; NewSocket 1 None None; NewSocket 2 None None].
Proof. repeat split; vm_compute; reflexivity. Qed.

(** *** Permanent errors and reconnection *)

Ltac break_match :=
  match goal with
  | |- context [match ?x with _ => _ end] => destruct x eqn:?
  end.

Ltac same_flags := unfold flags; repeat (cbn; try break_match); reflexivity.

Lemma flags_emit o s : flags (emit o s) = flags s.
Proof. reflexivity. Qed.

Lemma flags_notify b o s : flags (notify b o s) = flags s.
Proof. destruct b; reflexivity. Qed.

Lemma flags_handleError e s : flags (handleError e s) = flags s.
Proof. apply flags_notify. Qed.

Lemma flags_clearTimer id s : flags (clearTimer id s) = flags s.
Proof. reflexivity. Qed.

Lemma flags_socket_close i c s : flags (socket_close i c s) = flags s.
Proof. unfold socket_close. same_flags. Qed.

Lemma flags_stopPingInterval s : flags (stopPingInterval s) = flags s.
Proof. unfold stopPingInterval. same_flags. Qed.

Lemma flags_startPingInterval s : flags (startPingInterval s) = flags s.
Proof. unfold startPingInterval, stopPingInterval. same_flags. Qed.

Lemma flags_send f s : flags (snd (send f s)) = flags s.
Proof. unfold send. same_flags. Qed.

Lemma flags_subscribe l u s : flags (snd (subscribe l u s)) = flags s.
Proof.
  unfold subscribe. destruct (negb (isConnected s)); [reflexivity|].
  pose proof (flags_send (f_subscribe l u) s) as H.
  destruct (send (f_subscribe l u) s) as [[a|e] s1]; exact H.
Qed.

Lemma flags_unsubscribe l s : flags (snd (unsubscribe l s)) = flags s.
Proof.
  unfold unsubscribe. destruct (negb (isConnected s)); [reflexivity|].
  pose proof (flags_send (f_unsubscribe l) s) as H.
  destruct (send (f_unsubscribe l) s) as [[a|e] s1]; exact H.
Qed.

Lemma flags_resubscribe c l : forall s,
  flags (snd (resubscribe c l s)) = flags s.
Proof.
  induction l as [|x l IH]; intros s; cbn [resubscribe]; [reflexivity|].
  destruct (match c with Some c0 => negb (jseqb x c0) | None => true end);
    [|apply IH].
  pose proof (flags_subscribe x None s) as H.
  destruct (subscribe x None s) as [[u|e] s1]; cbn [snd] in *.
  - now rewrite IH.
  - exact H.
Qed.

Lemma flags_onopen s : flags (snd (onopen s)) = flags s.
Proof.
  unfold onopen. rewrite flags_resubscribe, flags_notify,
    flags_startPingInterval. reflexivity.
Qed.

Lemma flags_scheduleReconnect r s : flags (scheduleReconnect r s) = flags s.
Proof.
  unfold scheduleReconnect.
  destruct (negb (isOnline s)); [reflexivity|].
  destruct (Double.geb _ _); [apply flags_handleError|].
  unfold setTimer.
  match goal with
  | |- flags (set_reconnectTimer _
                (emit _ (set_nextTimer _ (set_timers _ ?x)))) = _ =>
      change (flags x = flags s)
  end.
  now rewrite flags_notify.
Qed.

Lemma flags_ping_callback s : flags (ping_callback s) = flags s.
Proof.
  unfold ping_callback. destruct (isConnected s); [apply flags_send|reflexivity].
Qed.

Lemma flags_handleOffline s : flags (handleOffline s) = flags s.
Proof. unfold handleOffline. same_flags. Qed.

Lemma flags_inv s s' :
  flags s' = flags s -> permanent_stops_reconnect s ->
  permanent_stops_reconnect s'.
Proof.
  unfold flags, permanent_stops_reconnect. intros H. inversion H as [[H1 H2]].
  now rewrite H1, H2.
Qed.

Lemma inv_connect l u s :
  permanent_stops_reconnect s -> permanent_stops_reconnect (connect l u s).
Proof.
  intros H. unfold connect.
  destruct (isConnected s || isConnecting s); [exact H|].
  unfold permanent_stops_reconnect, handleError, notify, emit.
  repeat (cbn; try break_match); intros E; now elim E.
Qed.

Lemma inv_disconnect s : permanent_stops_reconnect (disconnect s).
Proof.
  unfold permanent_stops_reconnect, disconnect, cleanup, stopPingInterval,
    socket_close, emit.
  repeat (cbn; try break_match); reflexivity.
Qed.

Lemma inv_handleMessage m s :
  permanent_stops_reconnect s ->
  permanent_stops_reconnect (snd (handleMessage m s)).
Proof.
  intros H.
  assert (H0 : permanent_stops_reconnect
                 (notify (onMessage (handlers s)) (OnMessage m) s))
    by (eapply flags_inv; [apply flags_notify|exact H]).
  unfold handleMessage. destruct m as [| |[b|]| | | | | |]; cbn [snd];
    try (eapply flags_inv; [|exact H0]; apply flags_notify);
    try exact H0.
  - eapply flags_inv; [apply flags_handleError|].
    destruct (existsb _ permanentErrors); [|exact H0].
    unfold permanent_stops_reconnect, socket_close, emit.
    repeat (cbn; try break_match); reflexivity.
  - eapply flags_inv; [apply flags_send|exact H0].
Qed.

Lemma inv_onmessage d s :
  permanent_stops_reconnect s -> permanent_stops_reconnect (onmessage d s).
Proof.
  intros H. unfold onmessage. destruct d as [|m].
  - eapply flags_inv; [apply flags_handleError|exact H].
  - pose proof (inv_handleMessage m s H) as H'.
    destruct (handleMessage m s) as [[u|e] s1]; cbn [snd] in H';
      [exact H'|].
    eapply flags_inv; [apply flags_handleError|exact H'].
Qed.

Lemma inv_onclose c r x s :
  permanent_stops_reconnect s -> permanent_stops_reconnect (onclose c r x s).
Proof.
  intros H. unfold onclose.
  set (s2 := notify _ _ _).
  assert (F : flags s2 = flags s).
  { subst s2. rewrite flags_notify, flags_stopPingInterval. reflexivity. }
  destruct (shouldReconnect s2).
  - eapply flags_inv; [|exact H]. now rewrite flags_scheduleReconnect.
  - eapply flags_inv; eassumption.
Qed.

Lemma inv_reconnect s :
  permanent_stops_reconnect s -> permanent_stops_reconnect (snd (reconnect s)).
Proof.
  intros H. unfold reconnect.
  destruct (isConnected s || isConnecting s); [exact H|].
  destruct (permanentError s) eqn:E; [exact H|].
  assert (H1 : permanent_stops_reconnect
                 (set_shouldReconnect true (set_reconnectAttempts 0 s))).
  { unfold permanent_stops_reconnect. cbn. rewrite E. intros N. now elim N. }
  destruct (negb _); cbn [snd]; [exact H1|now apply inv_connect].
Qed.

Lemma inv_handleOnline s :
  permanent_stops_reconnect s -> permanent_stops_reconnect (handleOnline s).
Proof.
  intros H. unfold handleOnline.
  assert (H1 : permanent_stops_reconnect (set_isOnline true s)) by exact H.
  destruct (permanentError _); [exact H1|].
  destruct (_ && _); [now apply inv_connect|exact H1].
Qed.

Lemma inv_step a s :
  permanent_stops_reconnect s -> permanent_stops_reconnect (step a s).
Proof.
  intros H. destruct a; cbn [step].
  - now apply inv_connect.
  - apply inv_disconnect.
  - eapply flags_inv; [apply flags_subscribe|exact H].
  - eapply flags_inv; [apply flags_unsubscribe|exact H].
  - now apply inv_reconnect.
  - exact H.
  - destruct (readyStateOf sock s) as [[]|]; try exact H.
    eapply flags_inv; [apply flags_onopen|exact H].
  - destruct (readyStateOf sock s) as [[]|]; try exact H;
      now apply inv_onmessage.
  - destruct (readyStateOf sock s) as [[]|]; try exact H;
      (eapply flags_inv; [apply flags_handleError|exact H]).
  - destruct (readyStateOf sock s) as [[]|]; try exact H;
      apply inv_onclose; exact H.
  - destruct (find _ (timers s)) as [[i []]|]; try exact H.
    + unfold reconnect_callback.
      destruct (isOnline _).
      * apply inv_connect. exact H.
      * eapply flags_inv; [apply flags_scheduleReconnect|exact H].
    + eapply flags_inv; [apply flags_ping_callback|exact H].
  - now apply inv_handleOnline.
  - eapply flags_inv; [apply flags_handleOffline|exact H].
Qed.

(** C5.  In every state that a client reaches from its construction,
    under any sequence of calls of [connect], [reconnect], [disconnect],
    [subscribe], [unsubscribe] and [on], socket events, timers and
    network changes, a stored permanent error means that reconnection is
    switched off. *)
Theorem permanent_error_stops_reconnect (o : Options) (online : bool)
    (l : list Action) :
  permanentError (run l (new o online)) <> None ->
  shouldReconnect (run l (new o online)) = false.
Proof.
  assert (H : forall l s, permanent_stops_reconnect s ->
                          permanent_stops_reconnect (run l s)).
  { clear l. induction l as [|a l IH]; intros s Hs; [exact Hs|].
    cbn [run fold_left]. apply (IH (step a s)). now apply inv_step. }
  apply H. intros N. now elim N.
Qed.

(** After a permanent error closed the socket, reconnection is off even
    though the application went on to subscribe and the network came
    back. *)
Lemma permanent_error_stops_reconnect_witness :
  shouldReconnect
    (run [Connect (Some (js "L")) None; SockOpen 0;
          SockMessage 0
            (Parsed (error (Some {| error_message := js "denied";
                                    error_code := Some (js "INVALID_API_KEY") |})));
          SockClose 0 4000 [] (1 # 2); NetOffline; NetOnline;
          TimerFire 1 0]
       (new defaults true)) = false.
Proof.
  apply permanent_error_stops_reconnect. vm_compute. discriminate.
Defined.
End WebSocketSpec.

(** * Properties of more of the code *)

(** ** The offline queue under any sequence of calls *)

Module QueueOpsSpec.
Import OfflineQueue OfflineQueueSpec QueueOps Samples.

Lemma jseqb_false_iff_local (a b : jsstring) : a <> b -> jseqb a b = false.
Proof.
  unfold jseqb. destruct (list_eq_dec N.eq_dec a b); congruence.
Qed.

Lemma queue_markFailed_shape id permanent s :
  (exists X, queue (markFailed id permanent s) = filter (keep X) (queue s)) \/
  queue (markFailed id permanent s) = bump_first id (queue s).
Proof.
  unfold markFailed. destruct (find _ (queue s)) as [op|].
  - destruct permanent.
    + left. exists [id]. cbn. apply filter_ext. intros o. unfold keep. simpl.
      now rewrite orb_false_r.
    + right. reflexivity.
  - left. exists []. symmetry. apply filter_true. intros. apply keep_nil.
Qed.

Lemma length_bump_first id q : length (bump_first id q) = length q.
Proof.
  induction q as [|o q IH]; simpl; [reflexivity|].
  destruct (jseqb (queueId o) id); simpl; congruence.
Qed.

Lemma ids_bump_first id q : map queueId (bump_first id q) = map queueId q.
Proof.
  induction q as [|o q IH]; simpl; [reflexivity|].
  destruct (jseqb (queueId o) id); simpl; congruence.
Qed.

Lemma length_filter_le {A : Type} (p : A -> bool) l :
  length (filter p l) <= length l.
Proof.
  induction l as [|a l IH]; simpl; [lia|]. destruct (p a); simpl; lia.
Qed.

Lemma size_call c s :
  size s <= MAX_QUEUE_SIZE -> size (call c s) <= MAX_QUEUE_SIZE.
Proof.
  unfold size. intros H. destruct c as [u now m p|ids|id perm|now|]; cbn [call].
  - unfold enqueue. destruct (MAX_QUEUE_SIZE <=? length (queue s)) eqn:E.
    + exact H.
    + apply Nat.leb_gt in E. cbn. rewrite length_app. simpl. lia.
  - cbn. etransitivity; [apply length_filter_le|exact H].
  - destruct (queue_markFailed_shape id perm s) as [[X E]|E]; rewrite E.
    + etransitivity; [apply length_filter_le|exact H].
    + now rewrite length_bump_first.
  - unfold batchOperations. cbn [snd]. rewrite queue_cleanExpiredItems.
    etransitivity; [apply length_filter_le|exact H].
  - cbn. lia.
Qed.

(** X1.  However [enqueue], [removeProcessed], [markFailed],
    [batchOperations] and [clear] are called, a queue that holds at most
    1000 operations never holds more. *)
Theorem size_bounded (l : list Call) (s : t) :
  size s <= MAX_QUEUE_SIZE -> size (calls l s) <= MAX_QUEUE_SIZE.
Proof.
  revert s. induction l as [|c l IH]; intros s H; [exact H|].
  cbn [calls fold_left]. apply (IH (call c s)). now apply size_call.
Qed.

Lemma size_bounded_witness :
  size (calls [c_enqueue (js "x") 0 Method.submit sample_params; c_clear;
               c_enqueue (js "y") 1 Method.submit sample_params] full)
  <= MAX_QUEUE_SIZE.
Proof.
  apply size_bounded. unfold size, full, MAX_QUEUE_SIZE. cbn [queue].
  rewrite repeat_length. lia.
Defined.

Lemma NoDup_call c s :
  NoDup (map queueId (queue s)) ->
  match c with
  | c_enqueue ulid _ _ _ => ~ In ulid (map queueId (queue s))
  | _ => True
  end ->
  NoDup (map queueId (queue (call c s))).
Proof.
  intros H Hf. destruct c as [u now m p|ids|id perm|now|]; cbn [call].
  - unfold enqueue. destruct (MAX_QUEUE_SIZE <=? length (queue s)); [exact H|].
    cbn. rewrite map_app. simpl.
    apply NoDup_app; [exact H|repeat constructor; intros []|].
    intros x Hx [<-|[]]. contradiction.
  - cbn. now apply OfflineQueueSpec.NoDup_map_filter.
  - destruct (queue_markFailed_shape id perm s) as [[X E]|E]; rewrite E.
    + now apply OfflineQueueSpec.NoDup_map_filter.
    + now rewrite ids_bump_first.
  - unfold batchOperations. cbn [snd]. rewrite queue_cleanExpiredItems.
    now apply OfflineQueueSpec.NoDup_map_filter.
  - cbn. constructor.
Qed.

(** X2.  When every [enqueue] is given an id that is not in the queue at
    that moment, the ids of the queued operations stay pairwise distinct
    under any sequence of calls. *)
Theorem ids_distinct (l : list Call) (s : t) :
  NoDup (map queueId (queue s)) -> ids_fresh l s ->
  NoDup (map queueId (queue (calls l s))).
Proof.
  revert s. induction l as [|c l IH]; intros s H Hf; [exact H|].
  destruct Hf as [Hc Hl]. cbn [calls fold_left].
  apply (IH (call c s)); [|exact Hl]. now apply NoDup_call.
Qed.

Lemma ids_distinct_witness :
  NoDup
    (map queueId
       (queue (calls [c_enqueue (js "a") 0 Method.submit sample_params;
                      c_enqueue (js "b") 1 Method.submit sample_params;
                      c_markFailed (js "a") false;
                      c_removeProcessed [js "b"]] empty))).
Proof.
  apply ids_distinct.
  - constructor.
  - vm_compute. repeat split; intuition discriminate.
Defined.

Lemma stored_after_app init l1 l2 :
  stored_after init (l1 ++ l2) = stored_after (stored_after init l1) l2.
Proof.
  revert init. induction l1 as [|e l1 IH]; intros init; [reflexivity|].
  destruct e as [q|ev|]; simpl; apply IH.
Qed.

Lemma stored_call init c s :
  stored_after init (effects s) = queue s ->
  stored_after init (effects (call c s)) = queue (call c s).
Proof.
  intros H. destruct c as [u now m p|ids|id perm|now|]; cbn [call].
  - unfold enqueue. destruct (MAX_QUEUE_SIZE <=? length (queue s)); [exact H|].
    cbn. rewrite <- app_assoc, stored_after_app. reflexivity.
  - cbn. now rewrite stored_after_app.
  - unfold markFailed. destruct (find _ (queue s)) as [op|]; [|exact H].
    destruct perm; cbn.
    + rewrite <- app_assoc, stored_after_app. reflexivity.
    + now rewrite stored_after_app.
  - unfold batchOperations, cleanExpiredItems. cbn [snd].
    destruct (_ <? _) eqn:E.
    + cbn. now rewrite stored_after_app.
    + cbn [queue set_queue effects]. rewrite H.
      apply Nat.ltb_ge in E. cbn [queue set_queue] in E.
      clear -E. induction (queue s) as [|o q IH]; simpl in *; [reflexivity|].
      destruct (_ <? _)%Z; simpl in *.
      * f_equal. apply IH. lia.
      * pose proof (length_filter_le
          (fun op => (now - timestamp op <? QUEUE_TTL_MS)%Z) q). lia.
  - cbn. now rewrite stored_after_app.
Qed.

(** Memory and storage stay in step under calls that run to completion:
    if the adapter holds the queue before, and accepts every write, it
    holds the queue after any sequence of such calls. *)
Theorem storage_in_step (init : list QueuedOperation) (l : list Call) (s : t) :
  stored_after init (effects s) = queue s ->
  stored_after init (effects (calls l s)) = queue (calls l s).
Proof.
  revert s. induction l as [|c l IH]; intros s H; [exact H|].
  cbn [calls fold_left]. apply (IH (call c s)). now apply stored_call.
Qed.

Lemma storage_in_step_witness :
  let s := calls [c_enqueue (js "a") 0 Method.submit sample_params;
                  c_enqueue (js "b") 1 Method.submit sample_params;
                  c_markFailed (js "a") true;
                  c_batchOperations 86400000] empty in
  stored_after [] (effects s) = queue s.
Proof. cbv zeta. apply storage_in_step. reflexivity. Defined.

(** X4.  Expiry cleaning, at the start of [batchOperations] and in
    [loadQueue], keeps exactly the operations younger than 24 hours, in
    their order.  A queue without expired operations is left as it is,
    with nothing written; otherwise the shorter queue is persisted once. *)
Theorem expiry_cleaning (now : Z) (s : t) (loaded : list QueuedOperation) :
  let s' := snd (batchOperations now s) in
  queue s' = filter (fresh now) (queue s) /\
  Forall (fun op => (now - timestamp op < QUEUE_TTL_MS)%Z) (queue s') /\
  (Forall (fun op => (now - timestamp op < QUEUE_TTL_MS)%Z) (queue s) ->
   s' = s) /\
  (Exists (fun op => (QUEUE_TTL_MS <= now - timestamp op)%Z) (queue s) ->
   effects s' = effects s ++ [Persist (queue s')]) /\
  queue (loadQueue (Some loaded) now s) = filter (fresh now) loaded /\
  queue (loadQueue None now s) = [].
Proof.
  cbv zeta. unfold batchOperations, loadQueue. cbn [snd].
  rewrite !queue_cleanExpiredItems. split; [reflexivity|].
  split; [|split; [|split; [|split; reflexivity]]].
  - apply Forall_forall. intros op H. apply filter_In in H.
    destruct H as [_ H]. now apply Z.ltb_lt in H.
  - intros H. unfold cleanExpiredItems.
    assert (E : filter (fun op => (now - timestamp op <? QUEUE_TTL_MS)%Z)
                  (queue s) = queue s).
    { apply filter_true. intros x Hx. rewrite Forall_forall in H.
      apply Z.ltb_lt. now apply H. }
    cbn [queue set_queue]. rewrite E, Nat.ltb_irrefl.
    destruct s; reflexivity.
  - intros H. unfold cleanExpiredItems. cbn [queue set_queue].
    assert (E : length (filter (fun op => (now - timestamp op <? QUEUE_TTL_MS)%Z)
                          (queue s)) < length (queue s)).
    { clear -H. induction H as [o q Ho|o q Ho IH]; simpl.
      - apply Z.ltb_ge in Ho. rewrite Ho.
        pose proof (length_filter_le
          (fun op => (now - timestamp op <? QUEUE_TTL_MS)%Z) q). lia.
      - destruct (_ <? _)%Z; simpl; lia. }
    apply Nat.ltb_lt in E. rewrite E. reflexivity.
Qed.

Lemma expiry_cleaning_witness :
  snd (batchOperations 10 (queue3)) = queue3 /\
  queue (snd (batchOperations 86400000 (queue3))) = [].
Proof.
  split.
  - destruct (expiry_cleaning 10 (queue3) [])
      as (_ & _ & H & _).
    apply H. unfold queue3. cbn [GlobalLeaderboards.offlineQueue client3 queue].
    repeat constructor.
  - destruct (expiry_cleaning 86400000 (queue3) [])
      as (H & _).
    rewrite H. vm_compute. reflexivity.
Defined.

Lemma mset_mset {V : Type} k (v v' : V) m :
  mset k v (mset k v' m) = mset k v m.
Proof.
  induction m as [|[k' w] m IH]; simpl.
  - now rewrite jseqb_refl.
  - destruct (jseqb k k') eqn:E; simpl; rewrite E; [reflexivity|].
    now rewrite IH.
Qed.

Lemma Forall_mset {V : Type} (P : V -> Prop) k v (m : JsMap V) :
  Forall (fun b => P (snd b)) m -> P v ->
  Forall (fun b => P (snd b)) (mset k v m).
Proof.
  induction m as [|[k' w] m IH]; simpl; intros H Hv.
  - repeat constructor. exact Hv.
  - inversion H; subst. destruct (jseqb k k'); constructor; auto.
Qed.

Lemma mget_Forall {V : Type} (P : V -> Prop) k v (m : JsMap V) :
  Forall (fun b => P (snd b)) m -> mget k m = Some v -> P v.
Proof.
  induction m as [|[k' w] m IH]; simpl; intros H E; [discriminate|].
  inversion H; subst. destruct (jseqb k k'); [now inversion E; subst|auto].
Qed.

Lemma group_op_nonempty m op :
  Forall (fun b => snd b <> []) m ->
  Forall (fun b : jsstring * list QueuedOperation => snd b <> [])
    (group_op m op).
Proof.
  intros H. unfold group_op.
  destruct (Method.eqb (method op) Method.submit && _).
  - set (key := or_else _ _).
    destruct (mhas key m) eqn:E.
    + destruct (mget key m) as [ops|]; [|exact H].
      apply (Forall_mset (fun v => v <> [])); [exact H|]. now destruct ops.
    + rewrite mget_mset_same, mset_mset.
      apply (Forall_mset (fun v => v <> [])); [exact H|discriminate].
  - destruct (Method.eqb (method op) Method.submitBulk); [|exact H].
    apply (Forall_mset (fun v => v <> [])); [exact H|discriminate].
Qed.

Lemma split_loop_sizes fuel key ops : forall i limited,
  Forall (fun b => 1 <= length (snd b) <= MAX_BATCH_SIZE) limited ->
  Forall (fun b => 1 <= length (snd b) <= MAX_BATCH_SIZE)
    (split_loop fuel key ops i limited).
Proof.
  induction fuel as [|fuel IH]; intros i limited H; simpl; [exact H|].
  destruct (i <? length ops) eqn:E; [|exact H].
  apply Nat.ltb_lt in E. apply IH.
  apply (Forall_mset (fun v => 1 <= length v <= MAX_BATCH_SIZE)); [exact H|].
  unfold slice. rewrite length_firstn, length_skipn. unfold MAX_BATCH_SIZE. lia.
Qed.

(** The first loop makes no empty group. *)
Lemma groups_nonempty q : forall m,
  Forall (fun b : jsstring * list QueuedOperation => snd b <> []) m ->
  Forall (fun b : jsstring * list QueuedOperation => snd b <> [])
    (fold_left group_op q m).
Proof.
  induction q as [|op q IH]; intros m H; [exact H|].
  simpl. apply IH. now apply group_op_nonempty.
Qed.

(** The second loop stores groups of 1 to 100 operations only. *)
Lemma limit_sizes gs : forall limited,
  Forall (fun b : jsstring * list QueuedOperation => snd b <> []) gs ->
  Forall (fun b => 1 <= length (snd b) <= MAX_BATCH_SIZE) limited ->
  Forall (fun b => 1 <= length (snd b) <= MAX_BATCH_SIZE)
    (fold_left limit_group gs limited).
Proof.
  induction gs as [|[key ops] gs IH]; intros limited Hg H; [exact H|].
  inversion Hg as [|? ? Hne Hg']; subst. simpl in Hne.
  cbn [fold_left]. apply IH; [exact Hg'|].
  unfold limit_group. destruct (MAX_BATCH_SIZE <? length ops) eqn:E.
  - now apply split_loop_sizes.
  - apply Nat.ltb_ge in E.
    apply (Forall_mset (fun v => 1 <= length v <= MAX_BATCH_SIZE));
      [exact H|].
    destruct ops; [congruence|simpl in *; lia].
Qed.

(** X5.  Whatever the queue holds, every batch that [batchOperations]
    returns has at least one and at most 100 operations. *)
Theorem batch_sizes (now : Z) (s : t) :
  Forall (fun b => 1 <= length (snd b) <= MAX_BATCH_SIZE)
    (fst (batchOperations now s)).
Proof.
  unfold batchOperations. cbn [fst].
  apply limit_sizes; [|constructor].
  apply groups_nonempty. constructor.
Qed.

(** X6.  With distinct queue ids, no operation is in two batches or twice
    in one, and every batched operation is an unexpired operation of the
    queue that is either a [submit] with a leaderboard id or a
    [submitBulk]. *)
Theorem batches_disjoint (now : Z) (s : t) :
  NoDup (map queueId (queue s)) ->
  NoDup (map queueId (vals (fst (batchOperations now s)))) /\
  (forall op, In op (vals (fst (batchOperations now s))) ->
     In op (queue s) /\ (now - timestamp op < QUEUE_TTL_MS)%Z /\
     batchable op = true).
Proof.
  intros H. pose proof (batches_sub now s) as Hsub.
  assert (Hq : queue (snd (batchOperations now s)) = filter (fresh now) (queue s)).
  { unfold batchOperations. cbn [snd]. apply queue_cleanExpiredItems. }
  rewrite Hq in Hsub. split.
  - eapply subperm_NoDup; [apply subperm_map, Hsub|].
    now apply OfflineQueueSpec.NoDup_map_filter.
  - intros op Hop. pose proof (subperm_In _ _ _ Hsub Hop) as Hin.
    apply filter_In in Hin. destruct Hin as [Hin Hf].
    split; [exact Hin|]. split; [now apply Z.ltb_lt|].
    eapply batches_batchable, Hop.
Qed.

Lemma batches_disjoint_witness :
  NoDup (map queueId (vals (fst (batchOperations 10 (queue3))))).
Proof.
  apply batches_disjoint. vm_compute.
  repeat constructor; simpl; intuition discriminate.
Defined.

Lemma bump_first_map id q :
  NoDup (map queueId q) ->
  bump_first id q =
  map (fun o => if jseqb (queueId o) id then retried o else o) q.
Proof.
  induction q as [|o q IH]; simpl; intros H; [reflexivity|].
  inversion H as [|? ? Hn Hd]; subst.
  destruct (jseqb (queueId o) id) eqn:E.
  - f_equal. apply jseqb_true_iff in E. subst id.
    symmetry. rewrite <- (map_id q) at 2. apply map_ext_in.
    intros a Ha. destruct (jseqb (queueId a) (queueId o)) eqn:E'; [|reflexivity].
    apply jseqb_true_iff in E'. exfalso. apply Hn. rewrite <- E'.
    now apply in_map.
  - f_equal. now apply IH.
Qed.

(** X7.  A failure that is not permanent: when an operation with the id
    is queued (ids being distinct), [markFailed(id)] counts one more retry
    on that operation and changes nothing else in the queue, persists it
    and emits no event; when no operation has the id, nothing happens at
    all, not even a write. *)
Theorem markFailed_transient (id : jsstring) (s : t) :
  NoDup (map queueId (queue s)) ->
  (In id (map queueId (queue s)) ->
     queue (markFailed id false s) =
       map (fun o => if jseqb (queueId o) id then retried o else o) (queue s) /\
     effects (markFailed id false s) =
       effects s ++ [Persist (queue (markFailed id false s))]) /\
  (~ In id (map queueId (queue s)) -> markFailed id false s = s).
Proof.
  intros Hd. unfold markFailed. split; intros H.
  - destruct (find _ (queue s)) as [op|] eqn:E.
    + cbn. rewrite bump_first_map by assumption. split; reflexivity.
    + exfalso. apply in_map_iff in H. destruct H as [o [Ho Hin]].
      eapply find_none in E; [|exact Hin]. rewrite Ho, jseqb_refl in E.
      discriminate.
  - destruct (find _ (queue s)) as [op|] eqn:E; [|reflexivity].
    apply find_queueId in E. destruct E as [Hin E]. exfalso. apply H.
    rewrite <- E. now apply in_map.
Qed.

Lemma markFailed_transient_witness :
  map retryCount (queue (markFailed (js "b") false (queue3)))
    = [0; 1; 0] /\
  markFailed (js "zz") false (queue3) = queue3.
Proof.
  assert (Hd : NoDup (map queueId (queue (queue3)))).
  { vm_compute. repeat constructor; simpl; intuition discriminate. }
  destruct (markFailed_transient (js "b") (queue3) Hd)
    as [H _].
  destruct (markFailed_transient (js "zz") (queue3) Hd)
    as [_ H'].
  split.
  - destruct H as [H _].
    + vm_compute. right. left. reflexivity.
    + rewrite H. vm_compute. reflexivity.
  - apply H'. vm_compute. intuition discriminate.
Defined.


End QueueOpsSpec.

(** ** The hash of the API key *)

Module HashSpec.
Import QueueOps.

Lemma ToInt32_shift (a : Z) : exists k, ToInt32 a = (a + k * 2 ^ 32)%Z.
Proof.
  unfold ToInt32. exists (- ((a + 2 ^ 31) / 2 ^ 32))%Z.
  pose proof (Z.div_mod (a + 2 ^ 31) (2 ^ 32)) as H. lia.
Qed.

Lemma ToInt32_congr (a b k : Z) :
  a = (b + k * 2 ^ 32)%Z -> ToInt32 a = ToInt32 b.
Proof.
  intros ->. unfold ToInt32.
  replace (b + k * 2 ^ 32 + 2 ^ 31)%Z with (b + 2 ^ 31 + k * 2 ^ 32)%Z by lia.
  now rewrite Z_mod_plus_full.
Qed.

Lemma ToInt32_range (a : Z) : (- 2 ^ 31 <= ToInt32 a < 2 ^ 31)%Z.
Proof.
  unfold ToInt32. pose proof (Z.mod_pos_bound (a + 2 ^ 31) (2 ^ 32)). lia.
Qed.

Lemma hash_round_poly (h : Z) (c : N) :
  hash_round (ToInt32 h) c = ToInt32 (31 * h + Z.of_N c).
Proof.
  unfold hash_round.
  destruct (ToInt32_shift h) as [k Hk].
  destruct (ToInt32_shift (ToInt32 h * 2 ^ 5)) as [k' Hk'].
  rewrite Hk', Hk.
  apply (ToInt32_congr _ _ (k' + 31 * k)). lia.
Qed.

Lemma hash_loop_from (l : jsstring) : forall h,
  fold_left hash_round l (ToInt32 h) =
  ToInt32 (fold_left (fun h c => (31 * h + Z.of_N c)%Z) l h).
Proof.
  induction l as [|c l IH]; intros h; simpl; [reflexivity|].
  now rewrite hash_round_poly, IH.
Qed.

Lemma value36_digit36 (d : Z) : (0 <= d < 36)%Z -> value36 (digit36 d) = d.
Proof.
  intros H. unfold value36, digit36.
  destruct (d <? 10)%Z eqn:E.
  - apply Z.ltb_lt in E.
    replace (Z.to_N (48 + d) <? 58)%N with true
      by (symmetry; apply N.ltb_lt; lia). lia.
  - apply Z.ltb_ge in E.
    replace (Z.to_N (97 + (d - 10)) <? 58)%N with false
      by (symmetry; apply N.ltb_ge; lia). lia.
Qed.

Lemma isDigit36_digit36 (d : Z) : (0 <= d < 36)%Z -> isDigit36 (digit36 d) = true.
Proof.
  intros H. unfold isDigit36, digit36.
  destruct (d <? 10)%Z eqn:E.
  - apply Z.ltb_lt in E. apply orb_true_iff. left.
    apply andb_true_iff. split; apply N.leb_le; lia.
  - apply Z.ltb_ge in E. apply orb_true_iff. right.
    apply andb_true_iff. split; apply N.leb_le; lia.
Qed.

Lemma toString36_parse fuel : forall n acc,
  (0 <= n < 36 ^ Z.of_nat fuel)%Z ->
  fold_left (fun n c => (36 * n + value36 c)%Z) (toString36 fuel n acc) 0%Z =
  fold_left (fun n c => (36 * n + value36 c)%Z) acc n.
Proof.
  induction fuel as [|fuel IH]; intros n acc H.
  - simpl in *. replace n with 0%Z by lia. reflexivity.
  - cbn [toString36]. destruct (n <? 36)%Z eqn:E.
    + apply Z.ltb_lt in E. cbn [fold_left].
      rewrite value36_digit36 by lia. f_equal.
    + apply Z.ltb_ge in E. rewrite IH.
      * cbn [fold_left].
        rewrite value36_digit36 by (apply Z.mod_pos_bound; lia).
        replace (36 * (n / 36) + n mod 36)%Z with n; [reflexivity|].
        apply Z.div_mod. lia.
      * rewrite Nat2Z.inj_succ, Z.pow_succ_r in H by lia.
        split; [apply Z.div_pos; lia|].
        apply Z.div_lt_upper_bound; lia.
Qed.

Lemma toString36_digits fuel : forall n acc,
  (0 <= n)%Z -> Forall (fun c => isDigit36 c = true) acc ->
  Forall (fun c => isDigit36 c = true) (toString36 fuel n acc).
Proof.
  induction fuel as [|fuel IH]; intros n acc Hn H; [exact H|].
  cbn [toString36]. destruct (n <? 36)%Z eqn:E.
  - apply Z.ltb_lt in E. constructor; [|exact H].
    apply isDigit36_digit36. lia.
  - apply IH; [apply Z.div_pos; lia|].
    constructor; [|exact H].
    apply isDigit36_digit36, Z.mod_pos_bound. lia.
Qed.

Lemma toString36_acc fuel : forall m acc,
  acc <> [] -> toString36 fuel m acc <> [].
Proof.
  induction fuel as [|fuel IH]; intros m acc Ha; [exact Ha|].
  cbn [toString36]. destruct (m <? 36)%Z; [discriminate|].
  apply IH. discriminate.
Qed.

Lemma toString36_nonempty fuel m : 0 < fuel -> toString36 fuel m [] <> [].
Proof.
  destruct fuel as [|fuel]; [lia|]. intros _. cbn [toString36].
  destruct (m <? 36)%Z; [discriminate|]. apply toString36_acc. discriminate.
Qed.

(** X9.  [hashApiKey] is the polynomial hash with multiplier 31 of the
    code units of the key, wrapped to a signed 32-bit integer, in absolute
    value and written in base 36: the hash lies in [-2^31, 2^31), and the
    storage key is [gl_queue_] followed by a non-empty string of the digits
    [0-9a-z] whose value in base 36 is that absolute value. *)
Theorem hashApiKey_spec (apiKey : jsstring) :
  hash_loop apiKey = ToInt32 (poly31 apiKey) /\
  (- 2 ^ 31 <= hash_loop apiKey < 2 ^ 31)%Z /\
  storageKey apiKey = js "gl_queue_" ++ hashApiKey apiKey /\
  hashApiKey apiKey <> [] /\
  Forall (fun c => isDigit36 c = true) (hashApiKey apiKey) /\
  parse36 (hashApiKey apiKey) = Z.abs (ToInt32 (poly31 apiKey)).
Proof.
  assert (E : hash_loop apiKey = ToInt32 (poly31 apiKey)).
  { unfold hash_loop, poly31. change 0%Z with (ToInt32 0) at 1.
    apply hash_loop_from. }
  split; [exact E|]. split; [rewrite E; apply ToInt32_range|].
  split; [reflexivity|]. unfold hashApiKey. rewrite E.
  pose proof (ToInt32_range (poly31 apiKey)) as R.
  set (n := Z.abs (ToInt32 (poly31 apiKey))).
  assert (Hn : (0 <= n < 36 ^ Z.of_nat 7)%Z).
  { subst n. change (36 ^ Z.of_nat 7)%Z with 78364164096%Z.
    change (2 ^ 31)%Z with 2147483648%Z in R. lia. }
  split; [|split].
  - apply toString36_nonempty. lia.
  - apply toString36_digits; [lia|constructor].
  - unfold parse36. now rewrite toString36_parse.
Qed.
End HashSpec.

(** ** More of the facade *)

Module FacadeOpsSpec.
Import OfflineQueue GlobalLeaderboards OfflineQueueSpec DrainSpec FacadeOps Samples.

Lemma convert_all_spec defaultId l scores :
  convert_all defaultId l = Ok scores ->
  length scores = length l /\
  map Wire.user_id scores = map (fun x => Some (userId_of x)) l /\
  Forall (fun r => truthy (Wire.leaderboard_id r) = true) scores.
Proof.
  revert scores. induction l as [|x l IH]; intros scores H; simpl in H.
  - inversion H; subst. repeat split; constructor.
  - destruct (convert defaultId x) as [r|e] eqn:Ex; [|discriminate].
    destruct (convert_all defaultId l) as [rs|e]; [|discriminate].
    inversion H; subst. destruct (IH rs eq_refl) as (Hl & Hu & Hf).
    assert (Hr : Wire.user_id r = Some (userId_of x) /\
                 truthy (Wire.leaderboard_id r) = true).
    { destruct x; simpl in Ex;
        destruct (truthy (or_opt _ _)) eqn:T; simpl in Ex;
        inversion Ex; subst; simpl; auto. }
    destruct Hr as [Hr1 Hr2]. simpl. repeat split; try congruence.
    now constructor.
Qed.

(** X10.  [submitBulk] never touches the offline queue.  A submission for
    which no leaderboard id is resolved makes it throw
    [MISSING_LEADERBOARD_ID], also when offline; otherwise, when the client
    is offline or the queue holds items, it throws
    [OFFLINE_BULK_NOT_SUPPORTED]; a call that throws sends nothing.  When
    it goes through, it issues one bulk call with one score per
    submission, in order, each with a leaderboard id. *)
Theorem submitBulk_spec (l : list FlexibleScoreSubmission)
    (g : GlobalLeaderboards.t) :
  let r := fst (submitBulk l g) in
  let g' := snd (submitBulk l g) in
  offlineQueue g' = offlineQueue g /\
  (forall e, r = BulkRejected e -> g' = g) /\
  (Exists (fun x => convert (defaultLeaderboardId g) x
                    = Throw MISSING_LEADERBOARD_ID_BULK) l ->
   r = BulkRejected MISSING_LEADERBOARD_ID_BULK) /\
  (forall scores, convert_all (defaultLeaderboardId g) l = Ok scores ->
     (isOnline g = false \/ hasItems (offlineQueue g) = true ->
      r = BulkRejected OFFLINE_BULK_NOT_SUPPORTED) /\
     (isOnline g = true -> hasItems (offlineQueue g) = false ->
      r = BulkDirect scores /\
      calls g' = calls g ++ [{| path := BULK_PATH; body := scores |}] /\
      length scores = length l /\
      map Wire.user_id scores = map (fun x => Some (userId_of x)) l /\
      Forall (fun r => truthy (Wire.leaderboard_id r) = true) scores)).
Proof.
  cbv zeta. unfold submitBulk.
  split; [|split; [|split]].
  - destruct (convert_all _ l); [|reflexivity].
    destruct (negb (isOnline g) || _); reflexivity.
  - intros e. destruct (convert_all _ l); [|reflexivity].
    destruct (negb (isOnline g) || _); [reflexivity|discriminate].
  - intros H.
    assert (E : convert_all (defaultLeaderboardId g) l
                = Throw MISSING_LEADERBOARD_ID_BULK).
    { induction H as [x l Hx|x l Hx IH]; simpl.
      - now rewrite Hx.
      - destruct (convert (defaultLeaderboardId g) x) as [r|e] eqn:Ex.
        + now rewrite IH.
        + destruct x; simpl in Ex; destruct (negb _); simpl in Ex;
            congruence. }
    now rewrite E.
  - intros scores E. rewrite E. split.
    + intros [H|H]; rewrite H; [reflexivity|]. now rewrite orb_true_r.
    + intros Ho Hi. rewrite Ho, Hi. cbn [negb orb fst snd call calls].
      split; [reflexivity|]. split; [reflexivity|].
      exact (convert_all_spec _ _ _ E).
Qed.

Lemma submitBulk_spec_witness :
  fst (submitBulk [s_array (js "u1") (inject_Z 5) None] client0) =
    BulkRejected MISSING_LEADERBOARD_ID_BULK /\
  fst (submitBulk [s_array (js "u1") (inject_Z 5) (Some (js "L"))] client3) =
    BulkRejected OFFLINE_BULK_NOT_SUPPORTED /\
  length (calls (snd (submitBulk [s_array (js "u1") (inject_Z 5) (Some (js "L"))]
                        client0))) = 1.
Proof.
  split; [|split].
  - destruct (submitBulk_spec [s_array (js "u1") (inject_Z 5) None] client0)
      as (_ & _ & H & _).
    apply H. constructor. reflexivity.
  - destruct (submitBulk_spec [s_array (js "u1") (inject_Z 5) (Some (js "L"))]
                client3) as (_ & _ & _ & H).
    destruct (H _ eq_refl) as [H' _]. apply H'. right. reflexivity.
  - destruct (submitBulk_spec [s_array (js "u1") (inject_Z 5) (Some (js "L"))]
                client0) as (_ & _ & _ & H).
    destruct (H _ eq_refl) as [_ H'].
    destruct (H' eq_refl eq_refl) as (_ & Hc & _). rewrite Hc. reflexivity.
Defined.

(** Below the capacity [enqueue] appends and acknowledges with the new
    size. *)
Lemma enqueue_below ulid now m p s :
  size s < MAX_QUEUE_SIZE ->
  queue (snd (enqueue ulid now m p s)) =
    queue s ++ [{| queueId := ulid; method := m; params := p;
                   timestamp := now; retryCount := 0 |}] /\
  fst (enqueue ulid now m p s) =
    Ok {| QueuedSubmitResponse.queued := true;
          QueuedSubmitResponse.queueId := ulid;
          QueuedSubmitResponse.queuePosition := size s + 1;
          QueuedSubmitResponse.operation := js "insert";
          QueuedSubmitResponse.rank := (-1)%Z |}.
Proof.
  intros H. unfold enqueue, size in *. apply Nat.leb_gt in H. rewrite H.
  cbn [fst snd]. unfold emit, persistQueue, log, set_queue. cbn [queue effects].
  split; [reflexivity|]. rewrite length_app. reflexivity.
Qed.

(** A valid score passes the checks of [submit]. *)
Lemma submit_valid (ulid : jsstring) (now : Z) (userId : jsstring)
    (score : Q) (a : LeaderboardIdOrOptions) (g : GlobalLeaderboards.t) :
  let options := normalize a in
  let leaderboardId :=
    or_opt (opt_leaderboardId options) (defaultLeaderboardId g) in
  let userName := or_else (opt_userName options) userId in
  let p := {| userId := Some userId; score := Some score;
              leaderboardId := leaderboardId; userName := Some userName;
              metadata := opt_metadata options; scores := None |} in
  let request :=
    {| Wire.leaderboard_id := leaderboardId; Wire.user_id := Some userId;
       Wire.user_name := Some userName; Wire.score := Some score;
       Wire.metadata := opt_metadata options |} in
  (0 <= score)%Q -> truthy leaderboardId = true ->
  userNamePattern_test userName = true -> length userName <= 50 ->
  submit ulid now userId score a g =
    if negb (isOnline g) || hasItems (offlineQueue g) then
      let (r, q) := enqueue ulid now Method.submit p (offlineQueue g) in
      (Queued r, set_offlineQueue q g)
    else
      (Direct request, call (js "/v1/scores") [request] g).
Proof.
  cbv zeta. intros Hs Hl Hp Hn. unfold submit.
  destruct (Qlt_le_dec score 0) as [Hlt|_];
    [exfalso; eapply Qlt_not_le; eassumption|].
  rewrite Hl, Hp. cbn [negb].
  assert (Hlen : (length (or_else (opt_userName (normalize a)) userId) <? 1)
                 || (50 <? length (or_else (opt_userName (normalize a)) userId))
                 = false).
  { apply orb_false_iff. split; apply Nat.ltb_ge; [|exact Hn].
    destruct (or_else _ _); [discriminate|simpl; lia]. }
  rewrite Hlen. reflexivity.
Qed.

(** A valid score submitted while offline goes to the queue and not to
    the server. *)
Lemma submit_while_offline (ulid : jsstring) (now : Z) (userId : jsstring)
    (score : Q) (a : LeaderboardIdOrOptions) (g : GlobalLeaderboards.t) :
  (0 <= score)%Q ->
  truthy (or_opt (opt_leaderboardId (normalize a)) (defaultLeaderboardId g))
    = true ->
  userNamePattern_test (or_else (opt_userName (normalize a)) userId) = true ->
  length (or_else (opt_userName (normalize a)) userId) <= 50 ->
  isOnline g = false ->
  size (offlineQueue g) < MAX_QUEUE_SIZE ->
  calls (snd (submit ulid now userId score a g)) = calls g /\
  queue (offlineQueue (snd (submit ulid now userId score a g))) =
    queue (offlineQueue g) ++
    [{| queueId := ulid; method := Method.submit;
        params :=
          {| userId := Some userId; score := Some score;
             leaderboardId :=
               or_opt (opt_leaderboardId (normalize a)) (defaultLeaderboardId g);
             userName := Some (or_else (opt_userName (normalize a)) userId);
             metadata := opt_metadata (normalize a); scores := None |};
        timestamp := now; retryCount := 0 |}].
Proof.
  intros Hs Hl Hp Hn Ho Hsz.
  rewrite (submit_valid ulid now userId score a g Hs Hl Hp Hn), Ho.
  cbn [negb orb].
  pose proof (enqueue_below ulid now Method.submit
                {| userId := Some userId; score := Some score;
                   leaderboardId :=
                     or_opt (opt_leaderboardId (normalize a))
                       (defaultLeaderboardId g);
                   userName := Some (or_else (opt_userName (normalize a)) userId);
                   metadata := opt_metadata (normalize a); scores := None |}
                (offlineQueue g) Hsz) as [Hqueue _].
  destruct (enqueue _ _ _ _ _) as [res q]. cbn [fst snd] in *.
  split; [reflexivity|exact Hqueue].
Qed.

(** Routing of a valid [submit] that runs to completion (the call with
    its suspension inside [enqueue] is in [ClientSpec]): when the client is
    offline or the
    queue holds items, the score is appended to the queue (below its
    capacity), acknowledged with its position, and no REST call is made;
    when the client is online and the queue is empty, one call to
    [/v1/scores] is made and the queue is not touched. *)
Theorem submit_routing (ulid : jsstring) (now : Z) (userId : jsstring)
    (score : Q) (a : LeaderboardIdOrOptions) (g : GlobalLeaderboards.t) :
  let options := normalize a in
  let leaderboardId :=
    or_opt (opt_leaderboardId options) (defaultLeaderboardId g) in
  let userName := or_else (opt_userName options) userId in
  let p := {| userId := Some userId; score := Some score;
              leaderboardId := leaderboardId; userName := Some userName;
              metadata := opt_metadata options; scores := None |} in
  let r := fst (submit ulid now userId score a g) in
  let g' := snd (submit ulid now userId score a g) in
  (0 <= score)%Q -> truthy leaderboardId = true ->
  userNamePattern_test userName = true -> length userName <= 50 ->
  (isOnline g = false \/ hasItems (offlineQueue g) = true ->
     calls g' = calls g /\
     (size (offlineQueue g) < MAX_QUEUE_SIZE ->
        queue (offlineQueue g') =
          queue (offlineQueue g) ++
          [{| queueId := ulid; method := Method.submit; params := p;
              timestamp := now; retryCount := 0 |}] /\
        r = Queued (Ok {| QueuedSubmitResponse.queued := true;
                          QueuedSubmitResponse.queueId := ulid;
                          QueuedSubmitResponse.queuePosition :=
                            size (offlineQueue g) + 1;
                          QueuedSubmitResponse.operation := js "insert";
                          QueuedSubmitResponse.rank := (-1)%Z |}))) /\
  (isOnline g = true -> hasItems (offlineQueue g) = false ->
     offlineQueue g' = offlineQueue g /\
     r = Direct {| Wire.leaderboard_id := leaderboardId;
                   Wire.user_id := Some userId;
                   Wire.user_name := Some userName;
                   Wire.score := Some score;
                   Wire.metadata := opt_metadata options |} /\
     calls g' =
       calls g ++
       [{| path := js "/v1/scores";
           body := [{| Wire.leaderboard_id := leaderboardId;
                       Wire.user_id := Some userId;
                       Wire.user_name := Some userName;
                       Wire.score := Some score;
                       Wire.metadata := opt_metadata options |}] |}]).
Proof.
  cbv zeta. intros Hs Hl Hp Hn.
  rewrite (submit_valid ulid now userId score a g Hs Hl Hp Hn). split.
  - intros Hq.
    assert (E : negb (isOnline g) || hasItems (offlineQueue g) = true).
    { destruct Hq as [H|H]; rewrite H; [reflexivity|apply orb_true_r]. }
    rewrite E.
    pose proof (enqueue_below ulid now Method.submit
                {| userId := Some userId; score := Some score;
                   leaderboardId :=
                     or_opt (opt_leaderboardId (normalize a))
                       (defaultLeaderboardId g);
                   userName := Some (or_else (opt_userName (normalize a)) userId);
                   metadata := opt_metadata (normalize a); scores := None |}
                (offlineQueue g)) as Hok.
    destruct (enqueue _ _ _ _ _) as [res q] eqn:Eq. cbn [fst snd] in *.
    split; [reflexivity|]. intros Hsz.
    destruct (Hok Hsz) as (Hqueue & Hres).
    split; [exact Hqueue|]. rewrite Hres. reflexivity.
  - intros Ho Hi. rewrite Ho, Hi. cbn [negb orb fst snd].
    repeat split.
Qed.

Lemma submit_routing_witness :
  fst (submit (js "01A") 7 (js "u1") (inject_Z 100)
         (ArgString (js "L")) (FacadeOps.on_offline client0)) =
    Queued (Ok {| QueuedSubmitResponse.queued := true;
                  QueuedSubmitResponse.queueId := js "01A";
                  QueuedSubmitResponse.queuePosition := 1;
                  QueuedSubmitResponse.operation := js "insert";
                  QueuedSubmitResponse.rank := (-1)%Z |}) /\
  offlineQueue (snd (submit (js "01A") 7 (js "u1") (inject_Z 100)
                       (ArgString (js "L")) client0)) = offlineQueue client0.
Proof.
  split.
  - destruct (submit_routing (js "01A") 7 (js "u1") (inject_Z 100)
                (ArgString (js "L")) (FacadeOps.on_offline client0))
      as [H _]; [discriminate|reflexivity|reflexivity|simpl; lia|].
    destruct H as [_ H]; [left; reflexivity|].
    destruct H as [_ H]; [vm_compute; lia|exact H].
  - destruct (submit_routing (js "01A") 7 (js "u1") (inject_Z 100)
                (ArgString (js "L")) client0)
      as [_ H]; [discriminate|reflexivity|reflexivity|simpl; lia|].
    destruct (H eq_refl eq_refl) as [H' _]. exact H'.
Defined.



Lemma batchOperations_setProcessing now b s :
  batchOperations now (setProcessing b s) =
  (fst (batchOperations now s), setProcessing b (snd (batchOperations now s))).
Proof.
  unfold batchOperations, cleanExpiredItems.
  cbn [queue setProcessing set_queue fst snd].
  destruct (length (filter _ (queue s)) <? length (queue s)); reflexivity.
Qed.







(** The offline round trip with a [submit] that runs to completion.  A
    client with an empty queue goes offline, a valid score is submitted
    and queued; when the network comes
    back within the time to live and the server accepts the batch, the
    [online] listener sends that one score in one bulk call and the queue
    is empty again.  The leaderboard id must not start with [bulk_], which
    the loop takes for the key of a queued bulk operation. *)
Theorem offline_round_trip (respond : jsstring -> Outcome)
    (ulid : jsstring) (now later : Z) (userId : jsstring) (score : Q)
    (a : LeaderboardIdOrOptions) (g : GlobalLeaderboards.t) :
  let options := normalize a in
  let leaderboardId :=
    or_opt (opt_leaderboardId options) (defaultLeaderboardId g) in
  let userName := or_else (opt_userName options) userId in
  let queued := snd (submit ulid now userId score a (on_offline g)) in
  let back := on_online respond later queued in
  queue (offlineQueue g) = [] ->
  isProcessing (offlineQueue g) = false ->
  (0 <= score)%Q -> truthy leaderboardId = true ->
  userNamePattern_test userName = true -> length userName <= 50 ->
  startsWith (js "bulk_") (or_else leaderboardId []) = false ->
  (later - now < QUEUE_TTL_MS)%Z ->
  respond (or_else leaderboardId []) = Resolved ->
  size (offlineQueue queued) = 1 /\
  queue (offlineQueue back) = [] /\
  isOnline back = true /\
  calls back =
    calls g ++
    [{| path := BULK_PATH;
        body := [{| Wire.leaderboard_id := leaderboardId;
                    Wire.user_id := Some userId;
                    Wire.user_name := Some userName;
                    Wire.score := Some score;
                    Wire.metadata := opt_metadata options |}] |}].
Proof.
  cbv zeta. intros Hq Hp Hs Hl Hn Hlen Hb Hfresh Hr.
  destruct (submit_while_offline ulid now userId score a (on_offline g)
              Hs Hl Hn Hlen eq_refl) as [Hc Hqueue].
  { unfold size. cbn [offlineQueue on_offline set_isOnline].
    rewrite Hq. unfold MAX_QUEUE_SIZE. simpl. lia. }
  cbn [offlineQueue on_offline set_isOnline calls] in Hqueue, Hc.
  rewrite Hq in Hqueue. cbn [app] in Hqueue.
  set (g1 := snd (submit ulid now userId score a (on_offline g))) in *.
  assert (P1 : processing (offlineQueue g1) = false).
  { subst g1. unfold submit, on_offline.
    cbn [isOnline set_isOnline negb orb offlineQueue defaultLeaderboardId].
    destruct (Qlt_le_dec score 0); [exact Hp|].
    rewrite Hl, Hn. cbn [negb].
    destruct (_ || _); [exact Hp|].
    unfold enqueue. destruct (_ <=? _); exact Hp. }
  split; [unfold size; now rewrite Hqueue|].
  unfold on_online, processOfflineQueue.
  cbn [isOnline set_isOnline negb orb offlineQueue isProcessing].
  unfold isProcessing in *. rewrite P1. cbn [orb].
  rewrite batchOperations_setProcessing.
  set (L := or_else (or_opt (opt_leaderboardId (normalize a))
                       (defaultLeaderboardId g)) []) in *.
  set (op := {| queueId := ulid; method := Method.submit;
                params := _; timestamp := now; retryCount := 0 |}) in *.
  assert (Hm : method op = Method.submit) by reflexivity.
  assert (Hlb : leaderboardId (params op) =
                or_opt (opt_leaderboardId (normalize a)) (defaultLeaderboardId g))
    by reflexivity.
  assert (Hid : queueId op = ulid) by reflexivity.
  assert (Ef : fresh later op = true) by (apply Z.ltb_lt; exact Hfresh).
  assert (Ec : cleanExpiredItems later (offlineQueue g1) = offlineQueue g1).
  { unfold cleanExpiredItems. cbn [queue set_queue]. rewrite Hqueue.
    cbn [filter]. unfold fresh in Ef. rewrite Ef. cbn [length].
    rewrite Nat.ltb_irrefl. rewrite <- Hqueue. now destruct (offlineQueue g1). }
  assert (Eb : batchOperations later (offlineQueue g1)
               = ([(L, [op])], offlineQueue g1)).
  { unfold batchOperations. rewrite Ec, Hqueue. cbn [fold_left].
    unfold group_op. rewrite Hm, Hlb. cbn [Method.eqb andb].
    rewrite Hl. fold L. cbn [mhas mget mset]. rewrite jseqb_refl.
    cbn [app fold_left limit_group length]. reflexivity. }
  rewrite Eb. cbn [fst snd drain process_batch]. rewrite Hb, Hr.
  cbn [offlineQueue set_offlineQueue set_isOnline call progress removeProcessed
       persistQueue log set_queue setProcessing emit queue isOnline calls
       map].
  rewrite Hqueue, Hid. cbn [filter existsb]. rewrite Hid, jseqb_refl.
  cbn [orb negb]. split; [reflexivity|]. split; [reflexivity|].
  rewrite Hc. unfold to_request. subst op.
  cbn -[or_opt or_else BULK_PATH normalize].
  assert (Eu : or_opt (Some (or_else (opt_userName (normalize a)) userId))
                 (Some userId)
               = Some (or_else (opt_userName (normalize a)) userId)).
  { unfold or_opt, truthy.
    destruct (or_else (opt_userName (normalize a)) userId); [discriminate|].
    reflexivity. }
  rewrite Eu. reflexivity.
Qed.

Lemma offline_round_trip_witness :
  let queued := snd (submit (js "01A") 7 (js "u1") (inject_Z 100)
                       (ArgString (js "L")) (on_offline client0)) in
  size (offlineQueue queued) = 1 /\
  queue (offlineQueue (on_online (fun _ => Resolved) 60000 queued)) = [].
Proof.
  cbv zeta.
  destruct (offline_round_trip (fun _ => Resolved) (js "01A") 7 60000 (js "u1")
              (inject_Z 100) (ArgString (js "L")) client0)
    as (H1 & H2 & _);
    [reflexivity|reflexivity|discriminate|reflexivity|reflexivity
    |simpl; lia|reflexivity|reflexivity|reflexivity|].
  split; [exact H1|exact H2].
Defined.
End FacadeOpsSpec.

(** ** The retries of [request] *)

Module RequestSpec.
Import Request.

Lemma delay_of_bounds k : (1000 <= delay_of k <= 10000)%Z.
Proof.
  unfold delay_of.
  assert (1 <= 2 ^ Z.of_nat k)%Z by (apply Z.pow_le_mono_r with (b := 0%Z); lia).
  lia.
Qed.

(** The general shape of a run of [request] that starts at [retryCount]
    with enough fuel. *)
Lemma request_from_spec fuel autoRetry maxRetries fetch : forall retryCount,
  maxRetries <= retryCount + fuel ->
  let r := fst (request_from fuel autoRetry maxRetries fetch retryCount) in
  let waited := snd (request_from fuel autoRetry maxRetries fetch retryCount) in
  let n := retryCount + length waited in
  waited = map delay_of (seq retryCount (length waited)) /\
  (waited <> [] -> autoRetry = true /\ n <= maxRetries) /\
  (forall k, retryCount <= k < n ->
     exists c, attempt (fetch k) = Some c /\ shouldRetry c = true) /\
  match attempt (fetch n) with
  | None => r = Ok tt
  | Some c =>
      r = Throw (rethrow c) /\
      (autoRetry = false \/ maxRetries <= n \/ shouldRetry c = false)
  end.
Proof.
  induction fuel as [|fuel IH]; intros retryCount Hf; cbv zeta.
  - cbn [request_from].
    destruct (attempt (fetch retryCount)) as [c|] eqn:E.
    + assert (Hn : (retryCount <? maxRetries) = false)
        by (apply Nat.ltb_ge; lia).
      rewrite Hn, andb_false_r. cbn [andb fst snd length].
      rewrite Nat.add_0_r, E. repeat split; try congruence; lia.
    + cbn [fst snd length]. rewrite Nat.add_0_r, E.
      repeat split; try congruence; lia.
  - cbn [request_from].
    destruct (attempt (fetch retryCount)) as [c|] eqn:E.
    + destruct (autoRetry && (retryCount <? maxRetries) && shouldRetry c) eqn:G.
      * apply andb_true_iff in G. destruct G as [G G3].
        apply andb_true_iff in G. destruct G as [G1 G2].
        apply Nat.ltb_lt in G2.
        specialize (IH (S retryCount)). cbv zeta in IH.
        destruct (request_from fuel autoRetry maxRetries fetch (S retryCount))
          as [r waited].
        cbn [fst snd length] in *.
        destruct IH as (Hw & Hb & Hk & Hlast); [lia|].
        replace (retryCount + S (length waited))
          with (S retryCount + length waited) by lia.
        split; [cbn [seq map]; now rewrite <- Hw|].
        split.
        { intros _. split; [exact G1|].
          destruct waited as [|d w]; [simpl; lia|].
          apply Hb. discriminate. }
        split; [|exact Hlast].
        intros k Hk'. destruct (Nat.eq_dec k retryCount) as [->|Hne].
        -- exists c. now split.
        -- apply Hk. lia.
      * cbn [fst snd length]. rewrite Nat.add_0_r, E.
        repeat split; try congruence; try lia.
        apply andb_false_iff in G. destruct G as [G|G]; [|now right; right].
        apply andb_false_iff in G. destruct G as [G|G]; [now left|].
        apply Nat.ltb_ge in G. right. now left.
    + cbn [fst snd length]. rewrite Nat.add_0_r, E.
      repeat split; try congruence; lia.
Qed.

(** X15.  [request] makes at most [maxRetries + 1] fetches, and only one
    without [autoRetry].  Before the retry of attempt [k] it waits
    [min(1000 * 2^k, 10000)] ms, so the waits are 1000, 2000, 4000, 8000
    and then 10000 ms each.  Every attempt before the last one failed in a
    way [shouldRetry] accepts.  The call resolves when the last attempt
    does; otherwise it throws the error of the last attempt, and then
    either retries are off, or they are used up, or the error is not one
    to retry. *)
Theorem request_spec (autoRetry : bool) (maxRetries : nat)
    (fetch : nat -> Fetched) :
  let r := fst (request autoRetry maxRetries fetch) in
  let waited := snd (request autoRetry maxRetries fetch) in
  let n := length waited in
  n <= maxRetries /\
  (autoRetry = false -> n = 0) /\
  waited = map delay_of (seq 0 n) /\
  Forall (fun d => (1000 <= d <= 10000)%Z) waited /\
  (forall k, k < n ->
     exists c, attempt (fetch k) = Some c /\ shouldRetry c = true) /\
  match attempt (fetch n) with
  | None => r = Ok tt
  | Some c =>
      r = Throw (rethrow c) /\
      (autoRetry = false \/ n = maxRetries \/ shouldRetry c = false)
  end.
Proof.
  cbv zeta. unfold request.
  pose proof (request_from_spec maxRetries autoRetry maxRetries fetch 0) as H.
  cbv zeta in H. cbn [Nat.add] in H.
  destruct H as (Hw & Hb & Hk & Hlast); [lia|].
  set (waited := snd (request_from maxRetries autoRetry maxRetries fetch 0)) in *.
  assert (Hn : length waited <= maxRetries /\
               (autoRetry = false -> length waited = 0)).
  { destruct waited as [|d w] eqn:Ew; [simpl; split; [lia|reflexivity]|].
    destruct Hb as [Ha Hb]; [discriminate|].
    split; [exact Hb|]. intros F. congruence. }
  destruct Hn as [Hn1 Hn2].
  split; [exact Hn1|]. split; [exact Hn2|]. split; [exact Hw|].
  split.
  - rewrite Hw. apply Forall_forall. intros d Hd.
    apply in_map_iff in Hd. destruct Hd as [k [<- _]]. apply delay_of_bounds.
  - split; [intros k Hk'; apply Hk; lia|].
    destruct (attempt (fetch (length waited))) as [c|]; [|exact Hlast].
    destruct Hlast as [Hr [H|[H|H]]]; split; auto.
    right. left. lia.
Qed.

(** X16.  Which failures end [request] at once.  A response that is not
    ok, with an error object, a status below 500 other than 408 and 429 and
    a code other than [TIMEOUT] and [REQUEST_ERROR], is thrown without a
    retry, with its status: so are the 401, 403 and 404 that the drain pass
    takes for permanent.  A fetch that is rejected (timeout, network) or a
    body that cannot be read is not retried either, and is thrown as
    [TIMEOUT] or [REQUEST_ERROR] without a status, which the drain pass
    takes for temporary. *)
Theorem request_not_retried (autoRetry : bool) (maxRetries : nat)
    (fetch : nat -> Fetched) :
  (forall status d,
     fetch 0 = not_ok status d ->
     (0 < status < 500)%Z -> status <> 408%Z -> status <> 429%Z ->
     or_else (code d) (js "HTTP_ERROR") <> js "TIMEOUT" ->
     or_else (code d) (js "HTTP_ERROR") <> js "REQUEST_ERROR" ->
     request autoRetry maxRetries fetch =
       (Throw (GLError
                 (or_else (message d) (js "HTTP " ++ dec (Z.to_nat status)))
                 (or_else (code d) (js "HTTP_ERROR")) (Some status)), [])) /\
  (fetch 0 = aborted ->
     request autoRetry maxRetries fetch =
       (Throw (GLError (js "Request timeout") (js "TIMEOUT") None), [])) /\
  (forall why,
     fetch 0 = failed why \/ fetch 0 = ok_unparseable why \/
     (exists status, fetch 0 = not_ok_unparseable status why) ->
     request autoRetry maxRetries fetch =
       (Throw (GLError why (js "REQUEST_ERROR") None), [])) /\
  (forall e,
     fst (request autoRetry maxRetries fetch) = Throw e ->
     GlobalLeaderboards.isPermanent e = true ->
     exists d status,
       fetch (length (snd (request autoRetry maxRetries fetch)))
         = not_ok status d /\
       (status = 404 \/ status = 401 \/ status = 403)%Z).
Proof.
  assert (One : forall c, attempt (fetch 0) = Some c -> shouldRetry c = false ->
                request autoRetry maxRetries fetch = (Throw (rethrow c), [])).
  { intros c E S. unfold request. destruct maxRetries; cbn [request_from];
      rewrite E, S, ?andb_false_r; reflexivity. }
  split; [|split; [|split]].
  - intros status d E Hs H408 H429 Ht Hr.
    apply (One (c_gl _ _ status)); [now rewrite E|].
    cbn [shouldRetry].
    replace (500 <=? status)%Z with false by (symmetry; apply Z.leb_gt; lia).
    replace (status =? 429)%Z with false by (symmetry; apply Z.eqb_neq; lia).
    replace (status =? 408)%Z with false by (symmetry; apply Z.eqb_neq; lia).
    rewrite andb_false_r. cbn [orb].
    apply orb_false_iff. split; apply QueueOpsSpec.jseqb_false_iff_local;
      assumption.
  - intros E. apply (One c_abort); [now rewrite E|reflexivity].
  - intros why [E|[E|[status E]]];
      apply (One (c_error why)); try reflexivity; now rewrite E.
  - intros e He Hp.
    pose proof (request_from_spec maxRetries autoRetry maxRetries fetch 0) as H.
    cbv zeta in H. cbn [Nat.add] in H.
    destruct H as (_ & _ & _ & H); [lia|].
    fold (request autoRetry maxRetries fetch) in H.
    set (n := length (snd (request autoRetry maxRetries fetch))) in *.
    destruct (fetch n) as [|w|status d|status w| |w|] eqn:E; cbn [attempt] in H;
      try (rewrite He in H; discriminate H);
      destruct H as [H _]; rewrite He in H; inversion H; subst e;
      cbn [rethrow GlobalLeaderboards.isPermanent] in Hp; try discriminate.
    exists d, status. split; [reflexivity|].
    rewrite !orb_true_iff, !Z.eqb_eq in Hp. tauto.
Qed.

Lemma request_not_retried_witness :
  request true 3 (flaky 2) = (Ok tt, [1000; 2000]%Z) /\
  snd (request true 5 (always 503)) = [1000; 2000; 4000; 8000; 10000]%Z /\
  request true 3 (always 404) =
    (Throw (GLError (js "no") (js "HTTP_ERROR") (Some 404%Z)), []).
Proof.
  split; [vm_compute; reflexivity|]. split; [vm_compute; reflexivity|].
  destruct (request_not_retried true 3 (always 404)) as [H _].
  rewrite (H 404%Z {| message := Some (js "no"); code := None |});
    try reflexivity; try lia; discriminate.
Defined.
End RequestSpec.

(** ** The WebSocket client under any sequence of events *)

Module WebSocketOpsSpec.
Import LeaderboardWebSocket WsOps WebSocketSpec.

Ltac same_core := unfold core; repeat (cbn; try break_match); reflexivity.

Lemma core_emit o s : core (emit o s) = core s.
Proof. reflexivity. Qed.

Lemma core_notify b o s : core (notify b o s) = core s.
Proof. destruct b; reflexivity. Qed.

Lemma core_handleError e s : core (handleError e s) = core s.
Proof. apply core_notify. Qed.

Lemma core_socket_close i c s : core (socket_close i c s) = core s.
Proof. unfold socket_close. same_core. Qed.

Lemma core_send f s : core (snd (send f s)) = core s.
Proof. unfold send. same_core. Qed.

Lemma core_subscribe l u s : core (snd (subscribe l u s)) = core s.
Proof.
  unfold subscribe. destruct (negb (isConnected s)); [reflexivity|].
  pose proof (core_send (f_subscribe l u) s) as H.
  destruct (send (f_subscribe l u) s) as [[a|e] s1]; exact H.
Qed.

Lemma core_unsubscribe l s : core (snd (unsubscribe l s)) = core s.
Proof.
  unfold unsubscribe. destruct (negb (isConnected s)); [reflexivity|].
  pose proof (core_send (f_unsubscribe l) s) as H.
  destruct (send (f_unsubscribe l) s) as [[a|e] s1]; exact H.
Qed.

Lemma core_resubscribe c l : forall s,
  core (snd (resubscribe c l s)) = core s.
Proof.
  induction l as [|x l IH]; intros s; cbn [resubscribe]; [reflexivity|].
  destruct (match c with Some c0 => negb (jseqb x c0) | None => true end);
    [|apply IH].
  pose proof (core_subscribe x None s) as H.
  destruct (subscribe x None s) as [[u|e] s1]; cbn [snd] in *.
  - now rewrite IH.
  - exact H.
Qed.

Lemma core_connect l u s : core (connect l u s) = core s.
Proof.
  unfold connect. destruct (isConnected s || isConnecting s); [reflexivity|].
  unfold handleError, notify, emit. same_core.
Qed.

Lemma core_handleMessage m s : core (snd (handleMessage m s)) = core s.
Proof.
  assert (H0 : core (notify (onMessage (handlers s)) (OnMessage m) s) = core s)
    by apply core_notify.
  unfold handleMessage. destruct m as [| |[b|]| | | | | |]; cbn [snd];
    rewrite ?core_notify, ?core_handleError, ?core_send; try reflexivity;
    try exact H0.
  destruct (existsb _ permanentErrors); [|exact H0].
  cbn [ws set_permanentError set_shouldReconnect].
  destruct (ws _) as [i|]; [|exact H0].
  destruct (isConnected _); [|exact H0].
  rewrite core_socket_close. exact H0.
Qed.

Lemma core_onmessage d s : core (onmessage d s) = core s.
Proof.
  unfold onmessage. destruct d as [|m]; [apply core_handleError|].
  pose proof (core_handleMessage m s) as H.
  destruct (handleMessage m s) as [[u|e] s1]; cbn [snd] in H; [exact H|].
  now rewrite core_handleError.
Qed.

Lemma core_ping_callback s : core (ping_callback s) = core s.
Proof.
  unfold ping_callback. destruct (isConnected s); [apply core_send|reflexivity].
Qed.

(** *** [subscribe] *)

Lemma In_sadd x y l : In y (sadd x l) <-> y = x \/ In y l.
Proof.
  unfold sadd. destruct (existsb (jseqb x) l) eqn:E.
  - split; [now right|]. intros [->|H]; [|exact H].
    apply existsb_exists in E. destruct E as [z [Hz E]].
    apply jseqb_true_iff in E. now subst z.
  - rewrite in_app_iff. simpl. intuition congruence.
Qed.

Lemma sadd_present x l : In x l -> sadd x l = l.
Proof.
  intros H. unfold sadd.
  replace (existsb (jseqb x) l) with true; [reflexivity|].
  symmetry. apply existsb_exists. exists x. split; [exact H|apply jseqb_refl].
Qed.

Lemma NoDup_sadd x l : NoDup l -> NoDup (sadd x l).
Proof.
  intros H. unfold sadd. destruct (existsb (jseqb x) l) eqn:E; [exact H|].
  apply NoDup_app; [exact H|repeat constructor; intros []|].
  intros y Hy [->|[]].
  assert (existsb (jseqb y) l = true); [|congruence].
  apply existsb_exists. exists y. split; [exact Hy|apply jseqb_refl].
Qed.

(** X17.  [subscribe] on a client whose socket is not open throws
    [WS_NOT_CONNECTED] and changes nothing.  On an open socket it sends one
    subscribe frame on that socket and the topic is in the subscription
    set afterwards; the set keeps its other members and gets no duplicate,
    and a topic that was in it already leaves it as it was.  Timers, the
    attempt counter, sockets and the reconnection flags are not touched. *)
Theorem subscribe_spec (leaderboardId : jsstring) (userId : option jsstring)
    (s : t) :
  NoDup (subscribedLeaderboards s) ->
  let r := fst (subscribe leaderboardId userId s) in
  let s' := snd (subscribe leaderboardId userId s) in
  (isConnected s = false -> r = Throw WS_NOT_CONNECTED /\ s' = s) /\
  (isConnected s = true ->
     r = Ok tt /\
     (exists i, ws s = Some i /\
        out s' = out s ++ [Sent i (f_subscribe leaderboardId userId)]) /\
     In leaderboardId (subscribedLeaderboards s') /\
     NoDup (subscribedLeaderboards s') /\
     (forall x, x <> leaderboardId ->
        (In x (subscribedLeaderboards s') <-> In x (subscribedLeaderboards s))) /\
     (In leaderboardId (subscribedLeaderboards s) ->
        subscribedLeaderboards s' = subscribedLeaderboards s) /\
     core s' = core s /\ sockets s' = sockets s /\ flags s' = flags s).
Proof.
  intros Hnd. cbv zeta. split; intros Hc.
  - unfold subscribe. rewrite Hc. cbn. auto.
  - pose proof (core_subscribe leaderboardId userId s) as Hcore.
    pose proof (flags_subscribe leaderboardId userId s) as Hflags.
    revert Hcore Hflags.
    unfold subscribe, send. rewrite Hc. cbn [negb].
    unfold isConnected in Hc. destruct (ws s) as [i|] eqn:Ew; [|discriminate].
    cbn [fst snd subscribedLeaderboards set_subscribedLeaderboards emit
         set_out out sockets].
    intros Hcore Hflags.
    split; [reflexivity|]. split; [exists i; auto|].
    split; [apply In_sadd; now left|].
    split; [now apply NoDup_sadd|].
    split; [intros x Hx; rewrite In_sadd; intuition congruence|].
    split; [apply sadd_present|]. auto.
Qed.

Lemma subscribe_spec_witness :
  subscribedLeaderboards (snd (subscribe (js "N") None live))
    = [js "L"; js "M"; js "N"] /\
  fst (subscribe (js "N") None (new defaults true)) = Throw WS_NOT_CONNECTED.
Proof.
  assert (Hnd : NoDup (subscribedLeaderboards live)).
  { assert (E : subscribedLeaderboards live = [js "L"; js "M"])
      by (vm_compute; reflexivity).
    rewrite E. repeat constructor; simpl; intuition discriminate. }
  split; [vm_compute; reflexivity|].
  destruct (subscribe_spec (js "N") None (new defaults true)) as [H _].
  - constructor.
  - apply H. reflexivity.
Defined.

(** *** What the functions write to the log *)

Lemma grows_refl P s : grows P s s.
Proof. exists []. split; [now rewrite app_nil_r|reflexivity]. Qed.

Lemma grows_same P s s' : out s' = out s -> grows P s s'.
Proof. intros H. exists []. split; [now rewrite app_nil_r|reflexivity]. Qed.

Lemma grows_trans P s1 s2 s3 : grows P s1 s2 -> grows P s2 s3 -> grows P s1 s3.
Proof.
  intros [a [Ha Pa]] [b [Hb Pb]]. exists (a ++ b).
  split; [now rewrite Hb, Ha, app_assoc|].
  rewrite forallb_app, Pa, Pb. reflexivity.
Qed.

Lemma grows_weaken (P Q : Output -> bool) s s' :
  (forall o, P o = true -> Q o = true) -> grows P s s' -> grows Q s s'.
Proof.
  intros H [a [Ha Pa]]. exists a. split; [exact Ha|].
  apply forallb_forall. intros o Ho. apply H.
  rewrite forallb_forall in Pa. now apply Pa.
Qed.

Lemma quiet_no_socket o : quiet o = true -> no_socket o = true.
Proof. unfold quiet. now intros [H _]%andb_true_iff. Qed.

Lemma quiet_no_announce o : quiet o = true -> no_announce o = true.
Proof. unfold quiet. now intros [_ H]%andb_true_iff. Qed.

Lemma grows_emit P o s : P o = true -> grows P s (emit o s).
Proof. intros H. exists [o]. split; [reflexivity|]. cbn. now rewrite H. Qed.

Lemma grows_notify P b o s : P o = true -> grows P s (notify b o s).
Proof. intros H. destruct b; [now apply grows_emit|apply grows_refl]. Qed.

Lemma grows_handleError P e s : P (OnError e) = true -> grows P s (handleError e s).
Proof. apply grows_notify. Qed.

Lemma grows_socket_close P i c s :
  P (SocketClose i c) = true -> grows P s (socket_close i c s).
Proof.
  intros H. unfold socket_close.
  destruct (readyStateOf i _) as [[]|];
    first [now apply grows_emit
          |eapply grows_trans; [apply grows_emit; exact H|];
           apply grows_same; reflexivity].
Qed.

Lemma grows_send f s : grows quiet s (snd (send f s)).
Proof.
  unfold send. destruct (ws s); [|apply grows_refl].
  destruct (isConnected s); [now apply grows_emit|apply grows_refl].
Qed.

Lemma grows_subscribe l u s : grows quiet s (snd (subscribe l u s)).
Proof.
  unfold subscribe. destruct (negb (isConnected s)); [apply grows_refl|].
  pose proof (grows_send (f_subscribe l u) s) as H.
  destruct (send (f_subscribe l u) s) as [[a|e] s1]; cbn [snd] in *; [|exact H].
  eapply grows_trans; [exact H|]. now apply grows_same.
Qed.

Lemma grows_unsubscribe l s : grows quiet s (snd (unsubscribe l s)).
Proof.
  unfold unsubscribe. destruct (negb (isConnected s)); [apply grows_refl|].
  pose proof (grows_send (f_unsubscribe l) s) as H.
  destruct (send (f_unsubscribe l) s) as [[a|e] s1]; cbn [snd] in *; [|exact H].
  eapply grows_trans; [exact H|]. now apply grows_same.
Qed.

Lemma grows_resubscribe c l : forall s,
  grows quiet s (snd (resubscribe c l s)).
Proof.
  induction l as [|x l IH]; intros s; cbn [resubscribe]; [apply grows_refl|].
  destruct (match c with Some c0 => negb (jseqb x c0) | None => true end);
    [|apply IH].
  pose proof (grows_subscribe x None s) as H.
  destruct (subscribe x None s) as [[u|e] s1]; cbn [snd] in *; [|exact H].
  eapply grows_trans; [exact H|apply IH].
Qed.

Lemma grows_stopPingInterval P s : grows P s (stopPingInterval s).
Proof.
  unfold stopPingInterval. destruct (pingInterval s); now apply grows_same.
Qed.

Lemma grows_startPingInterval P s : grows P s (startPingInterval s).
Proof.
  unfold startPingInterval, stopPingInterval.
  destruct (pingInterval s); now apply grows_same.
Qed.

Lemma grows_cleanup s : grows quiet s (cleanup s).
Proof.
  unfold cleanup.
  set (s1 := match reconnectTimer s with
             | Some id => set_reconnectTimer None (clearTimer id s)
             | None => s
             end).
  assert (H1 : grows quiet s s1)
    by (subst s1; destruct (reconnectTimer s); now apply grows_same).
  set (s2 := stopPingInterval s1).
  assert (H2 : grows quiet s s2)
    by (eapply grows_trans; [exact H1|apply grows_stopPingInterval]).
  eapply grows_trans; [exact H2|].
  destruct (ws s2) as [i|]; [|now apply grows_same].
  eapply grows_trans; [apply (grows_socket_close quiet i None s2); reflexivity|].
  now apply grows_same.
Qed.

Lemma grows_disconnect s : grows quiet s (disconnect s).
Proof.
  unfold disconnect.
  eapply grows_trans; [|apply grows_cleanup]. now apply grows_same.
Qed.

Lemma grows_connect l u s : grows no_announce s (connect l u s).
Proof.
  unfold connect. destruct (isConnected s || isConnecting s); [apply grows_refl|].
  cbv zeta.
  match goal with
  | |- grows _ _ (if wsUrlValid (options ?s2) then _ else _) =>
      assert (H2 : grows no_announce s s2)
        by (destruct (truthy l); now apply grows_same);
      destruct (wsUrlValid (options s2))
  end.
  - eapply grows_trans; [exact H2|].
    eapply grows_trans; [|apply grows_emit; reflexivity]. now apply grows_same.
  - eapply grows_trans; [exact H2|].
    eapply grows_trans; [|apply grows_handleError; reflexivity].
    now apply grows_same.
Qed.

Lemma grows_handleMessage m s : grows quiet s (snd (handleMessage m s)).
Proof.
  assert (H0 : grows quiet s (notify (onMessage (handlers s)) (OnMessage m) s))
    by now apply grows_notify.
  unfold handleMessage. destruct m as [| |[b|]| | | | | |]; cbn [snd];
    try exact H0;
    try (eapply grows_trans; [exact H0|]; now apply grows_notify).
  - eapply grows_trans; [|apply grows_handleError; reflexivity].
    destruct (existsb _ permanentErrors); [|exact H0].
    eapply grows_trans; [exact H0|].
    cbn [ws set_permanentError set_shouldReconnect].
    match goal with
    | |- grows _ ?a match ws ?a with _ => _ end =>
        destruct (ws a) as [i|]; [|now apply grows_same]
    end.
    destruct (isConnected _); [|now apply grows_same].
    eapply grows_trans; [|apply grows_socket_close; reflexivity].
    now apply grows_same.
  - eapply grows_trans; [exact H0|apply grows_send].
Qed.

Lemma grows_onmessage d s : grows quiet s (onmessage d s).
Proof.
  unfold onmessage. destruct d as [|m]; [now apply grows_handleError|].
  pose proof (grows_handleMessage m s) as H.
  destruct (handleMessage m s) as [[u|e] s1]; cbn [snd] in H; [exact H|].
  eapply grows_trans; [exact H|now apply grows_handleError].
Qed.

Lemma grows_onopen s : grows quiet s (snd (onopen s)).
Proof.
  unfold onopen.
  eapply grows_trans; [|apply grows_resubscribe].
  eapply grows_trans; [|apply grows_notify; reflexivity].
  eapply grows_trans; [|apply grows_startPingInterval].
  now apply grows_same.
Qed.

Lemma grows_scheduleReconnect r s : grows no_socket s (scheduleReconnect r s).
Proof.
  unfold scheduleReconnect.
  destruct (negb (isOnline s)); [apply grows_refl|].
  destruct (Double.geb _ _); [now apply grows_handleError|].
  cbv zeta. set (s2 := notify _ _ _).
  apply (grows_trans _ s s2).
  - subst s2. eapply grows_trans; [|apply grows_notify; reflexivity].
    now apply grows_same.
  - unfold setTimer. eexists. split; [reflexivity|reflexivity].
Qed.

Lemma grows_ping_callback s : grows quiet s (ping_callback s).
Proof.
  unfold ping_callback. destruct (isConnected s); [apply grows_send|apply grows_refl].
Qed.

Lemma grows_handleOffline P s : grows P s (handleOffline s).
Proof.
  unfold handleOffline. cbn [reconnectTimer set_isOnline].
  destruct (reconnectTimer s); now apply grows_same.
Qed.

Lemma attempts_grows s s' :
  grows no_socket s s' -> attempts (out s') = attempts (out s).
Proof.
  intros [a [Ha Pa]]. rewrite Ha, attempts_app.
  replace (attempts a) with (@nil Output); [apply app_nil_r|].
  symmetry. apply filter_none. intros o Ho.
  rewrite forallb_forall in Pa. specialize (Pa o Ho). now destruct o.
Qed.

Lemma announced_app l1 l2 : announced (l1 ++ l2) = announced l1 ++ announced l2.
Proof.
  induction l1 as [|o l1 IH]; [reflexivity|].
  destruct o; cbn [announced app]; rewrite ?IH; reflexivity.
Qed.

Lemma announced_grows s s' :
  grows no_announce s s' -> announced (out s') = announced (out s).
Proof.
  intros [a [Ha Pa]]. rewrite Ha, announced_app.
  replace (announced a) with (@nil (nat * option Double.Number));
    [apply app_nil_r|].
  clear Ha. induction a as [|o a IH]; [reflexivity|].
  cbn [forallb] in Pa. apply andb_true_iff in Pa. destruct Pa as [Po Pa].
  destruct o; cbn [announced]; try (now apply IH). discriminate Po.
Qed.

(** *** Views of a state *)

Lemma core_timer_fields s s' : core s' = core s -> timer_fields s' = timer_fields s.
Proof. unfold core, timer_fields. intros H. inversion H. reflexivity. Qed.

Lemma core_budget s s' : core s' = core s -> budget s' = budget s.
Proof. unfold core, budget. intros H. inversion H. reflexivity. Qed.

Lemma core_isOnline s s' : core s' = core s -> isOnline s' = isOnline s.
Proof. unfold core. intros H. inversion H. reflexivity. Qed.

Ltac fields :=
  unfold timer_fields, budget, disconnect, cleanup, handleOffline,
    startPingInterval, stopPingInterval, setTimer, clearTimer, socket_close,
    handleError, notify, emit, set_readyState;
  repeat (cbn; try break_match); reflexivity.

Lemma budget_disconnect s : budget (disconnect s) = budget s.
Proof. fields. Qed.

Lemma isOnline_disconnect s : isOnline (disconnect s) = isOnline s.
Proof. fields. Qed.

Lemma budget_stopPingInterval s : budget (stopPingInterval s) = budget s.
Proof. fields. Qed.

Lemma isOnline_stopPingInterval s : isOnline (stopPingInterval s) = isOnline s.
Proof. fields. Qed.

Lemma budget_startPingInterval s : budget (startPingInterval s) = budget s.
Proof. fields. Qed.

Lemma isOnline_startPingInterval s :
  isOnline (startPingInterval s) = isOnline s.
Proof. fields. Qed.

Lemma budget_handleOffline s : budget (handleOffline s) = budget s.
Proof. fields. Qed.

Lemma isOnline_handleOffline s : isOnline (handleOffline s) = false.
Proof. fields. Qed.

Lemma budget_notify b o s : budget (notify b o s) = budget s.
Proof. destruct b; reflexivity. Qed.

Lemma isOnline_notify b o s : isOnline (notify b o s) = isOnline s.
Proof. destruct b; reflexivity. Qed.

Lemma timer_fields_notify b o s : timer_fields (notify b o s) = timer_fields s.
Proof. destruct b; reflexivity. Qed.

Lemma scheduleReconnect_offline r s :
  isOnline s = false -> scheduleReconnect r s = s.
Proof. intros H. unfold scheduleReconnect. now rewrite H. Qed.

Lemma isOnline_onopen s : isOnline (snd (onopen s)) = isOnline s.
Proof.
  unfold onopen.
  rewrite (core_isOnline _ _ (core_resubscribe _ _ _)).
  now rewrite isOnline_notify, isOnline_startPingInterval.
Qed.

Lemma budget_onopen s :
  budget (snd (onopen s)) = (0, options s).
Proof.
  unfold onopen.
  rewrite (core_budget _ _ (core_resubscribe _ _ _)).
  now rewrite budget_notify, budget_startPingInterval.
Qed.

Lemma timer_fields_reconnect s :
  timer_fields (snd (reconnect s)) = timer_fields s.
Proof.
  unfold reconnect. destruct (isConnected s || isConnecting s); [reflexivity|].
  destruct (permanentError s); [reflexivity|].
  destruct (negb _); [reflexivity|]. cbn [snd].
  now rewrite (core_timer_fields _ _ (core_connect _ _ _)).
Qed.

Lemma timer_fields_handleOnline s :
  timer_fields (handleOnline s) = timer_fields s.
Proof.
  unfold handleOnline. destruct (permanentError _); [reflexivity|].
  destruct (_ && _); [|reflexivity].
  now rewrite (core_timer_fields _ _ (core_connect _ _ _)).
Qed.

Lemma budget_handleOnline s : budget (handleOnline s) = budget s.
Proof.
  unfold handleOnline. destruct (permanentError _); [reflexivity|].
  destruct (_ && _); [|reflexivity].
  now rewrite (core_budget _ _ (core_connect _ _ _)).
Qed.

Lemma grows_handleOnline s : grows no_announce s (handleOnline s).
Proof.
  unfold handleOnline. destruct (permanentError _); [now apply grows_same|].
  destruct (_ && _); [|now apply grows_same].
  eapply grows_trans; [|apply grows_connect]. now apply grows_same.
Qed.

(** *** Offline *)

Lemma offline_step a s :
  keeps_offline a = true -> isOnline s = false ->
  isOnline (step a s) = false /\ grows no_socket s (step a s).
Proof.
  intros Ha Hs. destruct a; try discriminate Ha; cbn [step].
  - split; [now rewrite isOnline_disconnect|].
    eapply grows_weaken; [apply quiet_no_socket|apply grows_disconnect].
  - split; [now rewrite (core_isOnline _ _ (core_subscribe _ _ _))|].
    eapply grows_weaken; [apply quiet_no_socket|apply grows_subscribe].
  - split; [now rewrite (core_isOnline _ _ (core_unsubscribe _ _))|].
    eapply grows_weaken; [apply quiet_no_socket|apply grows_unsubscribe].
  - unfold reconnect.
    destruct (isConnected s || isConnecting s);
      [split; [exact Hs|apply grows_refl]|].
    destruct (permanentError s); [split; [exact Hs|apply grows_refl]|].
    cbn [isOnline set_shouldReconnect set_reconnectAttempts]. rewrite Hs.
    cbn [negb snd]. split; [exact Hs|now apply grows_same].
  - split; [exact Hs|now apply grows_same].
  - destruct (readyStateOf sock s) as [[]|];
      try (split; [exact Hs|apply grows_refl]).
    split; [now rewrite isOnline_onopen|].
    apply (grows_trans _ s (set_readyState sock OPEN s));
      [now apply grows_same|].
    eapply grows_weaken; [apply quiet_no_socket|apply grows_onopen].
  - destruct (readyStateOf sock s) as [[]|];
      try (split; [exact Hs|apply grows_refl]);
      (split; [now rewrite (core_isOnline _ _ (core_onmessage _ _))|];
       eapply grows_weaken; [apply quiet_no_socket|apply grows_onmessage]).
  - destruct (readyStateOf sock s) as [[]|];
      try (split; [exact Hs|apply grows_refl]);
      (split; [unfold onerror; now rewrite (core_isOnline _ _ (core_handleError _ _))|];
       now apply grows_handleError).
  - destruct (readyStateOf sock s) as [[]|];
      try (split; [exact Hs|apply grows_refl]);
      unfold onclose;
      match goal with
      | |- context [if shouldReconnect ?s2 then _ else _] =>
          assert (H2 : isOnline s2 = false /\ grows no_socket s s2)
            by (split;
                [now rewrite isOnline_notify, isOnline_stopPingInterval
                |eapply grows_trans; [|now apply grows_notify];
                 eapply grows_trans; [|apply grows_stopPingInterval];
                 now apply grows_same]);
          destruct (shouldReconnect s2);
          [rewrite scheduleReconnect_offline by apply H2|]; exact H2
      end.
  - destruct (find _ (timers s)) as [[i []]|];
      try (split; [exact Hs|apply grows_refl]).
    + unfold reconnect_callback. cbn [isOnline clearTimer set_timers].
      rewrite Hs, scheduleReconnect_offline by exact Hs.
      split; [exact Hs|now apply grows_same].
    + split; [now rewrite (core_isOnline _ _ (core_ping_callback _))|].
      eapply grows_weaken; [apply quiet_no_socket|apply grows_ping_callback].
  - split; [apply isOnline_handleOffline|apply grows_handleOffline].
Qed.

(** X21.  While the network is reported offline the client creates no
    socket on its own.  From a state that is offline, whatever the sockets
    and timers do and whatever the application calls apart from
    [connect()], for as long as no [online] event arrives the client stays
    offline and the log gets no new socket: the reconnect timer that fires
    offline, a socket that closes and [reconnect()] create none. *)
Theorem offline_no_connection (s : t) (l : list Action) :
  isOnline s = false ->
  Forall (fun a => keeps_offline a = true) l ->
  isOnline (run l s) = false /\
  attempts (out (run l s)) = attempts (out s).
Proof.
  revert s. induction l as [|a l IH]; intros s Hs Hl; [now split|].
  inversion Hl as [|? ? Ha Hl']; subst.
  destruct (offline_step a s Ha Hs) as [Hs' Hg].
  cbn [run fold_left]. fold (run l (step a s)).
  destruct (IH (step a s) Hs' Hl') as [H1 H2].
  split; [exact H1|]. rewrite H2. now apply attempts_grows.
Qed.

Lemma offline_no_connection_witness :
  attempts
    (out (run [SockClose 0 1006 [] (1 # 2); TimerFire 2 0; Reconnect;
               Subscribe (js "M") None]
            (step NetOffline live)))
  = [NewSocket 0 (Some (js "L")) None].
Proof.
  destruct (offline_no_connection (step NetOffline live)
              [SockClose 0 1006 [] (1 # 2); TimerFire 2 0; Reconnect;
               Subscribe (js "M") None]) as [_ H].
  - vm_compute. reflexivity.
  - repeat constructor.
  - rewrite H. vm_compute. reflexivity.
Defined.

(** *** The attempt counter *)

Section Budget.
Variable o : Options.
Variable m : nat.
Hypothesis limit : maxReconnectAttempts o = Some (Double.of_nat m).

Lemma within_same s s' :
  budget s' = budget s -> grows no_announce s s' -> within o m s -> within o m s'.
Proof.
  unfold within, bounded, budget. intros Hb Hg (Ho & Hn & Ha).
  inversion Hb as [[H1 H2]]. rewrite H1, H2, (announced_grows _ _ Hg). auto.
Qed.

Lemma within_reset s s' :
  budget s' = (0, options s) -> grows no_announce s s' -> within o m s -> within o m s'.
Proof.
  unfold within, bounded, budget. intros Hb Hg (Ho & Hn & Ha).
  inversion Hb as [[H1 H2]]. rewrite H1, H2, (announced_grows _ _ Hg).
  split; [exact Ho|]. split; [lia|exact Ha].
Qed.

Lemma geb_of_nat n k :
  Double.geb (Double.of_nat n) (Double.of_nat k) = (k <=? n).
Proof.
  unfold Double.geb, Double.of_nat.
  destruct (k <=? n) eqn:E.
  - apply Nat.leb_le in E. apply Qle_bool_iff. rewrite <- Zle_Qle. lia.
  - apply Nat.leb_gt in E.
    destruct (Qle_bool _ _) eqn:F; [|reflexivity].
    apply Qle_bool_iff in F. rewrite <- Zle_Qle in F. lia.
Qed.

Lemma within_scheduleReconnect r s :
  within o m s -> within o m (scheduleReconnect r s).
Proof.
  intros H. unfold scheduleReconnect.
  destruct (negb (isOnline s)); [exact H|].
  assert (G : Double.geb (Double.of_nat (reconnectAttempts s))
                (Double.to_number (maxReconnectAttempts (options s)))
              = (m <=? reconnectAttempts s)).
  { destruct H as (Ho & _). rewrite Ho, limit. apply geb_of_nat. }
  rewrite G.
  destruct (_ <=? _) eqn:E.
  - eapply within_same; [|apply grows_handleError; reflexivity|exact H].
    unfold handleError. apply budget_notify.
  - apply Nat.leb_gt in E. destruct H as (Ho & Hn & Ha).
    unfold setTimer, within, bounded in *. cbv zeta.
    cbn [options reconnectAttempts out set_reconnectTimer set_nextTimer
         set_timers set_reconnectAttempts handlers emit set_out].
    unfold notify.
    destruct (onReconnecting (handlers s));
      cbn [options reconnectAttempts out emit set_out set_reconnectAttempts].
    + split; [exact Ho|]. split; [lia|].
      rewrite !announced_app. cbn [announced]. rewrite app_nil_r.
      apply Forall_app. split; [exact Ha|].
      constructor; [|constructor].
      unfold announced_ok. cbn [fst snd]. rewrite Ho, limit. split; [lia|].
      reflexivity.
    + split; [exact Ho|]. split; [lia|].
      rewrite announced_app. cbn [announced]. now rewrite app_nil_r.
Qed.

Lemma within_step a s : within o m s -> within o m (step a s).
Proof.
  intros H. destruct a; cbn [step].
  - eapply within_same; [|apply grows_connect|exact H].
    apply core_budget, core_connect.
  - eapply within_same; [apply budget_disconnect| |exact H].
    eapply grows_weaken; [apply quiet_no_announce|apply grows_disconnect].
  - eapply within_same; [apply core_budget, core_subscribe| |exact H].
    eapply grows_weaken; [apply quiet_no_announce|apply grows_subscribe].
  - eapply within_same; [apply core_budget, core_unsubscribe| |exact H].
    eapply grows_weaken; [apply quiet_no_announce|apply grows_unsubscribe].
  - unfold reconnect. destruct (isConnected s || isConnecting s); [exact H|].
    destruct (permanentError s); [exact H|].
    assert (H1 : within o m (set_shouldReconnect true (set_reconnectAttempts 0 s)))
      by (apply (within_reset s); [reflexivity|now apply grows_same|exact H]).
    destruct (negb _); cbn [snd]; [exact H1|].
    eapply within_same; [apply core_budget, core_connect|apply grows_connect|].
    exact H1.
  - exact H.
  - destruct (readyStateOf sock s) as [[]|]; try exact H.
    apply (within_reset (set_readyState sock OPEN s));
      [apply budget_onopen| |exact H].
    eapply grows_weaken; [apply quiet_no_announce|apply grows_onopen].
  - destruct (readyStateOf sock s) as [[]|]; try exact H;
      (eapply within_same; [apply core_budget, core_onmessage| |exact H];
       eapply grows_weaken; [apply quiet_no_announce|apply grows_onmessage]).
  - destruct (readyStateOf sock s) as [[]|]; try exact H;
      (eapply within_same;
         [apply core_budget, core_handleError
         |now apply grows_handleError|exact H]).
  - destruct (readyStateOf sock s) as [[]|]; try exact H;
      unfold onclose;
      match goal with
      | |- context [if shouldReconnect ?s2 then _ else _] =>
          assert (H2 : within o m s2)
            by (apply (within_same s);
                [now rewrite budget_notify, budget_stopPingInterval
                |eapply grows_trans; [|now apply grows_notify];
                 eapply grows_trans; [|apply grows_stopPingInterval];
                 now apply grows_same
                |exact H]);
          destruct (shouldReconnect s2);
          [now apply within_scheduleReconnect|exact H2]
      end.
  - destruct (find _ (timers s)) as [[i []]|]; try exact H.
    + assert (H1 : within o m (clearTimer id s)) by exact H.
      unfold reconnect_callback. destruct (isOnline _).
      * eapply within_same; [apply core_budget, core_connect|apply grows_connect|].
        exact H1.
      * now apply within_scheduleReconnect.
    + eapply within_same; [apply core_budget, core_ping_callback| |exact H].
      eapply grows_weaken; [apply quiet_no_announce|apply grows_ping_callback].
  - eapply within_same; [apply budget_handleOnline|apply grows_handleOnline|].
    exact H.
  - eapply within_same; [apply budget_handleOffline|apply grows_handleOffline|].
    exact H.
Qed.

Lemma within_run l : forall s, within o m s -> within o m (run l s).
Proof.
  induction l as [|a l IH]; intros s H; [exact H|].
  cbn [run fold_left]. apply (IH (step a s)). now apply within_step.
Qed.

Lemma within_new online : within o m (new o online).
Proof.
  unfold within, bounded. cbn. split; [reflexivity|]. split; [lia|constructor].
Qed.
End Budget.

(** X18.  When [maxReconnectAttempts] is a number [m], as with the
    default or with a number the application gave, then in every state
    that a client reaches from its construction, under any sequence of
    calls, socket events, timers and network changes, the attempt counter
    is at most [m], and every attempt number that [onReconnecting] was
    given lies between 1 and [m], which is the second argument of the
    call.  (With the [undefined] that [connectWebSocket] passes when the
    application gives no limit, the test [attempts >= undefined] of
    [scheduleReconnect] is never true and there is no such bound.) *)
Theorem attempts_bounded (o : Options) (m : nat) (online : bool)
    (l : list Action) :
  maxReconnectAttempts o = Some (Double.of_nat m) ->
  let s := run l (new o online) in
  reconnectAttempts s <= m /\
  Forall (fun am => 1 <= fst am <= m /\ snd am = Some (Double.of_nat m))
    (announced (out s)).
Proof.
  intros Hm. cbv zeta.
  destruct (within_run o m Hm l (new o online) (within_new o m online))
    as (_ & Hn & Ha).
  split; [exact Hn|exact Ha].
Qed.

(** With the default limit of 5, six connections that fail in a row
    leave the counter at 5. *)
Lemma attempts_bounded_witness :
  reconnectAttempts
    (run [Connect None None;
          SockClose 0 1006 [] (1 # 2); TimerFire 1 0;
          SockClose 1 1006 [] (1 # 2); TimerFire 2 0;
          SockClose 2 1006 [] (1 # 2); TimerFire 3 0;
          SockClose 3 1006 [] (1 # 2); TimerFire 4 0;
          SockClose 4 1006 [] (1 # 2); TimerFire 5 0;
          SockClose 5 1006 [] (1 # 2)]
       (new defaults true)) <= 5.
Proof.
  apply (attempts_bounded defaults 5 true). reflexivity.
Defined.

(** *** Heartbeat timers *)

Lemma filter_filter_absorb {A : Type} (f g : A -> bool) l :
  (forall x, In x l -> f x = true -> g x = true) ->
  filter f (filter g l) = filter f l.
Proof.
  induction l as [|x l IH]; simpl; intros H; [reflexivity|].
  assert (IH' : filter f (filter g l) = filter f l)
    by (apply IH; intros y Hy; apply H; now right).
  destruct (g x) eqn:G; simpl.
  - now rewrite IH'.
  - destruct (f x) eqn:F; [|exact IH'].
    rewrite (H x) in G by auto. discriminate.
Qed.

Lemma wf_same s s' :
  timer_fields s' = timer_fields s -> timers_wf s -> timers_wf s'.
Proof.
  unfold timer_fields, timers_wf, pendingPings, heartbeat_of.
  intros H. inversion H as [[H1 H2 H3 H4]]. now rewrite H1, H2, H3, H4.
Qed.

(** Clearing a handle that is no pending heartbeat. *)
Lemma wf_clear id s s' :
  timers_wf s -> ~ In (id, PingTick) (timers s) ->
  timers s' = filter (fun p => negb (fst p =? id)) (timers s) ->
  nextTimer s' = nextTimer s -> pingInterval s' = pingInterval s ->
  reconnectTimer s' = reconnectTimer s \/ reconnectTimer s' = None ->
  timers_wf s'.
Proof.
  unfold timers_wf, pendingPings, heartbeat_of.
  intros (Hd & Hb & Hp & Hr) Hid Ht Hn Hpi Hrt. rewrite Ht, Hn, Hpi.
  split; [now apply OfflineQueueSpec.NoDup_map_filter|].
  split; [intros p Hin; apply filter_In in Hin; now apply Hb|].
  split.
  - rewrite <- Hp. apply filter_filter_absorb.
    intros [i k] Hin Hk. cbn [fst snd] in *. destruct k; [discriminate|].
    apply negb_true_iff, Nat.eqb_neq. intros ->. contradiction.
  - intros r Hr'. destruct Hrt as [E|E]; rewrite E in Hr'; [|discriminate].
    destruct (Hr r Hr') as [H1 H2]. split; [exact H1|].
    intros Hin. apply filter_In in Hin. tauto.
Qed.

(** Clearing the heartbeat the client holds. *)
Lemma wf_stop id s s' :
  timers_wf s -> pingInterval s = Some id ->
  timers s' = filter (fun p => negb (fst p =? id)) (timers s) ->
  nextTimer s' = nextTimer s -> pingInterval s' = None ->
  reconnectTimer s' = reconnectTimer s ->
  timers_wf s'.
Proof.
  unfold timers_wf, pendingPings, heartbeat_of.
  intros (Hd & Hb & Hp & Hr) Hid Ht Hn Hpi Hrt. rewrite Ht, Hn, Hpi, Hrt.
  rewrite Hid in Hp.
  split; [now apply OfflineQueueSpec.NoDup_map_filter|].
  split; [intros p Hin; apply filter_In in Hin; now apply Hb|].
  split.
  - rewrite OfflineQueueSpec.filter_filter.
    apply filter_none. intros [i k] Hin. cbn [fst snd].
    destruct k; [apply andb_false_r|]. rewrite andb_true_r.
    assert (Hk : In (i, PingTick)
                   (filter (fun p => match snd p with
                                     | PingTick => true
                                     | ReconnectTimeout => false
                                     end) (timers s)))
      by (apply filter_In; split; [exact Hin|reflexivity]).
    rewrite Hp in Hk. destruct Hk as [Hk|[]]. inversion Hk.
    now rewrite Nat.eqb_refl.
  - intros r Hr'. destruct (Hr r Hr') as [H1 H2]. split; [exact H1|].
    intros Hin. apply filter_In in Hin. tauto.
Qed.

(** A new timer gets the next handle. *)
Lemma wf_set k s s' :
  timers_wf s ->
  timers s' = timers s ++ [(nextTimer s, k)] ->
  nextTimer s' = S (nextTimer s) ->
  match k with
  | PingTick =>
      pingInterval s = None /\ pingInterval s' = Some (nextTimer s) /\
      reconnectTimer s' = reconnectTimer s
  | ReconnectTimeout =>
      pingInterval s' = pingInterval s /\
      reconnectTimer s' = Some (nextTimer s)
  end ->
  timers_wf s'.
Proof.
  unfold timers_wf, pendingPings, heartbeat_of.
  intros (Hd & Hb & Hp & Hr) Ht Hn Hk. rewrite Ht, Hn.
  assert (Hfresh : ~ In (nextTimer s) (map fst (timers s))).
  { intros Hin. apply in_map_iff in Hin. destruct Hin as [p [E Hin]].
    specialize (Hb p Hin). lia. }
  split.
  { rewrite map_app. cbn [map fst]. apply NoDup_app; [exact Hd| |].
    - repeat constructor. intros [].
    - intros x Hx [<-|[]]. contradiction. }
  split.
  { intros p Hin. apply in_app_or in Hin. destruct Hin as [Hin|[<-|[]]].
    - specialize (Hb p Hin). lia.
    - cbn [fst]. lia. }
  rewrite filter_app, Hp. cbn [filter snd].
  destruct k.
  - destruct Hk as [H1 H2]. rewrite H1, H2, app_nil_r.
    split; [reflexivity|]. intros r Hr'. inversion Hr'; subst r.
    split; [lia|]. intros Hin. apply in_app_or in Hin.
    destruct Hin as [Hin|[Hin|[]]]; [|discriminate Hin].
    apply Hfresh. apply in_map_iff. now exists (nextTimer s, PingTick).
  - destruct Hk as (H1 & H2 & H3). rewrite H1 in *. rewrite H2, H3.
    split; [reflexivity|]. intros r Hr'. destruct (Hr r Hr') as [Hlt Hnot].
    split; [lia|]. intros Hin. apply in_app_or in Hin.
    destruct Hin as [Hin|[Hin|[]]]; [contradiction|].
    inversion Hin. lia.
Qed.

Lemma wf_stopPingInterval s :
  timers_wf s ->
  timers_wf (stopPingInterval s) /\ pingInterval (stopPingInterval s) = None.
Proof.
  intros H. unfold stopPingInterval.
  destruct (pingInterval s) as [id|] eqn:E; [|now split].
  split; [|reflexivity]. now apply (wf_stop id s).
Qed.

Lemma wf_startPingInterval s : timers_wf s -> timers_wf (startPingInterval s).
Proof.
  intros H. destruct (wf_stopPingInterval s H) as [H1 H2].
  unfold startPingInterval, setTimer.
  apply (wf_set PingTick (stopPingInterval s)); auto.
Qed.

Lemma wf_clearReconnect s :
  timers_wf s ->
  timers_wf (match reconnectTimer s with
             | Some id => set_reconnectTimer None (clearTimer id s)
             | None => s
             end).
Proof.
  intros H. destruct (reconnectTimer s) as [id|] eqn:E; [|exact H].
  apply (wf_clear id s); auto.
  destruct H as (_ & _ & _ & Hr). now apply Hr.
Qed.

Lemma wf_cleanup s : timers_wf s -> timers_wf (cleanup s).
Proof.
  intros H. unfold cleanup.
  set (s1 := match reconnectTimer s with
             | Some id => set_reconnectTimer None (clearTimer id s)
             | None => s
             end).
  assert (H1 : timers_wf s1) by now apply wf_clearReconnect.
  destruct (wf_stopPingInterval s1 H1) as [H2 _].
  set (s2 := stopPingInterval s1) in *.
  eapply wf_same; [|exact H2].
  destruct (ws s2) as [i|]; [|reflexivity].
  unfold timer_fields. cbn.
  pose proof (core_timer_fields _ _ (core_socket_close i None s2)) as C.
  exact C.
Qed.

Lemma pingInterval_stopPingInterval s :
  pingInterval (stopPingInterval s) = None.
Proof.
  unfold stopPingInterval. destruct (pingInterval s) eqn:E; [reflexivity|exact E].
Qed.

Lemma pingInterval_cleanup s : pingInterval (cleanup s) = None.
Proof.
  unfold cleanup. cbv zeta.
  match goal with
  | |- pingInterval (set_isConnecting false match ws ?s2 with _ => _ end)
       = None =>
      assert (H : pingInterval s2 = None)
        by apply pingInterval_stopPingInterval;
      destruct (ws s2) as [i|]; [|exact H];
      pose proof (core_timer_fields _ _ (core_socket_close i None s2)) as C
  end.
  unfold timer_fields in C. inversion C as [[C1 C2 C3 C4]].
  cbn [pingInterval set_isConnecting set_ws]. now rewrite C3.
Qed.

Lemma wf_scheduleReconnect r s :
  timers_wf s -> timers_wf (scheduleReconnect r s).
Proof.
  intros H. unfold scheduleReconnect.
  destruct (negb (isOnline s)); [exact H|].
  destruct (Double.geb _ _).
  - eapply wf_same; [|exact H]. unfold handleError. apply timer_fields_notify.
  - cbv zeta.
    set (s2 := notify _ _ _).
    assert (H2 : timers_wf s2).
    { eapply wf_same; [|exact H]. subst s2.
      now rewrite timer_fields_notify. }
    unfold setTimer. apply (wf_set ReconnectTimeout s2); auto.
Qed.

Lemma find_no_ping id i (l : list (nat * Timer)) :
  NoDup (map fst l) ->
  find (fun p => fst p =? id) l = Some (i, ReconnectTimeout) ->
  ~ In (id, PingTick) l.
Proof.
  induction l as [|[j k] l IH]; simpl; intros Hd Hf Hin; [exact Hin|].
  inversion Hd as [|? ? Hj Hl]; subst.
  destruct (j =? id) eqn:E.
  - apply Nat.eqb_eq in E. subst j. inversion Hf; subst.
    destruct Hin as [Hin|Hin]; [discriminate Hin|].
    apply Hj. apply in_map_iff. now exists (i, PingTick).
  - destruct Hin as [Hin|Hin].
    + inversion Hin; subst. now rewrite Nat.eqb_refl in E.
    + now apply IH.
Qed.

Lemma wf_step a s : timers_wf s -> timers_wf (step a s).
Proof.
  intros H. destruct a; cbn [step].
  - eapply wf_same; [apply core_timer_fields, core_connect|exact H].
  - unfold disconnect. apply wf_cleanup. exact H.
  - eapply wf_same; [apply core_timer_fields, core_subscribe|exact H].
  - eapply wf_same; [apply core_timer_fields, core_unsubscribe|exact H].
  - eapply wf_same; [apply timer_fields_reconnect|exact H].
  - exact H.
  - destruct (readyStateOf sock s) as [[]|]; try exact H.
    unfold onopen.
    eapply wf_same; [apply core_timer_fields, core_resubscribe|].
    eapply wf_same; [apply timer_fields_notify|].
    apply wf_startPingInterval. exact H.
  - destruct (readyStateOf sock s) as [[]|]; try exact H;
      (eapply wf_same; [apply core_timer_fields, core_onmessage|exact H]).
  - destruct (readyStateOf sock s) as [[]|]; try exact H;
      (eapply wf_same; [apply core_timer_fields, core_handleError|exact H]).
  - destruct (readyStateOf sock s) as [[]|]; try exact H;
      unfold onclose;
      match goal with
      | |- context [if shouldReconnect ?s2 then _ else _] =>
          assert (H2 : timers_wf s2)
            by (eapply wf_same; [apply timer_fields_notify|];
                apply wf_stopPingInterval; exact H);
          destruct (shouldReconnect s2);
          [now apply wf_scheduleReconnect|exact H2]
      end.
  - destruct (find _ (timers s)) as [[i []]|] eqn:F; try exact H.
    + assert (H1 : timers_wf (clearTimer id s)).
      { apply (wf_clear id s); auto.
        destruct H as (Hd & _). exact (find_no_ping id i _ Hd F). }
      unfold reconnect_callback. destruct (isOnline _).
      * eapply wf_same; [apply core_timer_fields, core_connect|exact H1].
      * now apply wf_scheduleReconnect.
    + eapply wf_same; [apply core_timer_fields, core_ping_callback|exact H].
  - eapply wf_same; [apply timer_fields_handleOnline|exact H].
  - unfold handleOffline. apply (wf_clearReconnect (set_isOnline false s)).
    exact H.
Qed.

(** X19.  The heartbeat never leaks.  When handles are not reused and the
    only pending heartbeat is the one the client holds, as after the
    constructor, this stays so under any sequence of calls, socket events,
    timers and network changes: at most one heartbeat interval is pending,
    it is the one in [pingInterval], and after [disconnect()] none is. *)
Theorem heartbeat_tracked (s : t) (l : list Action) :
  timers_wf s ->
  pendingPings (run l s) = heartbeat_of (run l s) /\
  length (pendingPings (run l s)) <= 1 /\
  pendingPings (disconnect (run l s)) = [].
Proof.
  intros H.
  assert (R : forall l s, timers_wf s -> timers_wf (run l s)).
  { clear. induction l as [|a l IH]; intros s H; [exact H|].
    cbn [run fold_left]. apply (IH (step a s)). now apply wf_step. }
  specialize (R l s H).
  assert (P : pendingPings (run l s) = heartbeat_of (run l s)) by apply R.
  split; [exact P|]. split.
  - rewrite P. unfold heartbeat_of. destruct (pingInterval _); simpl; lia.
  - assert (D : timers_wf (disconnect (run l s)))
      by (unfold disconnect; apply wf_cleanup; exact R).
    destruct D as (_ & _ & D & _). rewrite D.
    unfold heartbeat_of, disconnect. now rewrite pingInterval_cleanup.
Qed.

Lemma heartbeat_tracked_witness :
  pendingPings
    (run [Connect None None; SockOpen 0; SockClose 0 1006 [] (1 # 2);
          TimerFire 2 0; SockOpen 1]
       (new defaults true)) = [(3, PingTick)].
Proof.
  assert (W : timers_wf (new defaults true)).
  { unfold timers_wf. cbn. split; [constructor|]. split; [intros p []|].
    split; [reflexivity|]. intros id E. discriminate E. }
  destruct (heartbeat_tracked (new defaults true)
              [Connect None None; SockOpen 0; SockClose 0 1006 [] (1 # 2);
               TimerFire 2 0; SockOpen 1] W) as [H _].
  rewrite H. vm_compute. reflexivity.
Defined.

(** *** [onopen] *)

Lemma nth_update_readyState_url i r : forall l k,
  nth_error l i = Some k ->
  nth_error (update_readyState i r l) i =
    Some {| readyState := r; url_leaderboard_id := url_leaderboard_id k;
            url_user_id := url_user_id k |}.
Proof.
  induction i as [|i IH]; intros [|x l] k H; try discriminate; simpl in *.
  - now inversion H.
  - now apply IH.
Qed.

Lemma set_out_out s : set_out (out s) s = s.
Proof. now destruct s. Qed.

Lemma subscribe_present i x u s :
  ws s = Some i -> isConnected s = true ->
  In x (subscribedLeaderboards s) ->
  subscribe x u s = (Ok tt, emit (Sent i (f_subscribe x u)) s).
Proof.
  intros Hw Hc Hx. unfold subscribe, send. rewrite Hc, Hw. cbn [negb].
  cbn [subscribedLeaderboards emit set_out]. rewrite (sadd_present _ _ Hx).
  reflexivity.
Qed.

Lemma resubscribe_connected c i : forall l s,
  ws s = Some i -> isConnected s = true ->
  (forall x, In x l -> In x (subscribedLeaderboards s)) ->
  resubscribe c l s =
    (Ok tt,
     set_out (out s ++ map (fun x => Sent i (f_subscribe x None))
                         (to_resubscribe c l)) s).
Proof.
  induction l as [|x l IH]; intros s Hw Hc Hl.
  - cbn. now rewrite app_nil_r, set_out_out.
  - cbn [resubscribe to_resubscribe filter].
    destruct (match c with Some c0 => negb (jseqb x c0) | None => true end).
    + rewrite (subscribe_present i x None s Hw Hc) by (apply Hl; now left).
      rewrite IH; [|exact Hw|exact Hc|intros y Hy; apply Hl; now right].
      f_equal. destruct s. cbn. now rewrite <- app_assoc.
    + apply IH; [exact Hw|exact Hc|intros y Hy; apply Hl; now right].
Qed.

(** X20.  When the current socket opens, the client sends one subscribe
    frame on it for every topic of its subscription set except the
    leaderboard of the socket's URL, in the order of the set and after
    [onConnect] was called; the set itself is unchanged, the attempt
    counter is back at zero and the client is connected. *)
Theorem onopen_resubscribes (i : nat) (s : t) :
  ws s = Some i -> readyStateOf i s = Some CONNECTING ->
  let s' := step (SockOpen i) s in
  out s' =
    out s ++ surfaced (onConnect (handlers s)) OnConnect ++
    map (fun x => Sent i (f_subscribe x None))
      (to_resubscribe (connectedLeaderboardId s) (subscribedLeaderboards s)) /\
  subscribedLeaderboards s' = subscribedLeaderboards s /\
  reconnectAttempts s' = 0 /\ isConnecting s' = false /\
  isConnected s' = true /\ flags s' = flags s.
Proof.
  intros Hw Hr. cbv zeta. cbn [step]. rewrite Hr.
  unfold readyStateOf in Hr.
  destruct (nth_error (sockets s) i) as [k|] eqn:Hk; [|discriminate].
  pose proof (nth_update_readyState_url i OPEN _ _ Hk) as Hn.
  unfold onopen. cbv zeta.
  set (s3 := notify _ OnConnect _).
  assert (F : ws s3 = Some i /\
              sockets s3 = update_readyState i OPEN (sockets s) /\
              subscribedLeaderboards s3 = subscribedLeaderboards s /\
              out s3 = out s ++ surfaced (onConnect (handlers s)) OnConnect /\
              reconnectAttempts s3 = 0 /\ isConnecting s3 = false /\
              flags s3 = flags s).
  { subst s3.
    unfold startPingInterval, stopPingInterval, setTimer, notify, emit,
      surfaced, flags.
    cbn [pingInterval set_reconnectAttempts set_isConnecting set_readyState
         set_sockets].
    destruct (pingInterval s); cbn; destruct (onConnect (handlers s)); cbn;
      rewrite ?app_nil_r; repeat split; assumption. }
  destruct F as (F1 & F2 & F3 & F4 & F5 & F6 & F7).
  assert (C : isConnected s3 = true)
    by (unfold isConnected, readyStateOf; now rewrite F1, F2, Hn).
  rewrite F1, F2, Hn. cbn [url_leaderboard_id].
  rewrite (resubscribe_connected _ i _ s3 F1 C) by auto.
  cbn [snd out set_out subscribedLeaderboards reconnectAttempts isConnecting].
  rewrite F3, F4, <- app_assoc.
  unfold connectedLeaderboardId. rewrite Hw, Hk.
  repeat split; assumption.
Qed.

Lemma onopen_resubscribes_witness :
  out (step (SockOpen 1) reconnecting) =
    out reconnecting ++ [Sent 1 (f_subscribe (js "L") None);
                         Sent 1 (f_subscribe (js "M") None)].
Proof.
  destruct (onopen_resubscribes 1 reconnecting) as [H _].
  - vm_compute. reflexivity.
  - vm_compute. reflexivity.
  - rewrite H. f_equal.
Defined.

(** *** Inbound messages *)

Lemma wiring_notify b o s : wiring (notify b o s) = wiring s.
Proof. destruct b; reflexivity. Qed.

Lemma wiring_socket_close i c s : wiring (socket_close i c s) = wiring s.
Proof.
  unfold socket_close. destruct (readyStateOf i _) as [[]|]; reflexivity.
Qed.

Lemma wiring_send f s : wiring (snd (send f s)) = wiring s.
Proof.
  unfold send. destruct (ws s); [|reflexivity].
  destruct (isConnected s); reflexivity.
Qed.

Lemma wiring_handleMessage m s : wiring (snd (handleMessage m s)) = wiring s.
Proof.
  assert (H0 : wiring (notify (onMessage (handlers s)) (OnMessage m) s)
               = wiring s) by apply wiring_notify.
  unfold handleMessage, handleError.
  destruct m as [| |[b|]| | | | | |]; cbn [snd];
    rewrite ?wiring_notify, ?wiring_send; try reflexivity; try exact H0.
  destruct (existsb _ permanentErrors); [|exact H0].
  cbn [ws set_permanentError set_shouldReconnect].
  destruct (ws _) as [i|]; [|exact H0].
  destruct (isConnected _); [|exact H0].
  rewrite wiring_socket_close. exact H0.
Qed.

Lemma wiring_onmessage d s : wiring (onmessage d s) = wiring s.
Proof.
  unfold onmessage, handleError. destruct d as [|m]; [apply wiring_notify|].
  pose proof (wiring_handleMessage m s) as H.
  destruct (handleMessage m s) as [[u|e] s1]; cbn [snd] in H; [exact H|].
  now rewrite wiring_notify.
Qed.

Lemma sockets_notify b o s : sockets (notify b o s) = sockets s.
Proof. destruct b; reflexivity. Qed.

Lemma sockets_send f s : sockets (snd (send f s)) = sockets s.
Proof.
  unfold send. destruct (ws s); [|reflexivity].
  destruct (isConnected s); reflexivity.
Qed.

Lemma handleMessage_temporary m s :
  is_permanent (Parsed m) = false ->
  flags (snd (handleMessage m s)) = flags s /\
  sockets (snd (handleMessage m s)) = sockets s.
Proof.
  intros H. unfold handleMessage, handleError.
  destruct m as [| |[b|]| | | | | |]; cbn [snd is_permanent] in *;
    try rewrite H;
    rewrite ?flags_notify, ?sockets_notify, ?flags_send, ?sockets_send,
      ?flags_notify, ?sockets_notify;
    split; reflexivity.
Qed.

Lemma onmessage_temporary d s :
  is_permanent d = false ->
  flags (onmessage d s) = flags s /\ sockets (onmessage d s) = sockets s.
Proof.
  intros H. unfold onmessage, handleError. destruct d as [|m].
  - now rewrite flags_notify, sockets_notify.
  - pose proof (handleMessage_temporary m s H) as [H1 H2].
    destruct (handleMessage m s) as [[u|e] s1]; cbn [snd] in *; [now split|].
    now rewrite flags_notify, sockets_notify.
Qed.

Lemma isConnected_fields s s' :
  ws s' = ws s -> sockets s' = sockets s -> isConnected s' = isConnected s.
Proof. unfold isConnected, readyStateOf. now intros -> ->. Qed.

Lemma onmessage_permanent d s :
  is_permanent d = true ->
  shouldReconnect (onmessage d s) = false /\
  permanentError (onmessage d s) <> None /\
  isConnected (onmessage d s) = false.
Proof.
  intros H. destruct d as [|[| |[b|]| | | | | |]]; try discriminate H.
  cbn [is_permanent] in H. unfold onmessage, handleMessage. rewrite H.
  set (s0 := notify _ _ s).
  set (s1 := set_permanentError _ (set_shouldReconnect false s0)).
  set (s2 := match ws s1 with
             | Some i => if isConnected s1 then socket_close i (Some 4000%Z) s1
                         else s1
             | None => s1
             end).
  assert (F : shouldReconnect s2 = false /\ permanentError s2 <> None /\
              isConnected s2 = false).
  { assert (F1 : flags s2 = flags s1).
    { subst s2. destruct (ws s1); [|reflexivity].
      destruct (isConnected s1); [apply flags_socket_close|reflexivity]. }
    unfold flags in F1.
    assert (P : permanentError s2 = permanentError s1) by congruence.
    assert (S : shouldReconnect s2 = shouldReconnect s1) by congruence.
    split; [rewrite S; reflexivity|].
    split; [rewrite P; subst s1; cbn; discriminate|].
    subst s2. destruct (ws s1) as [i|] eqn:W.
    - destruct (isConnected s1) eqn:C; [|exact C].
      now apply isConnected_socket_close.
    - unfold isConnected. now rewrite W. }
  destruct F as (F1 & F2 & F3).
  assert (G : flags (handleError (GLError (error_message b)
                (or_else (error_code b) (js "UNKNOWN_ERROR")) None) s2)
              = flags s2) by apply flags_handleError.
  unfold flags in G.
  split; [rewrite <- F1; congruence|]. split; [intros N; apply F2; congruence|].
  rewrite <- F3. unfold handleError. apply isConnected_notify.
Qed.

(** X22.  An inbound message, parseable or not, never touches timers, the
    attempt counter, the network flag, the subscription set, the current
    socket handle or the registered handlers, creates no socket and
    announces no reconnection.  Unless it is an error with one of the four
    permanent codes it leaves the sockets and the reconnection flags as
    they are as well; if it is one, reconnection is off afterwards, the
    error is stored and the client is not connected. *)
Theorem onmessage_frame (d : Inbound) (s : t) :
  let s' := onmessage d s in
  core s' = core s /\
  subscribedLeaderboards s' = subscribedLeaderboards s /\
  ws s' = ws s /\ isConnecting s' = isConnecting s /\
  handlers s' = handlers s /\
  attempts (out s') = attempts (out s) /\
  announced (out s') = announced (out s) /\
  (is_permanent d = false ->
     flags s' = flags s /\ sockets s' = sockets s) /\
  (is_permanent d = true ->
     shouldReconnect s' = false /\ permanentError s' <> None /\
     isConnected s' = false).
Proof.
  cbv zeta. pose proof (wiring_onmessage d s) as R. unfold wiring in R.
  inversion R as [[R1 R2 R3 R4]].
  split; [apply core_onmessage|]. repeat (split; [reflexivity|]).
  split; [apply attempts_grows; eapply grows_weaken;
          [apply quiet_no_socket|apply grows_onmessage]|].
  split; [apply announced_grows; eapply grows_weaken;
          [apply quiet_no_announce|apply grows_onmessage]|].
  split; [apply onmessage_temporary|apply onmessage_permanent].
Qed.

Lemma onmessage_frame_witness :
  isConnected
    (onmessage
       (Parsed (error (Some {| error_message := js "gone";
                               error_code := Some (js "LEADERBOARD_NOT_FOUND") |})))
       live) = false /\
  sockets (onmessage (Parsed (error None)) live) = sockets live.
Proof.
  split.
  - apply (onmessage_frame
             (Parsed (error (Some {| error_message := js "gone";
                                     error_code := Some (js "LEADERBOARD_NOT_FOUND") |})))
             live).
    vm_compute. reflexivity.
  - apply (onmessage_frame (Parsed (error None)) live). reflexivity.
Defined.

(** X23.  A [ping] from the server is answered with one [pong] frame on
    the current socket when that socket is open.  When it is not, as for a
    ping that arrives on a socket that is closing, [send] throws inside
    the handler and the client reports it to [onError] as a message that
    could not be parsed; nothing is sent and nothing is thrown to the
    socket. *)
Theorem ping_reply (s : t) :
  let s' := onmessage (Parsed ping) s in
  (isConnected s = true ->
     exists i, ws s = Some i /\
       out s' = out s ++ surfaced (onMessage (handlers s)) (OnMessage ping)
                ++ [Sent i f_pong]) /\
  (isConnected s = false ->
     out s' = out s ++ surfaced (onMessage (handlers s)) (OnMessage ping)
              ++ surfaced (onError (handlers s))
                   (OnError (PlainError (js "Failed to parse WebSocket message")))).
Proof.
  cbv zeta. unfold onmessage, handleMessage.
  set (s0 := notify (onMessage (handlers s)) (OnMessage ping) s).
  assert (F : out s0 = out s ++ surfaced (onMessage (handlers s)) (OnMessage ping)
              /\ ws s0 = ws s /\ isConnected s0 = isConnected s /\
              handlers s0 = handlers s).
  { subst s0. unfold notify, surfaced.
    destruct (onMessage (handlers s)); cbn; rewrite ?app_nil_r; auto. }
  destruct F as (F1 & F2 & F3 & F4). split; intros Hc.
  - unfold isConnected in Hc. destruct (ws s) as [i|] eqn:W; [|discriminate].
    exists i. split; [reflexivity|]. unfold send. rewrite F2, F3.
    unfold isConnected. rewrite W, Hc. cbn. now rewrite F1, <- app_assoc.
  - assert (E : send f_pong s0 = (Throw WS_NOT_CONNECTED, s0)).
    { unfold send. rewrite F3, Hc. now destruct (ws s0). }
    rewrite E. unfold handleError, notify, surfaced. rewrite F4.
    destruct (onError (handlers s)); cbn; rewrite F1, ?app_nil_r;
      [now rewrite <- app_assoc|reflexivity].
Qed.

Lemma ping_reply_witness :
  out (onmessage (Parsed ping) live) = out live ++ [Sent 0 f_pong].
Proof.
  destruct (ping_reply live) as [H _].
  destruct H as [i [W H]]; [vm_compute; reflexivity|].
  rewrite H. assert (E : ws live = Some 0) by (vm_compute; reflexivity).
  rewrite E in W. inversion W. reflexivity.
Defined.

(** *** Calls in sequence *)

(** X26.  [connect()] called again while the first connection is being
    set up, or while it is open, does nothing: with a URL that the
    WebSocket constructor accepts, two calls in a row leave the client as
    one call does, whatever the arguments of the second; so one call
    creates at most one socket, two in a row create no second one, and the
    leaderboard given to the second call is not subscribed. *)
Theorem connect_idempotent (l1 u1 l2 u2 : option jsstring) (s : t) :
  wsUrlValid (options s) = true ->
  connect l2 u2 (connect l1 u1 s) = connect l1 u1 s /\
  length (attempts (out (connect l1 u1 s))) <= length (attempts (out s)) + 1.
Proof.
  intros Hv.
  assert (C : isConnected (connect l1 u1 s) || isConnecting (connect l1 u1 s)
              = true).
  { unfold connect. destruct (isConnected s || isConnecting s) eqn:E;
      [exact E|].
    cbv zeta. destruct (truthy l1);
      cbn [options set_subscribedLeaderboards set_permanentError
           set_shouldReconnect set_isConnecting];
      rewrite Hv; apply orb_true_r. }
  split.
  - unfold connect at 1. now rewrite C.
  - unfold connect. destruct (isConnected s || isConnecting s); [lia|].
    cbv zeta. destruct (truthy l1);
      cbn [options set_subscribedLeaderboards set_permanentError
           set_shouldReconnect set_isConnecting];
      rewrite Hv; cbn [out emit set_out set_ws set_sockets
                       set_subscribedLeaderboards set_permanentError
                       set_shouldReconnect set_isConnecting];
      rewrite attempts_app, length_app; cbn; lia.
Qed.

Lemma connect_idempotent_witness :
  attempts
    (out (connect (Some (js "M")) None
            (connect (Some (js "L")) None (new defaults true))))
  = [NewSocket 0 (Some (js "L")) None].
Proof.
  destruct (connect_idempotent (Some (js "L")) None (Some (js "M")) None
              (new defaults true)) as [H _]; [reflexivity|].
  rewrite H. vm_compute. reflexivity.
Defined.

Lemma sdelete_sadd x l : ~ In x l -> sdelete x (sadd x l) = l.
Proof.
  intros H. unfold sadd, sdelete.
  assert (F : filter (fun y => negb (jseqb x y)) l = l).
  { apply OfflineQueueSpec.filter_true. intros y Hy.
    apply negb_true_iff. apply QueueOpsSpec.jseqb_false_iff_local.
    intros ->. contradiction. }
  destruct (existsb (jseqb x) l) eqn:E.
  - apply existsb_exists in E. destruct E as [y [Hy E]].
    apply jseqb_true_iff in E. subst y. contradiction.
  - rewrite filter_app, F. cbn. rewrite jseqb_refl. cbn. apply app_nil_r.
Qed.

(** X27.  Round trip on an open socket: subscribing to a topic that is
    not in the subscription set and unsubscribing from it again gives back
    the set as it was; one subscribe frame and one unsubscribe frame were
    sent on the current socket, in this order. *)
Theorem subscribe_unsubscribe (x : jsstring) (u : option jsstring) (s : t) :
  isConnected s = true -> ~ In x (subscribedLeaderboards s) ->
  let s' := snd (unsubscribe x (snd (subscribe x u s))) in
  subscribedLeaderboards s' = subscribedLeaderboards s /\
  exists i, ws s = Some i /\
    out s' = out s ++ [Sent i (f_subscribe x u); Sent i (f_unsubscribe x)].
Proof.
  intros Hc Hx. cbv zeta.
  assert (W : exists i, ws s = Some i).
  { unfold isConnected in Hc. destruct (ws s) as [i|]; [now exists i|discriminate]. }
  destruct W as [i W].
  assert (E1 : subscribe x u s =
               (Ok tt, set_subscribedLeaderboards
                         (sadd x (subscribedLeaderboards s))
                         (emit (Sent i (f_subscribe x u)) s))).
  { unfold subscribe, send. now rewrite Hc, W. }
  rewrite E1. cbn [snd].
  set (s1 := set_subscribedLeaderboards _ _).
  assert (C1 : isConnected s1 = true)
    by (rewrite <- Hc; now apply isConnected_fields).
  assert (W1 : ws s1 = Some i) by exact W.
  unfold unsubscribe, send. rewrite C1, W1. cbn [negb snd].
  subst s1.
  cbn [subscribedLeaderboards out emit set_out set_subscribedLeaderboards].
  split; [now apply sdelete_sadd|].
  exists i. split; [exact W|]. now rewrite <- app_assoc.
Qed.

Lemma subscribe_unsubscribe_witness :
  subscribedLeaderboards
    (snd (unsubscribe (js "N") (snd (subscribe (js "N") None live))))
  = [js "L"; js "M"].
Proof.
  destruct (subscribe_unsubscribe (js "N") None live) as [H _].
  - vm_compute. reflexivity.
  - assert (E : subscribedLeaderboards live = [js "L"; js "M"])
      by (vm_compute; reflexivity).
    rewrite E. simpl. intuition discriminate.
  - rewrite H. vm_compute. reflexivity.
Defined.

(** *** Teardown of a client whose timers are all tracked *)

Lemma disconnect_tracked_witness :
  timers (disconnect live) = [] /\
  attempts (out (run [TimerFire 1 0; SockClose 0 1000 [] 0] (disconnect live)))
    = attempts (out (disconnect live)).
Proof.
  apply (disconnect_tracked live [TimerFire 1 0; SockClose 0 1000 [] 0]).
  - assert (E : timers live = [(1, PingTick)]) by (vm_compute; reflexivity).
    intros id k H. rewrite E in H. destruct H as [H|[]]. inversion H.
    right. vm_compute. reflexivity.
  - repeat constructor.
Defined.
End WebSocketOpsSpec.

(** ** Splitting of one large group *)

Module BatchOpsSpec.
Import OfflineQueue Samples.

Lemma batchOperations_one_leaderboard_witness :
  length (fst (batchOperations 10 queue101)) = 2 /\
  vals (fst (batchOperations 10 queue101)) = ops101.
Proof.
  destruct (BatchSpec.batchOperations_one_leaderboard 10 queue101 (js "L"))
    as (_ & H2 & _ & H4).
  - discriminate.
  - unfold queue101, ops101. cbn [queue]. apply Forall_forall.
    intros op Hop. apply in_map_iff in Hop. destruct Hop as [n [<- _]].
    split; reflexivity.
  - unfold queue101, ops101. cbn [queue]. apply Forall_forall.
    intros op Hop. apply in_map_iff in Hop. destruct Hop as [n [<- _]].
    reflexivity.
  - unfold queue101, ops101, MAX_BATCH_SIZE. cbn [queue].
    rewrite length_map, length_seq. lia.
  - split; [|exact H4]. rewrite H2. unfold queue101, ops101. cbn [queue].
    rewrite length_map, length_seq. reflexivity.
Defined.
End BatchOpsSpec.

(** * Calls that are suspended at an [await] *)

(** ** The offline queue from its constructor on *)

Module LifecycleSpec.
Import OfflineQueue QueueOps Lifecycle Samples.

(** [OfflineQueue.enqueue] is [enqueue_start] followed at once by the
    continuation, on an instance on which nothing else is waiting. *)
Lemma enqueue_sequential ulid now later m p (i : t) :
  jobs i = [] ->
  match fst (enqueue_start ulid now m p i) with
  | Ok _ =>
      let i2 := tick later (snd (enqueue_start ulid now m p i)) in
      instance i2 = snd (enqueue ulid now m p (instance i)) /\
      jobs i2 = [] /\
      exists ack,
        fst (enqueue ulid now m p (instance i)) = Ok ack /\
        resolved i2 = resolved i ++ [ack]
  | Throw e =>
      fst (enqueue ulid now m p (instance i)) = Throw e /\
      snd (enqueue ulid now m p (instance i)) = instance i /\
      snd (enqueue_start ulid now m p i) = i
  end.
Proof.
  intros Hj. unfold enqueue_start, enqueue. cbv zeta.
  destruct (MAX_QUEUE_SIZE <=? length (queue (instance i)));
    cbn [fst snd]; [repeat split|].
  unfold tick. cbn [jobs]. rewrite Hj. cbn [app resume set_jobs jobs instance
    resolved queueId].
  split; [reflexivity|]. split; [reflexivity|].
  eexists. split; reflexivity.
Qed.

(** C3.  On a queue that has just been constructed the code does not do
    what the claim says.  The constructor starts [loadQueue()] and does not wait for it.  An
    [enqueue] in the same turn finds the empty queue of the field
    initialiser, pushes the operation and hands the array to the adapter;
    then the load resumes and assigns the array it had read before, and
    only then [enqueue] resumes: it emits [queue:added] and resolves with
    the length of the queue as it is now.  The size before was 0, below
    the capacity; the claim promises size 1, position 1 and the operation
    in [getQueue()]; the code gives size 0, position 0 and an empty
    [getQueue()], while the adapter holds the operation. *)
Theorem enqueue_during_load :
  let i0 := construct (Some []) in
  let started :=
    enqueue_start (js "01A") 7 Method.submit sample_params i0 in
  let i2 := run [Tick 8; Tick 8] (snd started) in
  size (instance i0) = 0 /\
  fst started = Ok tt /\
  jobs i2 = [] /\
  resolved i2 =
    [{| QueuedSubmitResponse.queued := true;
        QueuedSubmitResponse.queueId := js "01A";
        QueuedSubmitResponse.queuePosition := 0;
        QueuedSubmitResponse.operation := js "insert";
        QueuedSubmitResponse.rank := (-1)%Z |}] /\
  size (instance i2) = 0 /\
  getQueue (instance i2) = [] /\
  effects (instance i2) = [Persist [sample]; Emit (queue_added sample)] /\
  stored_after [] (effects (instance i2)) = [sample].
Proof. cbv zeta. repeat split; vm_compute; reflexivity. Qed.

(** X28.  On an instance on which no continuation is waiting, so that
    the load of the constructor has settled and no other [enqueue] is in
    flight, [enqueue] followed by its continuation does the following.
    Below the capacity the size grows by one, the operation is the last
    one of [getQueue()], the array is handed to the adapter, [queue:added]
    is emitted and the promise resolves with the new size as the
    position.  At the capacity the promise is rejected and nothing
    changes. *)
Theorem enqueue_settled ulid now later m p (i : t) :
  jobs i = [] ->
  let op := {| queueId := ulid; method := m; params := p;
               timestamp := now; retryCount := 0 |} in
  let started := enqueue_start ulid now m p i in
  let i2 := tick later (snd started) in
  (size (instance i) < MAX_QUEUE_SIZE ->
     fst started = Ok tt /\
     size (instance i2) = size (instance i) + 1 /\
     getQueue (instance i2) = getQueue (instance i) ++ [op] /\
     effects (instance i2) =
       effects (instance i) ++
       [Persist (getQueue (instance i) ++ [op]); Emit (queue_added op)] /\
     resolved i2 =
       resolved i ++
       [{| QueuedSubmitResponse.queued := true;
           QueuedSubmitResponse.queueId := ulid;
           QueuedSubmitResponse.queuePosition := size (instance i) + 1;
           QueuedSubmitResponse.operation := js "insert";
           QueuedSubmitResponse.rank := (-1)%Z |}] /\
     jobs i2 = []) /\
  (MAX_QUEUE_SIZE <= size (instance i) ->
     fst started = Throw (PlainError (js "Queue is full (max 1000 items)")) /\
     snd started = i).
Proof.
  intros Hj. cbv zeta. unfold enqueue_start, size, getQueue. cbv zeta.
  split; intros H.
  - apply Nat.leb_gt in H. rewrite H. cbn [fst snd].
    unfold tick. cbn [jobs]. rewrite Hj.
    cbn [app resume set_jobs jobs instance resolved queueId].
    unfold emit, persistQueue, log, set_queue. cbn [queue effects].
    rewrite length_app, <- app_assoc. cbn [length app].
    repeat split; reflexivity.
  - apply Nat.leb_le in H. rewrite H. split; reflexivity.
Qed.

Lemma enqueue_settled_witness :
  resolved
    (tick 9 (snd (enqueue_start (js "01A") 7 Method.submit sample_params
                    settled)))
  = [{| QueuedSubmitResponse.queued := true;
        QueuedSubmitResponse.queueId := js "01A";
        QueuedSubmitResponse.queuePosition := 1;
        QueuedSubmitResponse.operation := js "insert";
        QueuedSubmitResponse.rank := (-1)%Z |}].
Proof.
  destruct (enqueue_settled (js "01A") 7 9 Method.submit sample_params settled)
    as [H _]; [reflexivity|].
  destruct H as (_ & _ & _ & _ & H & _); [vm_compute; lia|].
  rewrite H. reflexivity.
Defined.

(** *** Storage and memory *)

Lemma load_pending_app l1 l2 i :
  jobs i = l1 ++ l2 -> load_pending i = false ->
  existsb (fun j => match j with
                    | loadQueue_resume _ => true
                    | enqueue_resume _ => false
                    end) l2 = false.
Proof.
  unfold load_pending. intros -> H. rewrite existsb_app in H.
  now apply orb_false_iff in H.
Qed.

Lemma stored_step init a i :
  load_pending i = false ->
  stored_after init (effects (instance i)) = queue (instance i) ->
  load_pending (step a i) = false /\
  stored_after init (effects (instance (step a i))) = queue (instance (step a i)).
Proof.
  intros Hl Hs. destruct a as [c|now]; cbn [step].
  - destruct c as [u now m p|ids|id perm|now|];
      try (split; [exact Hl|];
           cbn [start instance set_instance];
           now apply QueueOpsSpec.stored_call).
    cbn [start]. unfold enqueue_start. cbv zeta.
    destruct (MAX_QUEUE_SIZE <=? length (queue (instance i)));
      cbn [snd]; [now split|].
    split.
    + unfold load_pending in *. cbn [jobs]. rewrite existsb_app, Hl. reflexivity.
    + cbn. now rewrite QueueOpsSpec.stored_after_app.
  - unfold tick. destruct (jobs i) as [|j rest] eqn:Ej; [now split|].
    assert (Hr : existsb (fun j => match j with
                                   | loadQueue_resume _ => true
                                   | enqueue_resume _ => false
                                   end) rest = false)
      by (apply (load_pending_app [j] rest i); assumption).
    destruct j as [stored|op].
    + unfold load_pending in Hl. rewrite Ej in Hl. discriminate Hl.
    + split; [exact Hr|].
      cbn. now rewrite QueueOpsSpec.stored_after_app.
Qed.

(** X3.  Once the load of the constructor has settled, memory and storage
    stay in step: if no load is waiting and the adapter holds the queue,
    and it accepts every write, then after any sequence of calls of
    [enqueue], [removeProcessed], [markFailed], [batchOperations] and
    [clear] and of continuations that run in between, in any
    interleaving, the adapter holds the queue and still no load is
    waiting. *)
Theorem storage_follows_queue (init : list QueuedOperation)
    (l : list Action) (i : t) :
  load_pending i = false ->
  stored_after init (effects (instance i)) = queue (instance i) ->
  load_pending (run l i) = false /\
  stored_after init (effects (instance (run l i))) = queue (instance (run l i)).
Proof.
  revert i. induction l as [|a l IH]; intros i Hl Hs; [now split|].
  cbn [run fold_left]. fold (run l (step a i)).
  destruct (stored_step init a i Hl Hs) as [Hl' Hs']. now apply IH.
Qed.

(** Two calls of [enqueue] in one turn after the load, a failure and the
    two continuations. *)
Lemma storage_follows_queue_witness :
  let i :=
    run [Start (c_enqueue (js "a") 2 Method.submit sample_params);
         Start (c_enqueue (js "b") 3 Method.submit sample_params);
         Start (c_markFailed (js "a") true);
         Tick 4; Tick 4]
      settled in
  stored_after [] (effects (instance i)) = queue (instance i).
Proof.
  cbv zeta. apply storage_follows_queue; reflexivity.
Defined.

End LifecycleSpec.

(** ** The facade with what is pending in its queue *)

Module ClientSpec.
Import OfflineQueue GlobalLeaderboards FacadeOps Client Samples.

Lemma set_offlineQueue_same g : set_offlineQueue (offlineQueue g) g = g.
Proof. now destruct g. Qed.

(** [GlobalLeaderboards.submit] is [submit_start] followed at once by the
    continuation of [enqueue], on a client on which nothing else is
    waiting. *)
Lemma submit_sequential ulid now later userId score a (c : Client.t) :
  jobs c = [] ->
  let started := submit_start ulid now userId score a c in
  let done := submit ulid now userId score a (facade c) in
  match fst started with
  | queueing =>
      facade (tick later (snd started)) = snd done /\
      jobs (tick later (snd started)) = [] /\
      exists ack,
        fst done = Queued (Ok ack) /\
        resolved (tick later (snd started)) = resolved c ++ [ack]
  | threw e =>
      (fst done = Rejected e \/ fst done = Queued (Throw e)) /\
      snd done = facade c /\ facade (snd started) = facade c /\
      jobs (snd started) = [] /\ resolved (snd started) = resolved c
  | requested r =>
      fst done = Direct r /\ facade (snd started) = snd done /\
      jobs (snd started) = [] /\ resolved (snd started) = resolved c
  end.
Proof.
  intros Hj. cbv zeta. unfold submit_start, submit. cbv zeta.
  destruct (Qlt_le_dec score 0); cbn [fst snd]; [auto 6|].
  destruct (negb (truthy _)); cbn [fst snd]; [auto 6|].
  destruct (negb (userNamePattern_test _)); cbn [fst snd]; [auto 6|].
  destruct (_ || _); cbn [fst snd]; [auto 6|].
  destruct (negb (isOnline (facade c)) || hasItems (offlineQueue (facade c)));
    [|cbn [fst snd lift facade jobs resolved]; auto].
  unfold Lifecycle.enqueue_start, enqueue, queue_of. cbv zeta.
  cbn [Lifecycle.instance Lifecycle.jobs Lifecycle.resolved].
  destruct (MAX_QUEUE_SIZE <=? length (queue (offlineQueue (facade c))));
    cbn [fst snd with_queue facade jobs resolved Lifecycle.instance
         Lifecycle.jobs Lifecycle.resolved].
  - rewrite set_offlineQueue_same. auto 6.
  - unfold tick, Lifecycle.tick, queue_of.
    cbn [facade jobs resolved Lifecycle.jobs Lifecycle.instance
         Lifecycle.resolved with_queue offlineQueue set_offlineQueue].
    rewrite Hj.
    cbn [app Lifecycle.resume Lifecycle.set_jobs Lifecycle.jobs
         Lifecycle.instance Lifecycle.resolved with_queue facade jobs
         resolved queueId set_offlineQueue offlineQueue defaultLeaderboardId
         isOnline calls].
    split; [reflexivity|]. split; [reflexivity|].
    eexists. split; reflexivity.
Qed.

(** A valid score that takes the queue's path below the capacity, on a
    client on which nothing is waiting: the call is suspended inside
    [enqueue], and when it resumes the client is where
    [GlobalLeaderboards.submit] leaves it and the promise is resolved with
    the position of the score. *)
Lemma submit_queueing (ulid : jsstring) (now later : Z) (userId : jsstring)
    (score : Q) (a : LeaderboardIdOrOptions) (c : Client.t) :
  let g := facade c in
  let options := normalize a in
  let leaderboardId :=
    or_opt (opt_leaderboardId options) (defaultLeaderboardId g) in
  let userName := or_else (opt_userName options) userId in
  let p := {| userId := Some userId; score := Some score;
              leaderboardId := leaderboardId; userName := Some userName;
              metadata := opt_metadata options; scores := None |} in
  let started := submit_start ulid now userId score a c in
  let c2 := tick later (snd started) in
  jobs c = [] ->
  (0 <= score)%Q -> truthy leaderboardId = true ->
  userNamePattern_test userName = true -> length userName <= 50 ->
  isOnline g = false \/ hasItems (offlineQueue g) = true ->
  size (offlineQueue g) < MAX_QUEUE_SIZE ->
  fst started = queueing /\
  facade c2 = snd (submit ulid now userId score a g) /\
  queue (offlineQueue (facade c2)) =
    queue (offlineQueue g) ++
    [{| queueId := ulid; method := Method.submit; params := p;
        timestamp := now; retryCount := 0 |}] /\
  resolved c2 =
    resolved c ++
    [{| QueuedSubmitResponse.queued := true;
        QueuedSubmitResponse.queueId := ulid;
        QueuedSubmitResponse.queuePosition := size (offlineQueue g) + 1;
        QueuedSubmitResponse.operation := js "insert";
        QueuedSubmitResponse.rank := (-1)%Z |}] /\
  jobs c2 = [].
Proof.
  cbv zeta. intros Hj Hs Hl Hp Hn Hq Hsz.
  pose proof (submit_sequential ulid now later userId score a c Hj) as B.
  cbv zeta in B.
  pose proof (FacadeOpsSpec.submit_valid ulid now userId score a (facade c)
                Hs Hl Hp Hn) as V.
  cbv zeta in V. rewrite V in B. rewrite V. clear V.
  assert (E : negb (isOnline (facade c)) || hasItems (offlineQueue (facade c))
              = true).
  { destruct Hq as [H|H]; rewrite H; [reflexivity|apply orb_true_r]. }
  rewrite E in B. rewrite E.
  destruct (FacadeOpsSpec.enqueue_below ulid now Method.submit
              {| userId := Some userId; score := Some score;
                 leaderboardId :=
                   or_opt (opt_leaderboardId (normalize a))
                     (defaultLeaderboardId (facade c));
                 userName := Some (or_else (opt_userName (normalize a)) userId);
                 metadata := opt_metadata (normalize a); scores := None |}
              (offlineQueue (facade c)) Hsz) as [Hqueue Hres].
  destruct (enqueue _ _ _ _ _) as [res q] eqn:Eq. cbn [fst snd] in *.
  destruct (fst (submit_start ulid now userId score a c)) as [e| |rq].
  - destruct B as (Bd & _). rewrite Hres in Bd.
    destruct Bd as [Bd|Bd]; discriminate Bd.
  - destruct B as (B1 & B2 & ack & B3 & B4). rewrite B1.
    split; [reflexivity|]. split; [reflexivity|]. split; [exact Hqueue|].
    rewrite Hres in B3. inversion B3; subst ack.
    split; [exact B4|exact B2].
  - destruct B as (B & _). discriminate B.
Qed.

(** X11.  Routing of a valid [submit] on a client on which no
    continuation is waiting, so that the load of the queue's constructor
    has settled.  When the client is offline or the queue holds items, no
    REST call is made, and below the capacity the score is appended to the
    queue and, when [enqueue] resumes, acknowledged with its position.
    When the client is online and the queue is empty, one call to
    [/v1/scores] is made and the queue is not touched. *)
Theorem submit_settled_routing (ulid : jsstring) (now later : Z)
    (userId : jsstring) (score : Q) (a : LeaderboardIdOrOptions)
    (c : Client.t) :
  let g := facade c in
  let options := normalize a in
  let leaderboardId :=
    or_opt (opt_leaderboardId options) (defaultLeaderboardId g) in
  let userName := or_else (opt_userName options) userId in
  let p := {| userId := Some userId; score := Some score;
              leaderboardId := leaderboardId; userName := Some userName;
              metadata := opt_metadata options; scores := None |} in
  let request :=
    {| Wire.leaderboard_id := leaderboardId; Wire.user_id := Some userId;
       Wire.user_name := Some userName; Wire.score := Some score;
       Wire.metadata := opt_metadata options |} in
  let r := fst (submit_start ulid now userId score a c) in
  let c1 := snd (submit_start ulid now userId score a c) in
  let c2 := tick later c1 in
  jobs c = [] ->
  (0 <= score)%Q -> truthy leaderboardId = true ->
  userNamePattern_test userName = true -> length userName <= 50 ->
  (isOnline g = false \/ hasItems (offlineQueue g) = true ->
     calls (facade c2) = calls g /\
     (size (offlineQueue g) < MAX_QUEUE_SIZE ->
        r = queueing /\
        queue (offlineQueue (facade c2)) =
          queue (offlineQueue g) ++
          [{| queueId := ulid; method := Method.submit; params := p;
              timestamp := now; retryCount := 0 |}] /\
        resolved c2 =
          resolved c ++
          [{| QueuedSubmitResponse.queued := true;
              QueuedSubmitResponse.queueId := ulid;
              QueuedSubmitResponse.queuePosition :=
                size (offlineQueue g) + 1;
              QueuedSubmitResponse.operation := js "insert";
              QueuedSubmitResponse.rank := (-1)%Z |}] /\
        jobs c2 = [])) /\
  (isOnline g = true -> hasItems (offlineQueue g) = false ->
     r = requested request /\
     offlineQueue (facade c1) = offlineQueue g /\
     calls (facade c1) =
       calls g ++ [{| path := js "/v1/scores"; body := [request] |}] /\
     jobs c1 = []).
Proof.
  cbv zeta. intros Hj Hs Hl Hp Hn.
  pose proof (submit_sequential ulid now later userId score a c Hj) as B.
  cbv zeta in B.
  pose proof (FacadeOpsSpec.submit_valid ulid now userId score a (facade c)
                Hs Hl Hp Hn) as V.
  cbv zeta in V. rewrite V in B. clear V.
  split.
  - intros Hq.
    assert (E : negb (isOnline (facade c)) || hasItems (offlineQueue (facade c))
                = true).
    { destruct Hq as [H|H]; rewrite H; [reflexivity|apply orb_true_r]. }
    rewrite E in B.
    pose proof (FacadeOpsSpec.enqueue_below ulid now Method.submit
                {| userId := Some userId; score := Some score;
                   leaderboardId :=
                     or_opt (opt_leaderboardId (normalize a))
                       (defaultLeaderboardId (facade c));
                   userName := Some (or_else (opt_userName (normalize a)) userId);
                   metadata := opt_metadata (normalize a); scores := None |}
                (offlineQueue (facade c))) as Hok.
    destruct (enqueue _ _ _ _ _) as [res q] eqn:Eq. cbn [fst snd] in *.
    destruct (fst (submit_start ulid now userId score a c)) as [e| |rq].
    + destruct B as (Bd & _ & B1 & Bj & _). split.
      * unfold tick, Lifecycle.tick, queue_of.
        cbn [Lifecycle.jobs]. rewrite Bj.
        cbn [with_queue facade calls set_offlineQueue Lifecycle.instance].
        now rewrite B1.
      * intros Hsz. destruct (Hok Hsz) as [_ Hres]. rewrite Hres in Bd.
        destruct Bd as [Bd|Bd]; discriminate Bd.
    + destruct B as (B1 & B2 & ack & B3 & B4). rewrite B1.
      split; [reflexivity|]. intros Hsz.
      destruct (Hok Hsz) as [Hqueue Hres].
      split; [reflexivity|]. split; [exact Hqueue|].
      rewrite Hres in B3. inversion B3; subst ack.
      split; [exact B4|exact B2].
    + destruct B as (B & _). discriminate B.
  - intros Ho Hi. rewrite Ho, Hi in B. cbn [negb orb fst snd] in B.
    destruct (fst (submit_start ulid now userId score a c)) as [e| |rq].
    + destruct B as ([B|B] & _); discriminate B.
    + destruct B as (_ & _ & ack & B & _). discriminate B.
    + destruct B as (B1 & B2 & B3 & _). inversion B1; subst rq.
      rewrite B2. repeat split; assumption.
Qed.

Lemma submit_settled_routing_witness :
  resolved
    (tick 9 (snd (submit_start (js "01A") 7 (js "u1") (inject_Z 100)
                    (ArgString (js "L")) (lift on_offline settled))))
  = [{| QueuedSubmitResponse.queued := true;
        QueuedSubmitResponse.queueId := js "01A";
        QueuedSubmitResponse.queuePosition := 1;
        QueuedSubmitResponse.operation := js "insert";
        QueuedSubmitResponse.rank := (-1)%Z |}].
Proof.
  destruct (submit_settled_routing (js "01A") 7 9 (js "u1") (inject_Z 100)
              (ArgString (js "L")) (lift on_offline settled))
    as [H _]; [reflexivity|discriminate|reflexivity|reflexivity|simpl; lia|].
  destruct H as [_ H]; [left; reflexivity|].
  destruct H as (_ & _ & H & _); [vm_compute; lia|].
  rewrite H. reflexivity.
Defined.

(** X14.  The offline round trip, on a client on which no continuation
    is waiting.  The client, with an empty queue, goes offline; a valid
    score is submitted and, when [enqueue] has resumed, queued at
    position 1; when the network comes back within the time to live and
    the server accepts the batch, the [online] listener sends that one
    score in one bulk call and the queue is empty again.  The leaderboard
    id must not start with [bulk_], which the loop takes for the key of a
    queued bulk operation. *)
Theorem offline_round_trip_settled (respond : jsstring -> Outcome)
    (ulid : jsstring) (now resumed later : Z) (userId : jsstring)
    (score : Q) (a : LeaderboardIdOrOptions) (c : Client.t) :
  let g := facade c in
  let options := normalize a in
  let leaderboardId :=
    or_opt (opt_leaderboardId options) (defaultLeaderboardId g) in
  let userName := or_else (opt_userName options) userId in
  let c1 :=
    snd (submit_start ulid now userId score a (lift on_offline c)) in
  let queued := tick resumed c1 in
  let back := lift (on_online respond later) queued in
  jobs c = [] ->
  queue (offlineQueue g) = [] ->
  isProcessing (offlineQueue g) = false ->
  (0 <= score)%Q -> truthy leaderboardId = true ->
  userNamePattern_test userName = true -> length userName <= 50 ->
  startsWith (js "bulk_") (or_else leaderboardId []) = false ->
  (later - now < QUEUE_TTL_MS)%Z ->
  respond (or_else leaderboardId []) = Resolved ->
  size (offlineQueue (facade queued)) = 1 /\
  resolved queued =
    resolved c ++
    [{| QueuedSubmitResponse.queued := true;
        QueuedSubmitResponse.queueId := ulid;
        QueuedSubmitResponse.queuePosition := 1;
        QueuedSubmitResponse.operation := js "insert";
        QueuedSubmitResponse.rank := (-1)%Z |}] /\
  queue (offlineQueue (facade back)) = [] /\
  isOnline (facade back) = true /\
  jobs back = [] /\
  calls (facade back) =
    calls g ++
    [{| path := BULK_PATH;
        body := [{| Wire.leaderboard_id := leaderboardId;
                    Wire.user_id := Some userId;
                    Wire.user_name := Some userName;
                    Wire.score := Some score;
                    Wire.metadata := opt_metadata options |}] |}].
Proof.
  cbv zeta. intros Hj Hq Hp Hs Hl Hn Hlen Hb Hfresh Hr.
  destruct (FacadeOpsSpec.offline_round_trip respond ulid now later userId
              score a (facade c) Hq Hp Hs Hl Hn Hlen Hb Hfresh Hr)
    as (T1 & T2 & T3 & T4).
  destruct (submit_queueing ulid now resumed userId score a
              (lift on_offline c) Hj Hs Hl Hn Hlen) as (_ & B & _ & Rres & Rj).
  { left; reflexivity. }
  { unfold size. cbn [lift facade on_offline offlineQueue set_isOnline].
    rewrite Hq. unfold MAX_QUEUE_SIZE. simpl. lia. }
  cbn [lift facade] in B.
  cbn [lift facade jobs resolved]. rewrite B.
  split; [exact T1|]. split.
  - rewrite Rres. cbn [lift resolved facade on_offline offlineQueue
      set_isOnline]. unfold size. now rewrite Hq.
  - split; [exact T2|]. split; [exact T3|]. split; [exact Rj|exact T4].
Qed.

Lemma offline_round_trip_settled_witness :
  let queued :=
    tick 9 (snd (submit_start (js "01A") 7 (js "u1") (inject_Z 100)
                   (ArgString (js "L")) (lift on_offline settled))) in
  size (offlineQueue (facade queued)) = 1 /\
  queue (offlineQueue
           (facade (lift (on_online (fun _ => Resolved) 60000) queued))) = [].
Proof.
  cbv zeta.
  destruct (offline_round_trip_settled (fun _ => Resolved) (js "01A") 7 9 60000
              (js "u1") (inject_Z 100) (ArgString (js "L")) settled)
    as (H1 & _ & H2 & _);
    [reflexivity|reflexivity|reflexivity|discriminate|reflexivity
    |reflexivity|simpl; lia|reflexivity|reflexivity|reflexivity|].
  split; [exact H1|exact H2].
Defined.

End ClientSpec.

(** ** Reconnection of a client made by [connectWebSocket] *)

Module ReconnectSpec.
Import LeaderboardWebSocket.

Lemma spread_nothing urlValid :
  spread {| given_maxReconnectAttempts := None;
            given_reconnectDelay := None |} urlValid
  = {| maxReconnectAttempts := Some (Double.Finite (inject_Z 5));
       reconnectDelay := Some (Double.Finite (inject_Z 1000));
       wsUrlValid := urlValid |}.
Proof. reflexivity. Qed.

Lemma spread_connectWebSocket m d urlValid :
  spread (connectWebSocket_options m d) urlValid
  = {| maxReconnectAttempts := m; reconnectDelay := d;
       wsUrlValid := urlValid |}.
Proof. reflexivity. Qed.

Lemma reconnect_delay_undefined a random :
  reconnect_delay None a random = Double.NaN.
Proof. reflexivity. Qed.

(** X29.  With the options that [connectWebSocket] hands over when the
    application gives neither a limit nor a delay, both properties are
    [undefined] after the spread.  Then [scheduleReconnect], while the
    network is online, never gives up: whatever the counter is, the test
    against the limit is false, the counter goes up by one, the observer is
    given the new counter, [undefined] and NaN, and the timer is set with a
    delay of NaN. *)
Theorem scheduleReconnect_without_limit (s : t) (random : Q) :
  maxReconnectAttempts (options s) = None ->
  reconnectDelay (options s) = None ->
  isOnline s = true ->
  let s' := scheduleReconnect random s in
  reconnectAttempts s' = reconnectAttempts s + 1 /\
  out s' =
    out s ++
    (if onReconnecting (handlers s)
     then [OnReconnecting (reconnectAttempts s + 1) None Double.NaN]
     else []) ++
    [SetTimeout (nextTimer s) Double.NaN] /\
  timers s' = timers s ++ [(nextTimer s, ReconnectTimeout)] /\
  reconnectTimer s' = Some (nextTimer s).
Proof.
  intros Hm Hd Ho. cbv zeta. unfold scheduleReconnect.
  rewrite Ho, Hm. cbn [negb Double.to_number Double.geb Double.of_nat].
  cbn [reconnectAttempts set_reconnectAttempts options handlers].
  rewrite Hm, Hd, reconnect_delay_undefined. cbn [Double.Math_round].
  unfold notify, setTimer, emit.
  destruct (onReconnecting (handlers s)); cbn;
    rewrite <- ?app_assoc; repeat split; reflexivity.
Qed.

(** A client made with the options of [connectWebSocket], after six
    connections that failed in a row: the seventh attempt is scheduled. *)
Lemma scheduleReconnect_without_limit_witness :
  let s :=
    run [Connect None None;
         SockClose 0 1006 [] (1 # 2); TimerFire 1 0;
         SockClose 1 1006 [] (1 # 2); TimerFire 2 0;
         SockClose 2 1006 [] (1 # 2); TimerFire 3 0;
         SockClose 3 1006 [] (1 # 2); TimerFire 4 0;
         SockClose 4 1006 [] (1 # 2); TimerFire 5 0;
         SockClose 5 1006 [] (1 # 2); TimerFire 6 0]
      (construct (connectWebSocket_options None None) true true) in
  reconnectAttempts s = 6 /\
  reconnectAttempts (scheduleReconnect (1 # 2) s) = 7.
Proof.
  cbv zeta. split; [vm_compute; reflexivity|].
  match goal with
  | |- reconnectAttempts (scheduleReconnect _ ?s) = _ =>
      destruct (scheduleReconnect_without_limit s (1 # 2)) as [H _];
        [reflexivity|reflexivity|reflexivity|]
  end.
  rewrite H. vm_compute. reflexivity.
Defined.

End ReconnectSpec.
